(** * Streamflow map: the synchronisation logic of the two map components
    and of the flow query endpoint.

  Sources embedded here:
  - [src/app/api/flow/route.ts]            (module [Route])
  - [src/components/StreamflowMap.tsx]     (module [Direct]: one GeoJSON
    query per settled viewport)
  - [src/unnamed/part_001]                 (module [Overlay]: tileset with
    feature state fed by a polled live document)

  The React state of a component is a record that every handler threads
  through; an [await] splits a handler into the part run when it is called
  and the part run when the promise settles. *)

From Stdlib Require Import ZArith QArith Lqa Bool List Ascii String Lia.
From stdpp Require Import gmap strings list pretty.
Import ListNotations.

Local Open Scope Z_scope.
Local Open Scope string_scope.

(** ** JavaScript numbers

  A JS [number] is a finite double, one of the two infinities, or NaN.
  Every finite double is a rational, and the code below only compares
  numbers and counts with small integers, so a finite number is kept as
  the rational it denotes ([-0] and [+0] are the same rational, as they
  are for [<] and [>=]). *)

Inductive number : Type :=
  | NaN
  | NegInf
  | Fin (q : Q)
  | PosInf.

(** [a < b] in JS: false as soon as one side is NaN. *)
Definition num_lt (a b : number) : bool :=
  match a, b with
  | NaN, _ | _, NaN => false
  | _, NegInf => false
  | NegInf, _ => true
  | PosInf, _ => false
  | Fin _, PosInf => true
  | Fin p, Fin q => negb (Qle_bool q p)
  end.

(** [a <= b] in JS. *)
Definition num_le (a b : number) : bool :=
  match a, b with
  | NaN, _ | _, NaN => false
  | NegInf, _ => true
  | _, PosInf => true
  | _, NegInf => false
  | PosInf, _ => false
  | Fin p, Fin q => Qle_bool p q
  end.

(** [a > b] and [a >= b] in JS. *)
Definition num_gt (a b : number) : bool := num_lt b a.
Definition num_ge (a b : number) : bool := num_le b a.

(** An integer literal of the source. *)
Definition lit (z : Z) : number := Fin (inject_Z z).

(** ** Flow categories

  Both [getFlowCategory] functions return the category as a string; the
  six names and their order of severity are those of the legend. *)

Inductive FlowCategory : Type :=
  | very_low | low | moderate | high | very_high | extreme.

Definition category_name (c : FlowCategory) : string :=
  match c with
  | very_low => "very_low"
  | low => "low"
  | moderate => "moderate"
  | high => "high"
  | very_high => "very_high"
  | extreme => "extreme"
  end.

Definition severity (c : FlowCategory) : nat :=
  match c with
  | very_low => 0
  | low => 1
  | moderate => 2
  | high => 3
  | very_high => 4
  | extreme => 5
  end%nat.

(** Reading a category back from its name. *)
Definition category_of_name (s : string) : option FlowCategory :=
  if String.eqb s "very_low" then Some very_low
  else if String.eqb s "low" then Some low
  else if String.eqb s "moderate" then Some moderate
  else if String.eqb s "high" then Some high
  else if String.eqb s "very_high" then Some very_high
  else if String.eqb s "extreme" then Some extreme
  else None.

(** Severity of a category given by name; a string that names no category
  has none. *)
Definition severity_of_name (s : string) : option nat :=
  option_map severity (category_of_name s).

(** ** Values shared by the endpoint and the components *)

(** One GeoJSON feature as the endpoint builds it and the map consumes it;
    the geometry is carried as its GeoJSON text. *)
Record FlowFeature : Type := {
  comid : Z;
  streamflow_cms : number;
  velocity_ms : number;
  name : option string;
  stream_order : Z;
  flow_category : string;
  geometry : string
}.

(** The two JSON bodies the endpoint sends: a feature collection, or the
    object [{ error }] that has no [features] member. *)
Inductive Body : Type :=
  | FeatureCollection (features : list FlowFeature)
  | ErrorBody (error : string).

Record Response : Type := { status : Z; body : Body }.

(** [const [stats, setStats] = useState({ count: 0, maxFlow: 0 })]. *)
Record Stats : Type := { count : Z; maxFlow : number }.

(** What the header line shows. *)
Inductive Header : Type :=
  | LoadingText
  | ErrorText (msg : string)
  | StreamCount (n : Z).

(** [Math.max(...xs)]: [-Infinity] for no argument, NaN as soon as one
    argument is NaN. *)
Definition max2 (a b : number) : number :=
  match a, b with
  | NaN, _ | _, NaN => NaN
  | _, _ => if num_lt a b then b else a
  end.

Definition Math_max (xs : list number) : number := fold_left max2 xs NegInf.

(** ** [src/app/api/flow/route.ts] *)
Module Route.

(** A row of the query's result set. *)
Record Row : Type := {
  row_comid : Z;
  row_streamflow_cms : number;
  row_velocity_ms : number;
  row_gnis_name : option string;
  row_stream_order : Z;
  row_geometry : string
}.

(** [getFlowCategory], lines 60-67. *)
Definition getFlowCategory (cms : number) : string :=
  if num_lt cms (lit 1) then "very_low"
  else if num_lt cms (lit 10) then "low"
  else if num_lt cms (lit 50) then "moderate"
  else if num_lt cms (lit 200) then "high"
  else if num_lt cms (lit 1000) then "very_high"
  else "extreme".

(** [searchParams.get(name)]: the first value given for [name], or null. *)
Fixpoint get (name : string) (searchParams : list (string * string)) : option string :=
  match searchParams with
  | [] => None
  | (k, v) :: rest => if String.eqb k name then Some v else get name rest
  end.

(** [v || d] on a string or null: null and the empty string are falsy. *)
Definition or_else (v : option string) (d : string) : string :=
  match v with
  | None => d
  | Some EmptyString => d
  | Some s => s
  end.

Section Endpoint.

(** The two built-in readers and the database pool are the endpoint's
    collaborators. [pool_query args] is the result set of the one SQL
    statement run with [args] as [$1..$5], or [None] when the query throws. *)
Variable parseFloat : string -> number.
Variable parseInt : string -> number.
Variable pool_query : list number -> option (list Row).

(** Lines 8-12 and 33: the argument array handed to the query. *)
Definition query_args (searchParams : list (string * string)) : list number :=
  let west := parseFloat (or_else (get "west" searchParams) "-180") in
  let south := parseFloat (or_else (get "south" searchParams) "-90") in
  let east := parseFloat (or_else (get "east" searchParams) "180") in
  let north := parseFloat (or_else (get "north" searchParams) "90") in
  let limit := parseInt (or_else (get "limit" searchParams) "5000") in
  [west; south; east; north; limit].

(** Lines 38-50. *)
Definition feature_of_row (row : Row) : FlowFeature :=
  {| comid := row_comid row;
     streamflow_cms := row_streamflow_cms row;
     velocity_ms := row_velocity_ms row;
     name := row_gnis_name row;
     stream_order := row_stream_order row;
     flow_category := getFlowCategory (row_streamflow_cms row);
     geometry := row_geometry row |}.

(** [GET], lines 4-58. *)
Definition GET (searchParams : list (string * string)) : Response :=
  match pool_query (query_args searchParams) with
  | Some rows =>
      {| status := 200; body := FeatureCollection (map feature_of_row rows) |}
  | None =>
      {| status := 500; body := ErrorBody "Failed to fetch flow data" |}
  end.

End Endpoint.

(** A reader of plain signed decimal integers, the strings on which
    [parseInt] and [parseFloat] agree: the value of the longest prefix
    [-?[0-9]+], NaN when there is none. *)
Definition digit_of (c : ascii) : option Z :=
  let n := Z.of_nat (nat_of_ascii c) in
  if ((48 <=? n) && (n <=? 57))%Z then Some (n - 48) else None.

Fixpoint leading_digits (s : string) (acc : option Z) : option Z :=
  match s with
  | EmptyString => acc
  | String c rest =>
      match digit_of c with
      | Some d => leading_digits rest (Some (10 * default 0 acc + d))
      | None => acc
      end
  end.

Definition read_integer (s : string) : number :=
  match s with
  | String "-"%char rest =>
      match leading_digits rest None with
      | Some n => lit (- n)
      | None => NaN
      end
  | _ =>
      match leading_digits s None with
      | Some n => lit n
      | None => NaN
      end
  end.

End Route.

(** ** [src/components/StreamflowMap.tsx] *)
Module Direct.

(** What [map.getBounds()] and [map.getZoom()] give: the visible rectangle
    and the zoom level. *)
Record Viewport : Type := {
  west : number;
  south : number;
  east : number;
  north : number;
  zoom : number
}.

(** The query of lines 76-82, each value before [toString()] prints it. *)
Record QuerySpec : Type := {
  q_west : number;
  q_south : number;
  q_east : number;
  q_north : number;
  q_limit : Z
}.

(** Lines 69-72. *)
Definition query_limit (zoom : number) : Z :=
  let limit := 2000 in
  let limit := if num_ge zoom (lit 8) then 5000 else limit in
  let limit := if num_ge zoom (lit 10) then 8000 else limit in
  let limit := if num_lt zoom (lit 6) then 1000 else limit in
  limit.

(** Lines 63-82: bounds and zoom of the map turned into the query. *)
Definition query_params (v : Viewport) : QuerySpec :=
  {| q_west := west v;
     q_south := south v;
     q_east := east v;
     q_north := north v;
     q_limit := query_limit (zoom v) |}.

(** The component's React state (lines 47-50). The [viewport] state of
    lines 52-56 only feeds the map's props and is left to the map. *)
Record State : Type := {
  flowData : option Body;
  loading : bool;
  lastUpdate : option Z;
  stats : Stats
}.

Definition initial_state : State :=
  {| flowData := None;
     loading := false;
     lastUpdate := None;
     stats := {| count := 0; maxFlow := lit 0 |} |}.

Definition setFlowData (d : Body) (st : State) : State :=
  {| flowData := Some d; loading := loading st;
     lastUpdate := lastUpdate st; stats := stats st |}.

Definition setLoading (b : bool) (st : State) : State :=
  {| flowData := flowData st; loading := b;
     lastUpdate := lastUpdate st; stats := stats st |}.

Definition setLastUpdate (t : Z) (st : State) : State :=
  {| flowData := flowData st; loading := loading st;
     lastUpdate := Some t; stats := stats st |}.

Definition setStats (s : Stats) (st : State) : State :=
  {| flowData := flowData st; loading := loading st;
     lastUpdate := lastUpdate st; stats := s |}.

(** Line 209: the header shows the loading text or the stream count; this
    component has no error text. *)
Definition header (st : State) : Header :=
  if loading st then LoadingText else StreamCount (count (stats st)).

(** How the request of one cycle ends. *)
Inductive Outcome : Type :=
  | FetchRejected                 (* [fetch] rejects: no response at all *)
  | BodyRejected (code : Z)       (* [response.json()] rejects: not JSON *)
  | Replied (r : Response).       (* a response with a JSON body *)

(** Lines 85-99, the part of [fetchFlowDataInner] after the awaits. The
    second component counts the calls of [console.error]. Line 84 never
    looks at the status of the response. *)
Definition fetchFlowDataInner_settle (now : Z) (o : Outcome) (st : State)
  : State * nat :=
  let '(st, errors) :=
    match o with
    | FetchRejected => (st, 1%nat)
    | BodyRejected _ => (st, 1%nat)
    | Replied r =>
        let data := body r in
        let st := setFlowData data st in
        let st := setLastUpdate now st in
        match data with
        | FeatureCollection features =>
            if (0 <? length features)%nat
            then (setStats {| count := Z.of_nat (length features);
                              maxFlow := Math_max (map streamflow_cms features) |}
                           st, 0%nat)
            else (st, 0%nat)
        | ErrorBody _ =>
            (* [data.features] is undefined: reading [.length] throws *)
            (st, 1%nat)
        end
    end in
  (setLoading false st, errors).

(** The component in its environment: the map behind [mapRef], the
    [timer] variable of [debounce], the timeout of the initial fetch, the
    requests sent so far and those not yet answered. A request is named by
    its position in [issued], its generation. *)
Record World : Type := {
  ui : State;
  map : option Viewport;
  timer : option Z;
  initial_fetch : option Z;
  issued : list (Z * QuerySpec);
  inflight : list nat;
  logged : nat
}.

Definition initial_world : World :=
  {| ui := initial_state; map := None; timer := None; initial_fetch := None;
     issued := []; inflight := []; logged := 0 |}.

(** Lines 60-84, [fetchFlowDataInner] up to its first await. *)
Definition fetchFlowDataInner_call (now : Z) (w : World) : World :=
  match map w with
  | None => w
  | Some v =>
      {| ui := setLoading true (ui w);
         map := map w;
         timer := timer w;
         initial_fetch := initial_fetch w;
         issued := issued w ++ [(now, query_params v)];
         inflight := inflight w ++ [length (issued w)];
         logged := logged w |}
  end.

(** The answer to request [g] arrives. *)
Definition settle (now : Z) (g : nat) (o : Outcome) (w : World) : World :=
  if bool_decide (g ∈ inflight w) then
    let '(st, errors) := fetchFlowDataInner_settle now o (ui w) in
    {| ui := st;
       map := map w;
       timer := timer w;
       initial_fetch := initial_fetch w;
       issued := issued w;
       inflight := filter (fun g' => g' <> g) (inflight w);
       logged := (logged w + errors)%nat |}
  else w.

(** Lines 9-15 and 103-106: [fetchFlowData], the debounced function.
    [clearTimeout(timer)] drops the pending timeout, [setTimeout] arms a new
    one 300 ms from now. *)
Definition DEBOUNCE_MS : Z := 300.

Definition fetchFlowData (now : Z) (w : World) : World :=
  {| ui := ui w; map := map w;
     timer := Some (now + DEBOUNCE_MS);
     initial_fetch := initial_fetch w;
     issued := issued w; inflight := inflight w; logged := logged w |}.

(** The timeout armed by [debounce] fires: it calls [fetchFlowDataInner]. *)
Definition fire_debounce (now : Z) (w : World) : World :=
  fetchFlowDataInner_call now
    {| ui := ui w; map := map w; timer := None;
       initial_fetch := initial_fetch w;
       issued := issued w; inflight := inflight w; logged := logged w |}.

(** Lines 115-118: on mount a timeout of 500 ms is armed; when it fires it
    calls [fetchFlowData]. *)
Definition INITIAL_DELAY : Z := 500.

Definition mount (now : Z) (w : World) : World :=
  {| ui := ui w; map := map w; timer := timer w;
     initial_fetch := Some (now + INITIAL_DELAY);
     issued := issued w; inflight := inflight w; logged := logged w |}.

Definition fire_initial (now : Z) (w : World) : World :=
  fetchFlowData now
    {| ui := ui w; map := map w; timer := timer w;
       initial_fetch := None;
       issued := issued w; inflight := inflight w; logged := logged w |}.

(** The map shows the view [v]. *)
Definition show (v : Viewport) (w : World) : World :=
  {| ui := ui w; map := Some v; timer := timer w;
     initial_fetch := initial_fetch w;
     issued := issued w; inflight := inflight w; logged := logged w |}.

(** Lines 109-112, [handleMoveEnd]: the map has settled on [v]. *)
Definition handleMoveEnd (now : Z) (v : Viewport) (w : World) : World :=
  fetchFlowData now (show v w).

(** What the environment does to the component. *)
Inductive Event : Type :=
  | Mount                              (* the component mounts *)
  | View (v : Viewport)                (* the map shows [v], no settle event:
                                          first render, or mid-gesture *)
  | MoveEnd (v : Viewport)             (* the map settles on [v] *)
  | Settled (g : nat) (o : Outcome).   (* request [g] is answered *)

(** The timeout that fires next, if one is due by time [t]. Of two due
    timeouts the one with the earlier deadline fires first. *)
Definition fire_next (t : Z) (w : World) : option World :=
  match initial_fetch w, timer w with
  | Some i, Some d =>
      if (d <? i)%Z then (if (d <=? t)%Z then Some (fire_debounce d w) else None)
      else (if (i <=? t)%Z then Some (fire_initial i w) else None)
  | Some i, None => if (i <=? t)%Z then Some (fire_initial i w) else None
  | None, Some d => if (d <=? t)%Z then Some (fire_debounce d w) else None
  | None, None => None
  end.

(** All timeouts due by [t] fire: at most the debounce timeout, the
    initial timeout, and the debounce timeout the latter arms. *)
Fixpoint fire_due (fuel : nat) (t : Z) (w : World) : World :=
  match fuel with
  | O => w
  | S fuel' =>
      match fire_next t w with
      | Some w' => fire_due fuel' t w'
      | None => w
      end
  end.

Definition advance_to (t : Z) (w : World) : World := fire_due 3 t w.

Definition handle (t : Z) (e : Event) (w : World) : World :=
  match e with
  | Mount => mount t w
  | View v => show v w
  | MoveEnd v => handleMoveEnd t v w
  | Settled g o => settle t g o w
  end.

(** A timeline: events with their times, oldest first. Before an event is
    handled the timeouts due by then have fired. *)
Fixpoint run (evs : list (Z * Event)) (w : World) : World :=
  match evs with
  | [] => w
  | (t, e) :: rest => run rest (handle t e (advance_to t w))
  end.

End Direct.

(** ** [src/unnamed/part_001] *)
Module Overlay.

(** Line 16. *)
Definition REFRESH_INTERVAL : Z := 15 * 60 * 1000.

(** Line 63. *)
Definition CHUNK_SIZE : nat := 5000.

(** [getFlowCategory], lines 26-33. *)
Definition getFlowCategory (cms : number) : string :=
  if num_lt cms (lit 1) then "very_low"
  else if num_lt cms (lit 10) then "low"
  else if num_lt cms (lit 50) then "moderate"
  else if num_lt cms (lit 200) then "high"
  else if num_lt cms (lit 1000) then "very_high"
  else "extreme".

(** The live document (lines 18-23). [sites] is kept as
    [Object.entries] lists it, each key already read as the feature id
    [Number(comid)]; it is [None] for a JSON document without that member. *)
Record LiveData : Type := {
  generated_at : string;
  reference_time : string;
  site_count : Z;
  sites : option (list (Z * number))
}.

(** The state object written by [setFeatureState] (lines 77-80). *)
Record FeatureState : Type := { flow : number; category : string }.

(** The vector source "rivers": the ids of the features in the loaded
    tiles, and the feature state set so far. *)
Record Surface : Type := {
  features : gset Z;
  fstate : gmap Z FeatureState
}.

(** The map object: [getSource("rivers")] and [isSourceLoaded("rivers")]. *)
Record MapHandle : Type := {
  rivers : option Surface;
  rivers_loaded : bool
}.

(** [map.setFeatureState({source: "rivers", sourceLayer, id}, d)], the
    engine's call of lines 71-81. The result is an option because the call
    stands in a [try] (lines 70-86), but the engine does not throw here: it
    records [d] for [id] in the source's feature state whether or not a
    loaded tile has that feature (the state waits for the feature), and
    when the source is missing it reports that through an error event and
    returns, leaving the map as it is. So the [catch] of lines 84-86 is
    never entered. *)
Definition setFeatureState (m : MapHandle) (id : Z) (d : FeatureState)
  : option MapHandle :=
  match rivers m with
  | None => Some m
  | Some s =>
      Some {| rivers := Some {| features := features s;
                                fstate := <[id := d]> (fstate s) |};
              rivers_loaded := rivers_loaded m |}
  end.

(** The variables one call of [applyFeatureStates] closes over (lines
    59-62). [touched] and [slices] are a record for the proofs only: the
    indices the loop has visited, and the number of entries each call of
    [processChunk] went through. *)
Record Cycle : Type := {
  entries : list (Z * number);
  index : nat;
  successCount : Z;
  cyc_maxFlow : number;
  touched : list nat;
  slices : list nat
}.

Definition new_cycle (es : list (Z * number)) : Cycle :=
  {| entries := es; index := 0; successCount := 0; cyc_maxFlow := lit 0;
     touched := []; slices := [] |}.

(** Lines 69-86: one round of the [for] loop, at index [i]. *)
Definition loop_body (acc : MapHandle * Cycle) (i : nat) : MapHandle * Cycle :=
  let '(m, c) := acc in
  match entries c !! i with
  | None => acc
  | Some (comid, streamflow) =>
      let visited := (touched c ++ [i])%list in
      match setFeatureState m comid
              {| flow := streamflow; category := getFlowCategory streamflow |} with
      | Some m' =>
          (m', {| entries := entries c; index := index c;
                  successCount := successCount c + 1;
                  cyc_maxFlow := if num_gt streamflow (cyc_maxFlow c)
                                 then streamflow else cyc_maxFlow c;
                  touched := visited; slices := slices c |})
      | None =>
          (m, {| entries := entries c; index := index c;
                 successCount := successCount c;
                 cyc_maxFlow := cyc_maxFlow c;
                 touched := visited; slices := slices c |})
      end
  end.

(** Lines 65-89: one call of [processChunk] up to [index = end]. The
    boolean tells whether entries are left (line 91). *)
Definition chunk (m : MapHandle) (c : Cycle) : MapHandle * Cycle * bool :=
  let stop := Nat.min (index c + CHUNK_SIZE) (length (entries c)) in
  let '(m', c') := fold_left loop_body (seq (index c) (stop - index c)) (m, c) in
  (m',
   {| entries := entries c'; index := stop;
      successCount := successCount c'; cyc_maxFlow := cyc_maxFlow c';
      touched := touched c';
      slices := (slices c' ++ [(stop - index c)%nat])%list |},
   (stop <? length (entries c))%nat).

(** The component's React state (lines 37-41). *)
Record State : Type := {
  loading : bool;
  lastUpdate : option Z;
  referenceTime : option string;
  stats : Stats;
  error : option string
}.

Definition initial_state : State :=
  {| loading := false; lastUpdate := None; referenceTime := None;
     stats := {| count := 0; maxFlow := lit 0 |}; error := None |}.

Definition setLoading (b : bool) (st : State) : State :=
  {| loading := b; lastUpdate := lastUpdate st;
     referenceTime := referenceTime st; stats := stats st; error := error st |}.

Definition setLastUpdate (t : Z) (st : State) : State :=
  {| loading := loading st; lastUpdate := Some t;
     referenceTime := referenceTime st; stats := stats st; error := error st |}.

Definition setReferenceTime (r : string) (st : State) : State :=
  {| loading := loading st; lastUpdate := lastUpdate st;
     referenceTime := Some r; stats := stats st; error := error st |}.

Definition setStats (s : Stats) (st : State) : State :=
  {| loading := loading st; lastUpdate := lastUpdate st;
     referenceTime := referenceTime st; stats := s; error := error st |}.

Definition setError (e : option string) (st : State) : State :=
  {| loading := loading st; lastUpdate := lastUpdate st;
     referenceTime := referenceTime st; stats := stats st; error := e |}.

(** Line 248: loading text, else the error if there is one, else the
    count. An empty error string is falsy. *)
Definition header (st : State) : Header :=
  if loading st then LoadingText
  else match error st with
       | Some (String _ _ as e) => ErrorText e
       | _ => StreamCount (count (stats st))
       end.

(** How the request of one cycle ends: [fetch] rejects with an error whose
    message is [message], or a response arrives with status [code] and a
    body that [response.json()] either rejects (with that message) or reads
    as a document. *)
Inductive Outcome : Type :=
  | FetchRejected (message : string)
  | Answered (code : Z) (payload : string + LiveData).

(** [response.ok]. *)
Definition ok (code : Z) : bool := ((200 <=? code) && (code <=? 299))%Z.

(** The message of the TypeError [Object.entries(undefined)] throws. *)
Definition entries_error : string :=
  "Cannot convert undefined or null to object".

(** The component in its environment: the map object and whether
    [mapRef.current] is set, the callbacks handed to
    [requestAnimationFrame], the next tick of [setInterval], the number of
    "sourcedata" listeners, the times of the [fetch] calls so far and the
    requests not yet answered. A request is named by its position in
    [fetches]. *)
Record World : Type := {
  ui : State;
  engine : MapHandle;
  mapRef : bool;
  frames : list Cycle;
  next_tick : option Z;
  listeners : nat;
  fetches : list Z;
  inflight : list nat
}.

Definition initial_world : World :=
  {| ui := initial_state;
     engine := {| rivers := None; rivers_loaded := false |};
     mapRef := false; frames := []; next_tick := None; listeners := 0;
     fetches := []; inflight := [] |}.

Definition with_ui (st : State) (w : World) : World :=
  {| ui := st; engine := engine w; mapRef := mapRef w; frames := frames w;
     next_tick := next_tick w; listeners := listeners w;
     fetches := fetches w; inflight := inflight w |}.

Definition with_engine (m : MapHandle) (w : World) : World :=
  {| ui := ui w; engine := m; mapRef := mapRef w; frames := frames w;
     next_tick := next_tick w; listeners := listeners w;
     fetches := fetches w; inflight := inflight w |}.

Definition with_frames (fs : list Cycle) (w : World) : World :=
  {| ui := ui w; engine := engine w; mapRef := mapRef w; frames := fs;
     next_tick := next_tick w; listeners := listeners w;
     fetches := fetches w; inflight := inflight w |}.

(** Lines 65-97, [processChunk]: one slice on the shared map object, then
    either the next call is handed to [requestAnimationFrame] or the stats
    are published. *)
Definition processChunk (c : Cycle) (w : World) : World :=
  let '(m, c', more) := chunk (engine w) c in
  let w := with_engine m w in
  if more then with_frames (frames w ++ [c']) w
  else with_ui (setStats {| count := successCount c';
                            maxFlow := cyc_maxFlow c' |} (ui w)) w.

(** Lines 50-100, [applyFeatureStates]; [inr msg] when it throws. *)
Definition applyFeatureStates (data : LiveData) (w : World) : World + string :=
  if negb (mapRef w) then inl w
  else match rivers (engine w) with
       | None => inl w                      (* "Source not ready" *)
       | Some _ =>
           match sites data with
           | None => inr entries_error
           | Some es => inl (processChunk (new_cycle es) w)
           end
       end.

(** Lines 104-108, [fetchLiveData] up to its first await. *)
Definition fetchLiveData_call (now : Z) (w : World) : World :=
  {| ui := setError None (setLoading true (ui w));
     engine := engine w; mapRef := mapRef w; frames := frames w;
     next_tick := next_tick w; listeners := listeners w;
     fetches := fetches w ++ [now];
     inflight := inflight w ++ [length (fetches w)] |}.

(** Lines 109-122, [fetchLiveData] after the awaits. *)
Definition fetchLiveData_settle (now : Z) (o : Outcome) (w : World) : World :=
  let w :=
    match o with
    | FetchRejected msg => with_ui (setError (Some msg) (ui w)) w
    | Answered code payload =>
        if negb (ok code)
        then with_ui (setError (Some ("HTTP " +:+ pretty code)) (ui w)) w
        else match payload with
             | inl msg => with_ui (setError (Some msg) (ui w)) w
             | inr data =>
                 let w := with_ui (setReferenceTime (reference_time data)
                                     (setLastUpdate now (ui w))) w in
                 match applyFeatureStates data w with
                 | inl w' => w'
                 | inr msg => with_ui (setError (Some msg) (ui w)) w
                 end
             end
    end in
  with_ui (setLoading false (ui w)) w.

(** The answer to request [g] arrives. *)
Definition settle (now : Z) (g : nat) (o : Outcome) (w : World) : World :=
  if bool_decide (g ∈ inflight w) then
    let w := fetchLiveData_settle now o w in
    {| ui := ui w; engine := engine w; mapRef := mapRef w; frames := frames w;
       next_tick := next_tick w; listeners := listeners w;
       fetches := fetches w;
       inflight := filter (fun g' => g' <> g) (inflight w) |}
  else w.

(** Lines 126-129: on mount the interval is armed; [mapRef.current] is set
    from then on. *)
Definition mount (now : Z) (w : World) : World :=
  {| ui := ui w; engine := engine w; mapRef := true; frames := frames w;
     next_tick := Some (now + REFRESH_INTERVAL); listeners := listeners w;
     fetches := fetches w; inflight := inflight w |}.

(** The interval ticks at time [k]. *)
Definition tick (k : Z) (w : World) : World :=
  let w := fetchLiveData_call k w in
  {| ui := ui w; engine := engine w; mapRef := mapRef w; frames := frames w;
     next_tick := Some (k + REFRESH_INTERVAL); listeners := listeners w;
     fetches := fetches w; inflight := inflight w |}.

(** Lines 132-150, [handleMapLoad]. *)
Definition handleMapLoad (now : Z) (w : World) : World :=
  if negb (mapRef w) then w
  else
    let w := {| ui := ui w; engine := engine w; mapRef := mapRef w;
                frames := frames w; next_tick := next_tick w;
                listeners := S (listeners w);
                fetches := fetches w; inflight := inflight w |} in
    match rivers (engine w) with
    | Some _ => if rivers_loaded (engine w) then fetchLiveData_call now w else w
    | None => w
    end.

(** Lines 142-146: the map emits "sourcedata"; every listener registered
    by [handleMapLoad] runs. *)
Definition on_sourcedata (now : Z) (sourceId : string) (isSourceLoaded : bool)
    (w : World) : World :=
  if String.eqb sourceId "rivers" && isSourceLoaded
  then Nat.iter (listeners w) (fetchLiveData_call now) w
  else w.

(** An animation frame: the callbacks handed over so far run in order;
    those they hand over wait for the next frame. *)
Definition animation_frame (w : World) : World :=
  fold_left (fun w c => processChunk c w) (frames w) (with_frames [] w).

(** What the environment does to the component. *)
Inductive Event : Type :=
  | Mount
  | Engine (m : MapHandle)       (* the map object changes: source added,
                                    tiles loaded; no handler runs *)
  | MapLoad                      (* the map's [onLoad] *)
  | SourceData (sourceId : string) (isSourceLoaded : bool)
  | Frame
  | Settled (g : nat) (o : Outcome).

(** The ticks of the interval due by [t] fire, oldest first. *)
Fixpoint tick_due (fuel : nat) (t : Z) (w : World) : World :=
  match fuel with
  | O => w
  | S fuel' =>
      match next_tick w with
      | Some k => if (k <=? t)%Z then tick_due fuel' t (tick k w) else w
      | None => w
      end
  end.

Definition advance_to (t : Z) (w : World) : World :=
  match next_tick w with
  | Some k => tick_due (Z.to_nat ((t - k) / REFRESH_INTERVAL + 1)) t w
  | None => w
  end.

Definition handle (t : Z) (e : Event) (w : World) : World :=
  match e with
  | Mount => mount t w
  | Engine m => with_engine m w
  | MapLoad => handleMapLoad t w
  | SourceData sourceId isSourceLoaded => on_sourcedata t sourceId isSourceLoaded w
  | Frame => animation_frame w
  | Settled g o => settle t g o w
  end.

(** A timeline: events with their times, oldest first. Before an event is
    handled the interval ticks due by then have fired. *)
Fixpoint run (evs : list (Z * Event)) (w : World) : World :=
  match evs with
  | [] => w
  | (t, e) :: rest => run rest (handle t e (advance_to t w))
  end.

(** One apply cycle on its own, turn after turn: the first call of
    [processChunk] and as many animation frames as it asks for, at most
    [fuel]. [None] when the cycle is not through by then. *)
Fixpoint apply_turns (fuel : nat) (m : MapHandle) (c : Cycle)
  : option (MapHandle * Cycle) :=
  match fuel with
  | O => None
  | S fuel' =>
      let '(m', c', more) := chunk m c in
      if more then apply_turns fuel' m' c' else Some (m', c')
  end.

End Overlay.

(** ** Data for the worked timelines *)

Definition feature (id : Z) (cms : number) : FlowFeature :=
  {| comid := id; streamflow_cms := cms; velocity_ms := lit 1; name := None;
     stream_order := 1; flow_category := Route.getFlowCategory cms;
     geometry := "{}" |}.

(** The rectangle of the spec's end-to-end scenario, at zoom 8, and a
    second view further east at zoom 11. *)
Definition view_a : Direct.Viewport :=
  {| Direct.west := lit (-73); Direct.south := lit 44;
     Direct.east := lit (-72); Direct.north := lit 45; Direct.zoom := lit 8 |}.

Definition view_b : Direct.Viewport :=
  {| Direct.west := lit (-71); Direct.south := lit 44;
     Direct.east := lit (-70); Direct.north := lit 45; Direct.zoom := lit 11 |}.

Definition collection_a : Body :=
  FeatureCollection [feature 101 (lit 150); feature 102 (Fin (1 # 2));
                     feature 103 (lit 20)].

Definition collection_b : Body :=
  FeatureCollection [feature 201 (lit 7)].

(** The endpoint's answer when its query throws. *)
Definition answer_500 : Response :=
  Route.GET Route.read_integer Route.read_integer (fun _ => None) [].

(** A timeline of two cycles: the component mounts on a map
    showing [view_a], the initial fetch is answered with three features,
    the map settles on [view_b], and that second request is answered by
    [second]. *)
Definition two_cycles (second : Direct.Outcome) : list (Z * Direct.Event) :=
  [ (0, Direct.Mount);
    (0, Direct.View view_a);
    (1000, Direct.Settled 0 (Direct.Replied {| status := 200; body := collection_a |}));
    (5000, Direct.MoveEnd view_b);
    (6000, Direct.Settled 1 second) ].

(** ** Bursts of settle events *)

(** What the map goes through after a settle event while the debounce
    timeout is pending: further settle events, and changes of view that
    have not settled (a gesture under way). [gesture t d evs] holds when
    the times of [evs] do not go back from [t] and each event comes before
    the deadline then pending, [d] at first; a settle event moves the
    deadline to 300 ms after itself. *)
Fixpoint gesture (t d : Z) (evs : list (Z * Direct.Event)) : bool :=
  match evs with
  | [] => true
  | (t', Direct.View _) :: rest =>
      (t <=? t')%Z && (t' <? d)%Z && gesture t' d rest
  | (t', Direct.MoveEnd _) :: rest =>
      (t <=? t')%Z && (t' <? d)%Z && gesture t' (t' + Direct.DEBOUNCE_MS) rest
  | _ :: _ => false
  end.

(** The deadline pending after [evs], and the view the map shows then. *)
Fixpoint deadline (d : Z) (evs : list (Z * Direct.Event)) : Z :=
  match evs with
  | [] => d
  | (t', Direct.MoveEnd _) :: rest => deadline (t' + Direct.DEBOUNCE_MS) rest
  | _ :: rest => deadline d rest
  end.

Fixpoint shown (v : Direct.Viewport) (evs : list (Z * Direct.Event))
  : Direct.Viewport :=
  match evs with
  | [] => v
  | (_, Direct.View v') :: rest => shown v' rest
  | (_, Direct.MoveEnd v') :: rest => shown v' rest
  | _ :: rest => shown v rest
  end.

(** The settle events as the component receives them. *)
Definition settle_events (evs : list (Z * Direct.Viewport))
  : list (Z * Direct.Event) :=
  map (fun e => (e.1, Direct.MoveEnd e.2)) evs.

(** ** One apply cycle described on the list of entries *)

(** Equality and membership of numbers as values ([1/2] and [2/4] are the
    same number). *)
Definition num_eq (a b : number) : bool := num_le a b && num_le b a.

(** Written after the spec: [x] is the maximum of the flows [fs], one of
    them and not below any of them. *)
Definition is_maximum_of (x : number) (fs : list number) : Prop :=
  (exists y, y ∈ fs /\ num_eq x y = true) /\
  (forall y, y ∈ fs -> num_le y x = true).

(** The feature [id] is in the loaded tiles of the source. *)
Definition present (m : Overlay.MapHandle) (id : Z) : bool :=
  match Overlay.rivers m with
  | Some s => bool_decide (id ∈ Overlay.features s)
  | None => false
  end.

(** One entry written to the map (or skipped, were the call to throw). *)
Definition write_entry (m : Overlay.MapHandle) (e : Z * number) : Overlay.MapHandle :=
  match Overlay.setFeatureState m e.1
          {| Overlay.flow := e.2; Overlay.category := Overlay.getFlowCategory e.2 |} with
  | Some m' => m'
  | None => m
  end.

(** All entries written in one pass, in order. *)
Definition write_all (m : Overlay.MapHandle) (es : list (Z * number))
  : Overlay.MapHandle :=
  fold_left write_entry es m.

(** The greatest flow seen so far, as line 83 keeps it, from [start]. *)
Definition max_from (start : number) (fs : list number) : number :=
  fold_left (fun acc f => if num_gt f acc then f else acc) fs start.

(** The sizes of the slices of a batch of [M] entries: full slices of
    [CHUNK_SIZE] entries, then the rest (the only slice, empty, when
    [M = 0]). *)
Definition full_slices (M : nat) : nat := ((M - 1) / Overlay.CHUNK_SIZE)%nat.

Definition slice_sizes (M : nat) : list nat :=
  (repeat Overlay.CHUNK_SIZE (full_slices M)
   ++ [(M - Overlay.CHUNK_SIZE * full_slices M)%nat])%list.

(** [n] animation frames in a row. *)
Fixpoint run_frames (n : nat) (w : Overlay.World) : Overlay.World :=
  match n with
  | O => w
  | S n' => run_frames n' (Overlay.animation_frame w)
  end.

(** The three ways a live-data request fails. *)
Definition Overlay_failed (o : Overlay.Outcome) (msg : string) : Prop :=
  match o with
  | Overlay.FetchRejected m => msg = m
  | Overlay.Answered code payload =>
      if Overlay.ok code
      then match payload with
           | inl m => msg = m
           | inr _ => False
           end
      else msg = "HTTP " +:+ pretty code
  end.

(** What the variables of a cycle hold once the loop has gone through the
    first [i] entries of [es]: [m0] is the map as it was when the cycle
    started, [m] the map now, which has the same features. Every entry
    gone through has been counted. *)
Definition cycle_at (m0 : Overlay.MapHandle) (es : list (Z * number)) (i : nat)
    (m : Overlay.MapHandle) (c : Overlay.Cycle) : Prop :=
  Overlay.entries c = es /\
  Overlay.touched c = seq 0 i /\
  Overlay.successCount c = Z.of_nat (length (take i es)) /\
  Overlay.cyc_maxFlow c = max_from (lit 0) (map snd (take i es)) /\
  (forall id, present m id = present m0 id).

(** The feature state the map holds for [id]. *)
Definition feature_state (m : Overlay.MapHandle) (id : Z) : option Overlay.FeatureState :=
  match Overlay.rivers m with
  | Some s => Overlay.fstate s !! id
  | None => None
  end.

(** The state a cycle writes for an entry. *)
Definition state_of (e : Z * number) : Overlay.FeatureState :=
  {| Overlay.flow := e.2; Overlay.category := Overlay.getFlowCategory e.2 |}.

(** The entries of [es] for the feature [id]. *)
Definition entries_for (id : Z) (es : list (Z * number)) : list (Z * number) :=
  List.filter (fun e => (e.1 =? id)%Z) es.

(** ** Data for the worked apply cycles *)

(** A map whose source "rivers" is loaded with the features [ids] and no
    feature state yet. *)
Definition tiles (ids : list Z) : Overlay.MapHandle :=
  {| Overlay.rivers := Some {| Overlay.features := list_to_set ids;
                               Overlay.fstate := ∅ |};
     Overlay.rivers_loaded := true |}.

(** The mounted component on that map. *)
Definition ready_world (ids : list Z) : Overlay.World :=
  Overlay.with_engine (tiles ids) (Overlay.mount 0 Overlay.initial_world).

(** A live document with the given entries. *)
Definition live (es : list (Z * number)) : Overlay.LiveData :=
  {| Overlay.generated_at := "2026-01-01T00:05:00Z";
     Overlay.reference_time := "2026-01-01T00:00:00Z";
     Overlay.site_count := Z.of_nat (length es);
     Overlay.sites := Some es |}.

(** A batch of [n] entries for the features [id], [id+1], ..., each with
    flow [f]. *)
Fixpoint batch (id : Z) (n : nat) (f : number) : list (Z * number) :=
  match n with
  | O => []
  | S n' => (id, f) :: batch (id + 1) n' f
  end.

(** Two batches for overlapping cycles: 5001 entries of flow 3, for the
    features 0..5000, and one entry of flow 900 for the feature 5000. *)
Definition batch_a : list (Z * number) := batch 0 (Z.to_nat 5001) (lit 3).

Definition batch_b : list (Z * number) := [(5000, lit 900)].

(** ** The ticks of the refresh interval *)

(** The number of ticks due by [t] when the next one is at [x], and the
    times of [n] ticks from [x] on. *)
Definition ticks_due (x t : Z) : nat :=
  Z.to_nat ((t - x) / Overlay.REFRESH_INTERVAL + 1).

Definition tick_times (x : Z) (n : nat) : list Z :=
  map (fun k => x + Z.of_nat k * Overlay.REFRESH_INTERVAL)%Z (seq 0 n).

(** The timeline of the spec's scheduler scenario: the component mounts at
    [Tm], the map's [onLoad] comes at [Tl] with the source not there yet,
    and the source reports itself loaded at [T0]. *)
Definition becomes_ready (Tm Tl T0 : Z) : list (Z * Overlay.Event) :=
  [ (Tm, Overlay.Mount);
    (Tl, Overlay.MapLoad);
    (T0, Overlay.SourceData "rivers" true) ].

(** ** Layer paint

    The two layer styles are data handed to the map engine, which evaluates
    them for each feature it draws. The expression forms the styles use are
    kept as data, with the engine's documented reading of each: ["get", p]
    is the feature's property, ["feature-state", k] the feature state
    (null when never set), ["coalesce", e, d] the first of the two that is
    not null, ["match", e, l1, o1, ..., fallback] the output of the first
    label equal to the input, ["case", c1, o1, ..., fallback] the output of
    the first condition that holds, and ["interpolate", ["linear"], e,
    x1, y1, ...] the piecewise linear function through the stops, constant
    outside them. *)
Module Paint.

Inductive Value : Type :=
  | VNull
  | VString (s : string)
  | VNumber (n : number).

(** What the engine knows of the feature it paints. *)
Record Feature : Type := {
  property : string -> Value;
  featureState : string -> Value
}.

Inductive Input : Type :=
  | Get (name : string)
  | FeatureState (key : string)
  | Coalesce (first : Input) (otherwise : Value).

Fixpoint read (i : Input) (f : Feature) : Value :=
  match i with
  | Get name => property f name
  | FeatureState key => featureState f key
  | Coalesce first otherwise =>
      match read first f with
      | VNull => otherwise
      | v => v
      end
  end.

(** A condition [["==", input, label]]. *)
Definition equals (i : Input) (label : string) (f : Feature) : bool :=
  match read i f with
  | VString s => String.eqb s label
  | _ => false
  end.

Inductive Color : Type :=
  | Match (input : Input) (arms : list (string * string)) (fallback : string)
  | Case (arms : list (Input * string * string)) (fallback : string).

Fixpoint first_label (s : string) (arms : list (string * string)) : option string :=
  match arms with
  | [] => None
  | (label, out) :: rest => if String.eqb s label then Some out else first_label s rest
  end.

Fixpoint first_case (f : Feature) (arms : list (Input * string * string))
  : option string :=
  match arms with
  | [] => None
  | (i, label, out) :: rest =>
      if equals i label f then Some out else first_case f rest
  end.

Definition color (e : Color) (f : Feature) : string :=
  match e with
  | Match input arms fallback =>
      match read input f with
      | VString s => default fallback (first_label s arms)
      | _ => fallback
      end
  | Case arms fallback => default fallback (first_case f arms)
  end.

(** [["interpolate", ["linear"], input, x1, y1, x2, y2, ...]]. *)
Record Interpolate : Type := {
  input : Input;
  stops : list (Z * Z)
}.

(** The value at [x] past the stop [(x0, y0)]: on the segment to the next
    stop if [x] is not beyond it, else further on; the last output after
    the last stop. *)
Fixpoint along (x : Q) (x0 y0 : Z) (rest : list (Z * Z)) : Q :=
  match rest with
  | [] => inject_Z y0
  | (x1, y1) :: rest' =>
      if Qle_bool x (inject_Z x1)
      then inject_Z y0
           + (x - inject_Z x0) * inject_Z (y1 - y0) / inject_Z (x1 - x0)
      else along x x1 y1 rest'
  end.

Definition piecewise (x : Q) (stops : list (Z * Z)) : option Q :=
  match stops with
  | [] => None
  | (x0, y0) :: rest =>
      Some (if Qle_bool x (inject_Z x0) then inject_Z y0 else along x x0 y0 rest)
  end.

(** The width for a feature; only a finite input is evaluated. *)
Definition width (e : Interpolate) (f : Feature) : option Q :=
  match read (input e) f with
  | VNumber (Fin x) => piecewise x (stops e)
  | _ => None
  end.

End Paint.

(** ** The layer of [src/components/StreamflowMap.tsx] *)
Module DirectLayer.

(** Lines 18-25: the object [FLOW_COLORS], read by key. *)
Definition FLOW_COLORS : list (string * string) :=
  [ ("very_low", "#22c55e");
    ("low", "#84cc16");
    ("moderate", "#eab308");
    ("high", "#f97316");
    ("very_high", "#ef4444");
    ("extreme", "#dc2626") ].

Definition color_at (key : string) : string :=
  default EmptyString (Paint.first_label key FLOW_COLORS).

(** Lines 125-135: ["line-color"] of [flowLayerStyle]. *)
Definition line_color : Paint.Color :=
  Paint.Match (Paint.Get "flow_category")
    [ ("very_low", color_at "very_low");
      ("low", color_at "low");
      ("moderate", color_at "moderate");
      ("high", color_at "high");
      ("very_high", color_at "very_high");
      ("extreme", color_at "extreme") ]
    "#3b82f6".

(** Lines 136-145: ["line-width"] of [flowLayerStyle]. *)
Definition line_width : Paint.Interpolate :=
  {| Paint.input := Paint.Get "streamflow_cms";
     Paint.stops := [ (0, 1); (10, 2); (100, 3); (1000, 5); (10000, 8) ] |}.

(** A feature of the GeoJSON source as the engine sees it: the members of
    [properties]. *)
Definition drawn (f : FlowFeature) : Paint.Feature :=
  {| Paint.property := fun key =>
       if String.eqb key "comid" then Paint.VNumber (lit (comid f))
       else if String.eqb key "streamflow_cms" then Paint.VNumber (streamflow_cms f)
       else if String.eqb key "velocity_ms" then Paint.VNumber (velocity_ms f)
       else if String.eqb key "name"
       then match name f with
            | Some s => Paint.VString s
            | None => Paint.VNull
            end
       else if String.eqb key "stream_order" then Paint.VNumber (lit (stream_order f))
       else if String.eqb key "flow_category" then Paint.VString (flow_category f)
       else Paint.VNull;
     Paint.featureState := fun _ => Paint.VNull |}.

End DirectLayer.

(** ** The layer of [src/unnamed/part_001] *)
Module OverlayLayer.

(** Lines 160-169: ["line-color"] of [riverLayerStyle]. *)
Definition line_color : Paint.Color :=
  Paint.Case
    [ (Paint.FeatureState "category", "extreme", "#dc2626");
      (Paint.FeatureState "category", "very_high", "#ef4444");
      (Paint.FeatureState "category", "high", "#f97316");
      (Paint.FeatureState "category", "moderate", "#eab308");
      (Paint.FeatureState "category", "low", "#84cc16");
      (Paint.FeatureState "category", "very_low", "#22c55e") ]
    "#64748b".

(** Lines 171-180: ["line-width"] of [riverLayerStyle]. *)
Definition line_width : Paint.Interpolate :=
  {| Paint.input := Paint.Coalesce (Paint.FeatureState "flow") (Paint.VNumber (lit 0));
     Paint.stops := [ (0, 1); (10, 2); (100, 3); (1000, 5); (10000, 8) ] |}.

(** A feature of the tileset as the engine sees it: its feature state, if
    a cycle has written one. The tile's own properties are not read by the
    style. *)
Definition drawn (st : option Overlay.FeatureState) : Paint.Feature :=
  {| Paint.property := fun _ => Paint.VNull;
     Paint.featureState := fun key =>
       match st with
       | None => Paint.VNull
       | Some s =>
           if String.eqb key "flow" then Paint.VNumber (Overlay.flow s)
           else if String.eqb key "category" then Paint.VString (Overlay.category s)
           else Paint.VNull
       end |}.

End OverlayLayer.

(** ** The endpoint's parameters

    Lines 8-12 and 33 as a table: the position of each parameter in the
    argument array, its name and its default. The first four are read with
    [parseFloat], the last with [parseInt]. *)
Definition parameters : list (nat * string * string) :=
  [ (0%nat, "west", "-180"); (1%nat, "south", "-90"); (2%nat, "east", "180");
    (3%nat, "north", "90"); (4%nat, "limit", "5000") ].

(** ** Counting requests

    The events that arm a timeout, and the timeouts of a world that have
    not fired yet. *)
Definition arms_timeout (e : Direct.Event) : bool :=
  match e with
  | Direct.Mount | Direct.MoveEnd _ => true
  | Direct.View _ | Direct.Settled _ _ => false
  end.

Definition pending (w : Direct.World) : nat :=
  (match Direct.timer w with Some _ => 1 | None => 0 end
   + match Direct.initial_fetch w with Some _ => 1 | None => 0 end)%nat.

(** ** Settle events at any pace

    The settle events that are followed by a full debounce delay without
    another one (the last event always is), and timelines whose times do
    not go back. *)
Fixpoint quiet_after (evs : list (Z * Direct.Viewport)) : list (Z * Direct.Viewport) :=
  match evs with
  | [] => []
  | (t, v) :: rest =>
      match rest with
      | [] => [(t, v)]
      | (t', _) :: _ =>
          if (t + Direct.DEBOUNCE_MS <=? t')%Z
          then (t, v) :: quiet_after rest
          else quiet_after rest
      end
  end.

Fixpoint ordered_from (t : Z) (later : list (Z * Direct.Viewport)) : bool :=
  match later with
  | [] => true
  | (t', _) :: rest => (t <=? t')%Z && ordered_from t' rest
  end.

(** The request the debounced call made for a settle event sends. *)
Definition request_for (e : Z * Direct.Viewport) : Z * Direct.QuerySpec :=
  ((e.1 + Direct.DEBOUNCE_MS)%Z, Direct.query_params e.2).

(** ** "sourcedata" events

    The events as the map emits them, with their source id and whether the
    source reports itself loaded, and the fetches one of them starts when
    [n] listeners are registered. *)
Definition sourcedata_events (evs : list (Z * (string * bool)))
  : list (Z * Overlay.Event) :=
  map (fun e => (e.1, Overlay.SourceData e.2.1 e.2.2)) evs.

Definition fetches_for (n : nat) (e : Z * (string * bool)) : list Z :=
  if String.eqb e.2.1 "rivers" && e.2.2 then repeat e.1 n else [].

(** ** Timelines of a mounted overlay

    The events a mounted component receives up to time [T]: anything but a
    second mount. *)
Definition after_mount (T : Z) (ev : Z * Overlay.Event) : bool :=
  match ev.2 with
  | Overlay.Mount => false
  | _ => (ev.1 <=? T)%Z
  end.

(** ** Views between a settle event and its request *)
Definition view_events (vs : list (Z * Direct.Viewport)) : list (Z * Direct.Event) :=
  map (fun e => (e.1, Direct.View e.2)) vs.

(** ** The feature state on the map

    A map is consistent when every feature state it holds carries the
    category of its own flow. *)
Definition consistent (m : Overlay.MapHandle) : Prop :=
  forall id st, feature_state m id = Some st ->
    Overlay.category st = Overlay.getFlowCategory (Overlay.flow st).

(** The map objects the environment supplies are consistent. *)
Definition supplies_consistent (ev : Z * Overlay.Event) : Prop :=
  match ev.2 with
  | Overlay.Engine m => consistent m
  | _ => True
  end.

(** ** Cycles waiting for an animation frame

    The entries a cycle has not gone through yet. *)
Definition remaining (c : Overlay.Cycle) : nat :=
  (length (Overlay.entries c) - Overlay.index c)%nat.

(** * Proofs *)

(** Closed facts about worked timelines are settled by running them. *)
Ltac by_evaluation := vm_compute; first [reflexivity | discriminate].

(** ** The order on numbers *)

Lemma num_le_lt_trans a b c :
  num_le a b = true -> num_lt b c = true -> num_lt a c = true.
Proof.
  destruct a as [| |p|], b as [| |q|], c as [| |r|]; simpl; try congruence.
  rewrite !negb_true_iff, <- !not_true_iff_false, !Qle_bool_iff.
  intros Hpq Hqr Hrp. apply Hqr. eapply Qle_trans; eauto.
Qed.

Lemma num_le_trans a b c :
  num_le a b = true -> num_le b c = true -> num_le a c = true.
Proof.
  destruct a as [| |p|], b as [| |q|], c as [| |r|]; simpl; try congruence.
  rewrite !Qle_bool_iff. apply Qle_trans.
Qed.

Lemma num_lt_false_le a b :
  num_lt a b = false -> a <> NaN -> b <> NaN -> num_le b a = true.
Proof.
  destruct a as [| |p|], b as [| |q|]; simpl; try congruence.
  now rewrite negb_false_iff.
Qed.

Lemma num_lt_irrefl_lit a k : num_le (lit k) a = true -> num_lt a (lit k) = false.
Proof.
  intros Hle. destruct (num_lt a (lit k)) eqn:Hlt; [|reflexivity].
  pose proof (num_le_lt_trans _ _ _ Hle Hlt) as H.
  unfold lit in H. simpl in H.
  rewrite negb_true_iff, <- not_true_iff_false, Qle_bool_iff in H.
  exfalso. apply H. apply Qle_refl.
Qed.

(** Below a threshold stays below: what makes the categories monotone. *)
Lemma below_mono f g k :
  num_le f g = true -> num_lt g (lit k) = true -> num_lt f (lit k) = true.
Proof. apply num_le_lt_trans. Qed.

(** ** The two categorizers *)

Lemma getFlowCategory_same f : Overlay.getFlowCategory f = Route.getFlowCategory f.
Proof. reflexivity. Qed.

Lemma getFlowCategory_names f : exists c, Route.getFlowCategory f = category_name c.
Proof.
  unfold Route.getFlowCategory.
  destruct (num_lt f (lit 1)); [now exists very_low|].
  destruct (num_lt f (lit 10)); [now exists low|].
  destruct (num_lt f (lit 50)); [now exists moderate|].
  destruct (num_lt f (lit 200)); [now exists high|].
  destruct (num_lt f (lit 1000)); [now exists very_high|].
  now exists extreme.
Qed.

Lemma lit_le_lit a b : (a <= b)%Z -> num_le (lit a) (lit b) = true.
Proof.
  intros H. unfold lit. simpl. apply Qle_bool_iff.
  now rewrite <- Zle_Qle.
Qed.

Lemma below_next f a b : (a <= b)%Z -> num_lt f (lit a) = true -> num_lt f (lit b) = true.
Proof.
  intros Hab Hlt.
  destruct f as [| |p|]; simpl in *; try congruence.
  rewrite negb_true_iff, <- not_true_iff_false, Qle_bool_iff in *.
  intros Hb. apply Hlt. eapply Qle_trans; [|exact Hb].
  now rewrite <- Zle_Qle.
Qed.

Lemma getFlowCategory_monotone f g :
  num_le f g = true ->
  exists a b,
    severity_of_name (Route.getFlowCategory f) = Some a /\
    severity_of_name (Route.getFlowCategory g) = Some b /\
    (a <= b)%nat.
Proof.
  intros Hle. unfold Route.getFlowCategory.
  pose proof (below_mono f g 1 Hle) as H1.
  pose proof (below_mono f g 10 Hle) as H10.
  pose proof (below_mono f g 50 Hle) as H50.
  pose proof (below_mono f g 200 Hle) as H200.
  pose proof (below_mono f g 1000 Hle) as H1000.
  pose proof (below_next f 1 10 ltac:(lia)) as F1.
  pose proof (below_next f 10 50 ltac:(lia)) as F10.
  pose proof (below_next f 50 200 ltac:(lia)) as F50.
  pose proof (below_next f 200 1000 ltac:(lia)) as F200.
  destruct (num_lt g (lit 1)); [rewrite H1 by reflexivity|];
  [|destruct (num_lt g (lit 10)); [rewrite H10 by reflexivity|]];
  [| |destruct (num_lt g (lit 50)); [rewrite H50 by reflexivity|]];
  [| | |destruct (num_lt g (lit 200)); [rewrite H200 by reflexivity|]];
  [| | | |destruct (num_lt g (lit 1000)); [rewrite H1000 by reflexivity|]];
  destruct (num_lt f (lit 1)); try (rewrite F1 by reflexivity);
  destruct (num_lt f (lit 10)); try (rewrite F10 by reflexivity);
  destruct (num_lt f (lit 50)); try (rewrite F50 by reflexivity);
  destruct (num_lt f (lit 200)); try (rewrite F200 by reflexivity);
  destruct (num_lt f (lit 1000));
  vm_compute; do 2 eexists; (split; [reflexivity|split; [reflexivity|lia]]).
Qed.

(** C7. [getFlowCategory] is total on numbers and the same function in the
    endpoint and in the overlay component: every number gets one of the six
    category names; a number that is zero or negative, and any number below
    1, is "very_low"; the bands [1,10), [10,50), [50,200), [200,1000) and
    [1000,oo) are "low", "moderate", "high", "very_high" and "extreme"; and
    when [f <= g] the category of [g] is at least as severe as that of [f]. *)
Theorem getFlowCategory_total_monotone (f : number) :
  Overlay.getFlowCategory f = Route.getFlowCategory f /\
  (exists c, Route.getFlowCategory f = category_name c) /\
  (num_le f (lit 0) = true -> Route.getFlowCategory f = "very_low") /\
  (num_lt f (lit 1) = true -> Route.getFlowCategory f = "very_low") /\
  (num_le (lit 1) f = true -> num_lt f (lit 10) = true ->
   Route.getFlowCategory f = "low") /\
  (num_le (lit 10) f = true -> num_lt f (lit 50) = true ->
   Route.getFlowCategory f = "moderate") /\
  (num_le (lit 50) f = true -> num_lt f (lit 200) = true ->
   Route.getFlowCategory f = "high") /\
  (num_le (lit 200) f = true -> num_lt f (lit 1000) = true ->
   Route.getFlowCategory f = "very_high") /\
  (num_le (lit 1000) f = true -> Route.getFlowCategory f = "extreme") /\
  (forall g, num_le f g = true ->
     exists a b,
       severity_of_name (Route.getFlowCategory f) = Some a /\
       severity_of_name (Route.getFlowCategory g) = Some b /\
       (a <= b)%nat).
Proof.
  split; [apply getFlowCategory_same|].
  split; [apply getFlowCategory_names|].
  unfold Route.getFlowCategory.
  repeat split.
  - intros H0.
    assert (Hlt : num_lt f (lit 1) = true)
      by (apply (num_le_lt_trans f (lit 0) (lit 1) H0); reflexivity).
    now rewrite Hlt.
  - now intros ->.
  - intros Hlo Hhi. now rewrite (num_lt_irrefl_lit _ _ Hlo), Hhi.
  - intros Hlo Hhi.
    pose proof (num_le_trans _ _ _ (lit_le_lit 1 10 ltac:(lia)) Hlo) as H1.
    now rewrite (num_lt_irrefl_lit _ _ H1), (num_lt_irrefl_lit _ _ Hlo), Hhi.
  - intros Hlo Hhi.
    pose proof (num_le_trans _ _ _ (lit_le_lit 1 50 ltac:(lia)) Hlo) as H1.
    pose proof (num_le_trans _ _ _ (lit_le_lit 10 50 ltac:(lia)) Hlo) as H10.
    now rewrite (num_lt_irrefl_lit _ _ H1), (num_lt_irrefl_lit _ _ H10),
      (num_lt_irrefl_lit _ _ Hlo), Hhi.
  - intros Hlo Hhi.
    pose proof (num_le_trans _ _ _ (lit_le_lit 1 200 ltac:(lia)) Hlo) as H1.
    pose proof (num_le_trans _ _ _ (lit_le_lit 10 200 ltac:(lia)) Hlo) as H10.
    pose proof (num_le_trans _ _ _ (lit_le_lit 50 200 ltac:(lia)) Hlo) as H50.
    now rewrite (num_lt_irrefl_lit _ _ H1), (num_lt_irrefl_lit _ _ H10),
      (num_lt_irrefl_lit _ _ H50), (num_lt_irrefl_lit _ _ Hlo), Hhi.
  - intros Hlo.
    pose proof (num_le_trans _ _ _ (lit_le_lit 1 1000 ltac:(lia)) Hlo) as H1.
    pose proof (num_le_trans _ _ _ (lit_le_lit 10 1000 ltac:(lia)) Hlo) as H10.
    pose proof (num_le_trans _ _ _ (lit_le_lit 50 1000 ltac:(lia)) Hlo) as H50.
    pose proof (num_le_trans _ _ _ (lit_le_lit 200 1000 ltac:(lia)) Hlo) as H200.
    now rewrite (num_lt_irrefl_lit _ _ H1), (num_lt_irrefl_lit _ _ H10),
      (num_lt_irrefl_lit _ _ H50), (num_lt_irrefl_lit _ _ H200),
      (num_lt_irrefl_lit _ _ Hlo).
  - apply getFlowCategory_monotone.
Qed.

(** The theorem at the flows -3, 0.5 and 150. *)
Lemma getFlowCategory_total_monotone_witness :
  Route.getFlowCategory (lit (-3)) = "very_low" /\
  Route.getFlowCategory (lit 150) = "high" /\
  exists a b,
    severity_of_name (Route.getFlowCategory (Fin (1 # 2))) = Some a /\
    severity_of_name (Route.getFlowCategory (lit 150)) = Some b /\
    (a <= b)%nat.
Proof.
  destruct (getFlowCategory_total_monotone (lit (-3))) as (_ & _ & Hneg & _).
  destruct (getFlowCategory_total_monotone (lit 150))
    as (_ & _ & _ & _ & _ & _ & Hhigh & _).
  destruct (getFlowCategory_total_monotone (Fin (1 # 2)))
    as (_ & _ & _ & _ & _ & _ & _ & _ & _ & Hmono).
  split; [apply Hneg; reflexivity|].
  split; [apply Hhigh; reflexivity|].
  apply (Hmono (lit 150)). reflexivity.
Defined.

(** ** The query derived from the visible map *)

Lemma num_ge_lt_false a k : num_lt a (lit k) = true -> num_ge a (lit k) = false.
Proof.
  intros Hlt. unfold num_ge.
  destruct (num_le (lit k) a) eqn:Hle; [|reflexivity].
  rewrite (num_lt_irrefl_lit _ _ Hle) in Hlt. discriminate.
Qed.

Lemma num_ge_below a j k :
  (j <= k)%Z -> num_lt a (lit j) = true -> num_ge a (lit k) = false.
Proof.
  intros Hjk Hlt. apply num_ge_lt_false. now apply (below_next a j k).
Qed.

(** C6. The query built from a viewport carries the visible rectangle
    unchanged, and its limit is the step function of the zoom: 1000 below
    6, 2000 from 6 up to 8, 5000 from 8 up to 10, 8000 from 10 on. When the
    debounce timeout fires on a map showing [v], this is the query sent. *)
Theorem query_params_table (v : Direct.Viewport) :
  let q := Direct.query_params v in
  (Direct.q_west q, Direct.q_south q, Direct.q_east q, Direct.q_north q)
    = (Direct.west v, Direct.south v, Direct.east v, Direct.north v) /\
  (num_lt (Direct.zoom v) (lit 6) = true -> Direct.q_limit q = 1000) /\
  (num_ge (Direct.zoom v) (lit 6) = true ->
   num_lt (Direct.zoom v) (lit 8) = true -> Direct.q_limit q = 2000) /\
  (num_ge (Direct.zoom v) (lit 8) = true ->
   num_lt (Direct.zoom v) (lit 10) = true -> Direct.q_limit q = 5000) /\
  (num_ge (Direct.zoom v) (lit 10) = true -> Direct.q_limit q = 8000) /\
  (forall now w, Direct.map w = Some v ->
     Direct.issued (Direct.fetchFlowDataInner_call now w)
       = (Direct.issued w ++ [(now, q)])%list).
Proof.
  cbv zeta.
  change (Direct.q_limit (Direct.query_params v))
    with (Direct.query_limit (Direct.zoom v)).
  unfold Direct.query_limit.
  split; [reflexivity|].
  split; [|split; [|split; [|split]]].
  - intros Hlt. now rewrite Hlt.
  - intros Hge Hlt.
    rewrite (num_ge_lt_false _ _ Hlt), (num_ge_below _ 8 10 ltac:(lia) Hlt).
    now rewrite (num_lt_irrefl_lit _ _ Hge).
  - intros Hge Hlt.
    rewrite Hge, (num_ge_lt_false _ _ Hlt).
    pose proof (num_le_trans _ _ _ (lit_le_lit 6 8 ltac:(lia)) Hge) as H6.
    now rewrite (num_lt_irrefl_lit _ _ H6).
  - intros Hge. rewrite Hge.
    pose proof (num_le_trans _ _ _ (lit_le_lit 6 10 ltac:(lia)) Hge) as H6.
    rewrite (num_lt_irrefl_lit _ _ H6).
    now destruct (num_ge (Direct.zoom v) (lit 8)).
  - intros now w Hmap. unfold Direct.fetchFlowDataInner_call.
    now rewrite Hmap.
Qed.

(** The theorem at the four zoom levels 5, 7, 9.5 and 12. *)
Lemma query_params_table_witness :
  let view z := {| Direct.west := lit (-73); Direct.south := lit 44;
                   Direct.east := lit (-72); Direct.north := lit 45;
                   Direct.zoom := z |} in
  Direct.q_limit (Direct.query_params (view (lit 5))) = 1000 /\
  Direct.q_limit (Direct.query_params (view (lit 7))) = 2000 /\
  Direct.q_limit (Direct.query_params (view (Fin (19 # 2)))) = 5000 /\
  Direct.q_limit (Direct.query_params (view (lit 12))) = 8000.
Proof.
  intros view.
  destruct (query_params_table (view (lit 5))) as (_ & H5 & _).
  destruct (query_params_table (view (lit 7))) as (_ & _ & H7 & _).
  destruct (query_params_table (view (Fin (19 # 2)))) as (_ & _ & _ & H9 & _).
  destruct (query_params_table (view (lit 12))) as (_ & _ & _ & _ & H12 & _).
  split; [apply H5; reflexivity|].
  split; [apply H7; reflexivity|].
  split; [apply H9; reflexivity|].
  apply H12; reflexivity.
Defined.

(** ** The endpoint's defaults *)

(** C10. Whatever the built-in readers do on other strings, as long as they
    read the five default literals as the numbers they spell: a bounding-box
    parameter that is absent from the request is taken as the world extent
    (west -180, south -90, east 180, north 90), an absent limit as 5000, and
    a request without any parameter runs the query with exactly these five
    arguments and answers with what the query returns. *)
Theorem GET_defaults
    (parseFloat parseInt : string -> number)
    (pool_query : list number -> option (list Route.Row))
    (searchParams : list (string * string))
    (Hwest : parseFloat "-180" = lit (-180))
    (Hsouth : parseFloat "-90" = lit (-90))
    (Heast : parseFloat "180" = lit 180)
    (Hnorth : parseFloat "90" = lit 90)
    (Hlimit : parseInt "5000" = lit 5000) :
  let args := Route.query_args parseFloat parseInt searchParams in
  (Route.get "west" searchParams = None -> args !! 0%nat = Some (lit (-180))) /\
  (Route.get "south" searchParams = None -> args !! 1%nat = Some (lit (-90))) /\
  (Route.get "east" searchParams = None -> args !! 2%nat = Some (lit 180)) /\
  (Route.get "north" searchParams = None -> args !! 3%nat = Some (lit 90)) /\
  (Route.get "limit" searchParams = None -> args !! 4%nat = Some (lit 5000)) /\
  Route.query_args parseFloat parseInt []
    = [lit (-180); lit (-90); lit 180; lit 90; lit 5000] /\
  Route.GET parseFloat parseInt pool_query []
    = match pool_query [lit (-180); lit (-90); lit 180; lit 90; lit 5000] with
      | Some rows =>
          {| status := 200;
             body := FeatureCollection (map Route.feature_of_row rows) |}
      | None =>
          {| status := 500; body := ErrorBody "Failed to fetch flow data" |}
      end.
Proof.
  cbv zeta. unfold Route.GET, Route.query_args. simpl.
  rewrite Hwest, Hsouth, Heast, Hnorth, Hlimit.
  repeat split; intros ->; simpl; congruence.
Qed.

(** The theorem with the decimal reader for both built-ins, an empty
    result set, and a request that gives only [east] and [limit]. *)
Lemma GET_defaults_witness :
  let args := Route.query_args Route.read_integer Route.read_integer
                [("east", "-70"); ("limit", "10")] in
  args !! 0%nat = Some (lit (-180)) /\
  args !! 1%nat = Some (lit (-90)) /\
  args !! 3%nat = Some (lit 90) /\
  args = [lit (-180); lit (-90); lit (-70); lit 90; lit 10] /\
  Route.GET Route.read_integer Route.read_integer (fun _ => Some []) []
    = {| status := 200; body := FeatureCollection [] |}.
Proof.
  intros args.
  destruct (GET_defaults Route.read_integer Route.read_integer (fun _ => Some [])
              [("east", "-70"); ("limit", "10")]
              eq_refl eq_refl eq_refl eq_refl eq_refl)
    as (Hw & Hs & _ & Hn & _ & _ & Hget).
  split; [apply Hw; reflexivity|].
  split; [apply Hs; reflexivity|].
  split; [apply Hn; reflexivity|].
  split; [reflexivity|].
  exact Hget.
Defined.

(** ** One fetch cycle of the GeoJSON component *)

(** After a request is answered the loading flag is down, whatever the
    answer. *)
Lemma Direct_settle_clears_loading now o st :
  Direct.loading (Direct.fetchFlowDataInner_settle now o st).1 = false.
Proof.
  unfold Direct.fetchFlowDataInner_settle.
  destruct o as [| |r]; try reflexivity.
  destruct (body r); [destruct (0 <? length features)%nat|]; reflexivity.
Qed.

(** A request that ends without a JSON body leaves data and stats as they
    were; the failure goes to the console only. *)
Lemma Direct_rejected_keeps_data now o st :
  o = Direct.FetchRejected \/ (exists code, o = Direct.BodyRejected code) ->
  let '(st', errors) := Direct.fetchFlowDataInner_settle now o st in
  Direct.flowData st' = Direct.flowData st /\
  Direct.stats st' = Direct.stats st /\
  Direct.lastUpdate st' = Direct.lastUpdate st /\
  Direct.header st' = StreamCount (count (Direct.stats st)) /\
  errors = 1%nat.
Proof.
  intros [-> | [code ->]]; simpl; auto.
Qed.

(** Any JSON body replaces the displayed data, whatever the status. *)
Lemma Direct_replied_replaces now r st :
  Direct.flowData (Direct.fetchFlowDataInner_settle now (Direct.Replied r) st).1
    = Some (body r) /\
  Direct.lastUpdate (Direct.fetchFlowDataInner_settle now (Direct.Replied r) st).1
    = Some now.
Proof.
  unfold Direct.fetchFlowDataInner_settle.
  destruct r as [code [features | msg]]; simpl;
    [destruct (0 <? length features)%nat|]; auto.
Qed.

(** C9, as the code has it. A successful cycle always replaces the
    displayed collection; it recomputes the stats from its own result when
    that result has at least one feature (the count of features and the
    greatest flow among them), and leaves the stats of the earlier cycle in
    place when it has none. *)
Theorem stats_recomputed_when_features
    (now code : Z) (features : list FlowFeature) (st : Direct.State) :
  let answer := Direct.Replied {| status := code;
                                  body := FeatureCollection features |} in
  let st' := (Direct.fetchFlowDataInner_settle now answer st).1 in
  Direct.flowData st' = Some (FeatureCollection features) /\
  Direct.loading st' = false /\
  (features <> [] ->
   Direct.stats st' = {| count := Z.of_nat (length features);
                         maxFlow := Math_max (map streamflow_cms features) |}) /\
  (features = [] -> Direct.stats st' = Direct.stats st).
Proof.
  cbv zeta. unfold Direct.fetchFlowDataInner_settle. simpl body. cbv iota beta.
  destruct features as [|f fs].
  - repeat split; try reflexivity. congruence.
  - repeat split; try reflexivity. discriminate.
Qed.

(** The theorem at a first answer of three features and at an empty one. *)
Lemma stats_recomputed_when_features_witness :
  let full := Direct.Replied {| status := 200; body := collection_a |} in
  let empty := Direct.Replied {| status := 200; body := FeatureCollection [] |} in
  let st1 := (Direct.fetchFlowDataInner_settle 1000 full Direct.initial_state).1 in
  let st2 := (Direct.fetchFlowDataInner_settle 6000 empty st1).1 in
  Direct.stats st1 = {| count := 3; maxFlow := lit 150 |} /\
  Direct.stats st2 = Direct.stats st1.
Proof.
  cbv zeta. split.
  - refine (proj1 (proj2 (proj2 (stats_recomputed_when_features
              1000 200 _ Direct.initial_state))) _).
    discriminate.
  - refine (proj2 (proj2 (proj2 (stats_recomputed_when_features
              6000 200 [] _))) _).
    reflexivity.
Defined.

(** C9 fails as stated: after a cycle that showed three streams, a
    successful cycle with no feature empties the displayed collection and
    the stats still say three streams with a greatest flow of 150. *)
Lemma empty_answer_keeps_old_stats :
  let empty := Direct.Replied {| status := 200; body := FeatureCollection [] |} in
  let w := Direct.run (two_cycles empty) Direct.initial_world in
  Direct.issued w = [ (800, Direct.query_params view_a);
                      (5300, Direct.query_params view_b) ] /\
  Direct.flowData (Direct.ui w) = Some (FeatureCollection []) /\
  Direct.stats (Direct.ui w) = {| count := 3; maxFlow := lit 150 |} /\
  Direct.header (Direct.ui w) = StreamCount 3 /\
  Direct.stats (Direct.ui w)
    <> {| count := Z.of_nat (length (@nil FlowFeature));
          maxFlow := Math_max (map streamflow_cms []) |}.
Proof.
  cbv zeta. split_and!; by_evaluation.
Qed.

(** C2 at the input where the code departs from it. The first cycle showed
    three streams; the endpoint then answers the second request with
    status 500 and the body [{ error }]. The loading flag is cleared, but
    the error body has replaced the displayed collection, and the header
    shows the old stream count: nothing tells the user of the failure. *)
Lemma http_500_replaces_displayed_data :
  let w1 := Direct.run (firstn 4 (two_cycles Direct.FetchRejected))
              Direct.initial_world in
  let w2 := Direct.run (two_cycles (Direct.Replied answer_500))
              Direct.initial_world in
  answer_500 = {| status := 500; body := ErrorBody "Failed to fetch flow data" |} /\
  Direct.flowData (Direct.ui w1) = Some collection_a /\
  Direct.flowData (Direct.ui w2) = Some (ErrorBody "Failed to fetch flow data") /\
  Direct.loading (Direct.ui w2) = false /\
  Direct.header (Direct.ui w2) = StreamCount 3 /\
  Direct.logged w2 = 1%nat.
Proof.
  cbv zeta. split_and!; by_evaluation.
Qed.

(** ** One fetch cycle of the overlay component *)

(** The overlay component does what C2 asks: on a network error, a status
    outside 200-299 or a body that is not JSON, the loading flag is cleared,
    the error is stored and shown in the header, and the map's feature
    state, the pending slices and the stats stay as they were. *)
Lemma Overlay_failure_keeps_render_state now o msg w :
  Overlay_failed o msg ->
  let w' := Overlay.fetchLiveData_settle now o w in
  Overlay.loading (Overlay.ui w') = false /\
  Overlay.error (Overlay.ui w') = Some msg /\
  (msg <> EmptyString -> Overlay.header (Overlay.ui w') = ErrorText msg) /\
  Overlay.engine w' = Overlay.engine w /\
  Overlay.frames w' = Overlay.frames w /\
  Overlay.stats (Overlay.ui w') = Overlay.stats (Overlay.ui w).
Proof.
  assert (Hhead : forall st, msg <> EmptyString ->
            Overlay.header (Overlay.setLoading false
                              (Overlay.setError (Some msg) st)) = ErrorText msg)
    by (intros st Hne; unfold Overlay.header; simpl; now destruct msg).
  unfold Overlay_failed, Overlay.fetchLiveData_settle.
  destruct o as [m | code [m | data]].
  - intros ->. simpl. auto 7.
  - destruct (Overlay.ok code); intros ->; simpl; auto 7.
  - destruct (Overlay.ok code); [intros []|intros ->; simpl; auto 7].
Qed.

(** A JSON document without [sites], once the source is there: the
    TypeError of [Object.entries] is caught and shown like the others, and
    nothing is applied. *)
Lemma Overlay_missing_sites_sets_error now code data w :
  Overlay.ok code = true ->
  Overlay.mapRef w = true ->
  is_Some (Overlay.rivers (Overlay.engine w)) ->
  Overlay.sites data = None ->
  let w' := Overlay.fetchLiveData_settle now (Overlay.Answered code (inr data)) w in
  Overlay.loading (Overlay.ui w') = false /\
  Overlay.header (Overlay.ui w') = ErrorText Overlay.entries_error /\
  Overlay.engine w' = Overlay.engine w /\
  Overlay.frames w' = Overlay.frames w /\
  Overlay.stats (Overlay.ui w') = Overlay.stats (Overlay.ui w).
Proof.
  intros Hok Href [s Hs] Hsites. cbv zeta.
  unfold Overlay.fetchLiveData_settle, Overlay.applyFeatureStates.
  rewrite Hok. simpl. rewrite Href, Hs, Hsites. simpl. auto.
Qed.

(** ** Answers out of order *)

Lemma Direct_call_inflight now w g :
  g ∈ Direct.inflight w -> g ∈ Direct.inflight (Direct.fetchFlowDataInner_call now w).
Proof.
  intros Hg. unfold Direct.fetchFlowDataInner_call.
  destruct (Direct.map w); simpl; [|assumption].
  apply elem_of_app. now left.
Qed.

Lemma Direct_fire_next_inflight t w w' g :
  Direct.fire_next t w = Some w' ->
  g ∈ Direct.inflight w -> g ∈ Direct.inflight w'.
Proof.
  unfold Direct.fire_next. intros Hfire Hg.
  destruct (Direct.initial_fetch w) as [i|], (Direct.timer w) as [d|];
    repeat match type of Hfire with
           | (if ?b then _ else _) = _ => destruct b
           end;
    inversion Hfire; subst; clear Hfire;
    try (now apply Direct_call_inflight); assumption.
Qed.

Lemma Direct_fire_due_inflight fuel t w g :
  g ∈ Direct.inflight w -> g ∈ Direct.inflight (Direct.fire_due fuel t w).
Proof.
  revert w. induction fuel as [|fuel IH]; intros w Hg; simpl; [assumption|].
  destruct (Direct.fire_next t w) as [w'|] eqn:Hfire; [|assumption].
  apply IH. eapply Direct_fire_next_inflight; eauto.
Qed.

Lemma Direct_settle_inflight now g g' o w :
  g <> g' -> g ∈ Direct.inflight w -> g ∈ Direct.inflight (Direct.settle now g' o w).
Proof.
  intros Hne Hg. unfold Direct.settle.
  destruct (bool_decide (g' ∈ Direct.inflight w)); [|assumption].
  destruct (Direct.fetchFlowDataInner_settle now o (Direct.ui w)) as [st errors].
  simpl. apply list_elem_of_filter. split; assumption.
Qed.

Lemma Direct_settle_replied now g r w :
  g ∈ Direct.inflight w ->
  Direct.flowData (Direct.ui (Direct.settle now g (Direct.Replied r) w)) = Some (body r) /\
  Direct.lastUpdate (Direct.ui (Direct.settle now g (Direct.Replied r) w)) = Some now.
Proof.
  intros Hg. unfold Direct.settle.
  rewrite bool_decide_eq_true_2 by assumption.
  pose proof (Direct_replied_replaces now r (Direct.ui w)) as H.
  destruct (Direct.fetchFlowDataInner_settle now (Direct.Replied r) (Direct.ui w))
    as [st errors].
  exact H.
Qed.

(** C1, as the code has it. There is no generation check: the answer that
    arrives last is the one displayed. When request [g1] was sent before
    [g2] and is answered after it, the data of [g1] replaces the data of
    [g2]. *)
Theorem last_answer_wins
    (w : Direct.World) (g1 g2 : nat) (t2 t1 : Z) (r1 r2 : Response) :
  (g1 < g2)%nat ->
  g1 ∈ Direct.inflight w ->
  g2 ∈ Direct.inflight w ->
  let w' := Direct.run [ (t2, Direct.Settled g2 (Direct.Replied r2));
                         (t1, Direct.Settled g1 (Direct.Replied r1)) ] w in
  Direct.flowData (Direct.ui w') = Some (body r1) /\
  Direct.lastUpdate (Direct.ui w') = Some t1.
Proof.
  intros Hlt H1 H2. cbv zeta. simpl Direct.run. unfold Direct.handle.
  apply Direct_settle_replied.
  apply Direct_fire_due_inflight.
  apply Direct_settle_inflight; [lia|].
  now apply Direct_fire_due_inflight.
Qed.

(** C1 fails as stated. The map settles on [view_a] and then on [view_b];
    the two requests go out in that order (generations 0 and 1); the answer
    to the second arrives first, the answer to the first last. The map ends
    up showing the collection of the first, older request. *)
Lemma late_answer_overwrites_newer :
  let w := Direct.run
             [ (0, Direct.MoveEnd view_a);
               (1000, Direct.MoveEnd view_b);
               (1400, Direct.Settled 1 (Direct.Replied {| status := 200; body := collection_b |}));
               (1500, Direct.Settled 0 (Direct.Replied {| status := 200; body := collection_a |})) ]
             Direct.initial_world in
  Direct.issued w = [ (300, Direct.query_params view_a);
                      (1300, Direct.query_params view_b) ] /\
  Direct.flowData (Direct.ui w) = Some collection_a /\
  Direct.flowData (Direct.ui w) <> Some collection_b /\
  Direct.stats (Direct.ui w) = {| count := 3; maxFlow := lit 150 |}.
Proof.
  cbv zeta. split_and!; by_evaluation.
Qed.

(** The theorem on the two requests of that timeline. *)
Lemma last_answer_wins_witness :
  let w := Direct.run [ (0, Direct.MoveEnd view_a); (1000, Direct.MoveEnd view_b);
                        (1350, Direct.View view_b) ]
             Direct.initial_world in
  let w' := Direct.run
              [ (1400, Direct.Settled 1 (Direct.Replied {| status := 200; body := collection_b |}));
                (1500, Direct.Settled 0 (Direct.Replied {| status := 200; body := collection_a |})) ]
              w in
  (0 < 1)%nat /\ 0%nat ∈ Direct.inflight w /\ 1%nat ∈ Direct.inflight w /\
  Direct.flowData (Direct.ui w') = Some collection_a.
Proof.
  cbv zeta.
  assert (H0 : 0%nat ∈ Direct.inflight
                 (Direct.run [ (0, Direct.MoveEnd view_a); (1000, Direct.MoveEnd view_b);
                               (1350, Direct.View view_b) ] Direct.initial_world))
    by (vm_compute; apply list_elem_of_here).
  assert (H1 : 1%nat ∈ Direct.inflight
                 (Direct.run [ (0, Direct.MoveEnd view_a); (1000, Direct.MoveEnd view_b);
                               (1350, Direct.View view_b) ] Direct.initial_world))
    by (vm_compute; apply list_elem_of_further, list_elem_of_here).
  split; [lia|]. split; [exact H0|]. split; [exact H1|].
  exact (proj1 (last_answer_wins _ 0 1 1400 1500
                  {| status := 200; body := collection_a |}
                  {| status := 200; body := collection_b |}
                  ltac:(lia) H0 H1)).
Defined.

(** ** Debouncing *)

Lemma Direct_fire_due_no_timer fuel t w :
  Direct.initial_fetch w = None -> Direct.timer w = None ->
  Direct.fire_due fuel t w = w.
Proof.
  intros Hi Ht. destruct fuel; simpl; [reflexivity|].
  unfold Direct.fire_next. now rewrite Hi, Ht.
Qed.

Lemma Direct_fire_due_not_yet fuel t d w :
  Direct.initial_fetch w = None -> Direct.timer w = Some d -> (t < d)%Z ->
  Direct.fire_due fuel t w = w.
Proof.
  intros Hi Ht Hlt. destruct fuel; simpl; [reflexivity|].
  unfold Direct.fire_next. rewrite Hi, Ht.
  destruct (Z.leb_spec d t); [lia|reflexivity].
Qed.

Lemma Direct_fire_due_debounce fuel t d w :
  Direct.initial_fetch w = None -> Direct.timer w = Some d -> (d <= t)%Z ->
  Direct.fire_due (S fuel) t w = Direct.fire_debounce d w.
Proof.
  intros Hi Ht Hle. simpl. unfold Direct.fire_next. rewrite Hi, Ht.
  destruct (Z.leb_spec d t); [|lia].
  apply Direct_fire_due_no_timer;
    unfold Direct.fire_debounce, Direct.fetchFlowDataInner_call; simpl;
    destruct (Direct.map w); simpl; auto.
Qed.

(** Three rounds are enough: after [advance_to t] no timeout is due by
    [t] any more. *)
Lemma Direct_advance_quiescent t w :
  Direct.fire_next t (Direct.advance_to t w) = None.
Proof.
  unfold Direct.advance_to.
  destruct (Direct.initial_fetch w) as [i|] eqn:Hi, (Direct.timer w) as [d|] eqn:Ht.
  - destruct (Z.ltb_spec d i) as [Hdi|Hdi], (Z.leb_spec d t) as [Hdt|Hdt],
      (Z.leb_spec i t) as [Hit|Hit], (Z.leb_spec (i + Direct.DEBOUNCE_MS) t) as [Hjt|Hjt];
      unfold Direct.DEBOUNCE_MS in *; try lia;
      destruct (Direct.map w) as [v|] eqn:Hm;
      cbn; unfold Direct.fire_next, Direct.fire_debounce, Direct.fire_initial,
             Direct.fetchFlowData, Direct.fetchFlowDataInner_call;
      cbn; rewrite ?Hi, ?Ht, ?Hm; cbn;
      repeat (match goal with
              | |- context [(?a <? ?b)%Z] => destruct (Z.ltb_spec a b); try lia
              | |- context [(?a <=? ?b)%Z] => destruct (Z.leb_spec a b); try lia
              end; cbn; rewrite ?Hi, ?Ht, ?Hm; cbn);
      try reflexivity.
  - destruct (Z.leb_spec i t) as [Hit|Hit],
      (Z.leb_spec (i + Direct.DEBOUNCE_MS) t) as [Hjt|Hjt];
      unfold Direct.DEBOUNCE_MS in *; try lia;
      destruct (Direct.map w) as [v|] eqn:Hm;
      cbn; unfold Direct.fire_next, Direct.fire_debounce, Direct.fire_initial,
             Direct.fetchFlowData, Direct.fetchFlowDataInner_call;
      cbn; rewrite ?Hi, ?Ht, ?Hm; cbn;
      repeat (match goal with
              | |- context [(?a <? ?b)%Z] => destruct (Z.ltb_spec a b); try lia
              | |- context [(?a <=? ?b)%Z] => destruct (Z.leb_spec a b); try lia
              end; cbn; rewrite ?Hi, ?Ht, ?Hm; cbn);
      try reflexivity.
  - destruct (Z.le_gt_cases d t).
    + rewrite (Direct_fire_due_debounce _ _ d) by assumption.
      unfold Direct.fire_next, Direct.fire_debounce, Direct.fetchFlowDataInner_call.
      cbn. destruct (Direct.map w); cbn; now rewrite Hi.
    + rewrite (Direct_fire_due_not_yet _ _ d) by (assumption || lia).
      unfold Direct.fire_next. rewrite Hi, Ht.
      destruct (Z.leb_spec d t); [lia|reflexivity].
  - rewrite Direct_fire_due_no_timer by assumption.
    unfold Direct.fire_next. now rewrite Hi, Ht.
Qed.

Lemma last_cons_default {A} (l : list A) : forall a d,
  List.last (a :: l) d = List.last l a.
Proof.
  induction l as [|b l IH]; intros a d; [reflexivity|].
  change (List.last (a :: b :: l) d) with (List.last (b :: l) d).
  now rewrite !IH.
Qed.

(** With a timeout pending at [d] on a map showing [v], whatever settle
    events and changes of view come before the deadline then pending send
    nothing; the one request goes out at the last deadline, for the view
    the map shows then. *)
Lemma gesture_tail more : forall w t d v T,
  Direct.initial_fetch w = None ->
  Direct.timer w = Some d ->
  Direct.map w = Some v ->
  gesture t d more = true ->
  (deadline d more <= T)%Z ->
  Direct.issued (Direct.advance_to T (Direct.run more w))
    = (Direct.issued w
       ++ [(deadline d more, Direct.query_params (shown v more))])%list.
Proof.
  induction more as [|[t' e] rest IH]; intros w t d v T Hi Ht Hm Hg HT.
  - cbn [deadline shown Direct.run] in *. unfold Direct.advance_to.
    rewrite (Direct_fire_due_debounce _ _ _ w Hi Ht HT).
    unfold Direct.fire_debounce, Direct.fetchFlowDataInner_call. simpl.
    now rewrite Hm.
  - destruct e as [|v'|v'|g o]; cbn [gesture] in Hg; try discriminate Hg;
      apply andb_prop in Hg as [Hg Hrest]; apply andb_prop in Hg as [Hle Hlt];
      apply Z.leb_le in Hle; apply Z.ltb_lt in Hlt;
      cbn [deadline shown Direct.run Direct.handle] in *;
      unfold Direct.advance_to at 2;
      rewrite (Direct_fire_due_not_yet _ _ _ w Hi Ht Hlt).
    + rewrite (IH (Direct.show v' w) t' d v' T); try assumption; reflexivity.
    + rewrite (IH (Direct.handleMoveEnd t' v' w) t'
                 (t' + Direct.DEBOUNCE_MS)%Z v' T); try assumption; reflexivity.
Qed.

(** When only settle events follow, the last deadline is 300 ms after the
    last of them and the view shown is its view. *)
Lemma settle_events_last later : forall t v,
  deadline (t + Direct.DEBOUNCE_MS) (settle_events later)
  = ((List.last later (t, v)).1 + Direct.DEBOUNCE_MS)%Z /\
  shown v (settle_events later) = (List.last later (t, v)).2.
Proof.
  induction later as [|[t1 v1] rest IH]; intros t v; [split; reflexivity|].
  rewrite last_cons_default.
  change (settle_events ((t1, v1) :: rest))
    with ((t1, Direct.MoveEnd v1) :: settle_events rest).
  cbn [deadline shown]. apply IH.
Qed.

(** C8, as the code has it. On a component whose initial timeout is no
    longer pending, a settle event followed by further settle events and
    unsettled changes of view, each before the deadline then pending (for
    settle events alone: each less than 300 ms after the settle event
    before it), sends exactly one request: at the last deadline, 300 ms
    after the last settle event, with the parameters of the view the map
    shows at that moment. When only settle events follow, that is the view
    of the last settle event. *)
Theorem debounce_one_query_for_last_event
    (w : Direct.World) (t0 : Z) (v0 : Direct.Viewport)
    (more : list (Z * Direct.Event)) (T : Z) :
  Direct.initial_fetch (Direct.advance_to t0 w) = None ->
  gesture t0 (t0 + Direct.DEBOUNCE_MS) more = true ->
  (deadline (t0 + Direct.DEBOUNCE_MS) more <= T)%Z ->
  Direct.issued
    (Direct.advance_to T (Direct.run ((t0, Direct.MoveEnd v0) :: more) w))
  = (Direct.issued (Direct.advance_to t0 w)
     ++ [(deadline (t0 + Direct.DEBOUNCE_MS) more,
          Direct.query_params (shown v0 more))])%list /\
  (forall later, more = settle_events later ->
     deadline (t0 + Direct.DEBOUNCE_MS) more
     = ((List.last later (t0, v0)).1 + Direct.DEBOUNCE_MS)%Z /\
     shown v0 more = (List.last later (t0, v0)).2).
Proof.
  intros Hi Hg HT. split.
  - cbn [Direct.run Direct.handle].
    rewrite (gesture_tail more
               (Direct.handleMoveEnd t0 v0 (Direct.advance_to t0 w))
               t0 (t0 + Direct.DEBOUNCE_MS)%Z v0 T);
      try assumption; reflexivity.
  - intros later ->. apply settle_events_last.
Qed.

(** The theorem on a burst of three settle events at 1000, 1100 and 1350
    ms, ending on [view_b], on a component mounted at time 0. *)
Lemma debounce_one_query_for_last_event_witness :
  let w := Direct.run [ (0, Direct.Mount); (0, Direct.View view_a) ]
             Direct.initial_world in
  let more := settle_events [ (1100, view_a); (1350, view_b) ] in
  Direct.initial_fetch (Direct.advance_to 1000 w) = None /\
  gesture 1000 (1000 + Direct.DEBOUNCE_MS) more = true /\
  Direct.issued
    (Direct.advance_to 2000
       (Direct.run ((1000, Direct.MoveEnd view_a) :: more) w))
    = [ (800, Direct.query_params view_a);
        (1650, Direct.query_params view_b) ].
Proof.
  cbv zeta.
  split; [reflexivity|]. split; [reflexivity|].
  exact (proj1 (debounce_one_query_for_last_event
                  (Direct.run [ (0, Direct.Mount); (0, Direct.View view_a) ]
                     Direct.initial_world)
                  1000 view_a (settle_events [ (1100, view_a); (1350, view_b) ]) 2000
                  eq_refl eq_refl ltac:(vm_compute; discriminate))).
Defined.

(** C8 fails as stated, in two ways. A single settle event on [view_a]
    followed 100 ms later by a change of view that has not settled sends
    its one request with the parameters of the later view, [view_b], not
    those of the settle event. And a single settle event 100 ms after the
    mount sends two requests: its own at 400 ms, and at 800 ms the one of
    the initial fetch, whose timeout re-arms the debounce at 500 ms. *)
Lemma burst_query_follows_the_map :
  Direct.issued
    (Direct.advance_to 1000
       (Direct.run [ (0, Direct.MoveEnd view_a); (100, Direct.View view_b) ]
          Direct.initial_world))
  = [ (300, Direct.query_params view_b) ] /\
  Direct.query_params view_b <> Direct.query_params view_a /\
  Direct.issued
    (Direct.advance_to 1000
       (Direct.run [ (0, Direct.Mount); (0, Direct.View view_a);
                     (100, Direct.MoveEnd view_a) ]
          Direct.initial_world))
  = [ (400, Direct.query_params view_a); (800, Direct.query_params view_a) ].
Proof. split_and!; by_evaluation. Qed.

(** ** The chunked apply cycle *)

(** The call never throws, and leaves the features of the source alone. *)
Lemma setFeatureState_returns m id d :
  exists m', Overlay.setFeatureState m id d = Some m' /\
             (forall id', present m' id' = present m id') /\
             (is_Some (Overlay.rivers m) -> is_Some (Overlay.rivers m')).
Proof.
  unfold present, Overlay.setFeatureState.
  destruct (Overlay.rivers m) as [s|] eqn:Hs.
  - eexists. split; [reflexivity|]. split; [reflexivity | cbn; eauto].
  - exists m. split; [reflexivity|]. rewrite Hs. split; [reflexivity | auto].
Qed.

Lemma present_write_entry m e id : present (write_entry m e) id = present m id.
Proof.
  unfold write_entry.
  destruct (setFeatureState_returns m e.1
              {| Overlay.flow := e.2;
                 Overlay.category := Overlay.getFlowCategory e.2 |})
    as (m' & -> & Hsame & _).
  apply Hsame.
Qed.

Lemma present_write_all es : forall m id, present (write_all m es) id = present m id.
Proof.
  induction es as [|e es IH]; intros m id; [reflexivity|].
  unfold write_all in *. simpl. now rewrite IH, present_write_entry.
Qed.

Lemma rivers_write_entry m e :
  is_Some (Overlay.rivers m) -> is_Some (Overlay.rivers (write_entry m e)).
Proof.
  intros Hs. unfold write_entry.
  destruct (setFeatureState_returns m e.1
              {| Overlay.flow := e.2;
                 Overlay.category := Overlay.getFlowCategory e.2 |})
    as (m' & -> & _ & Hr).
  now apply Hr.
Qed.

Lemma rivers_write_all es : forall m,
  is_Some (Overlay.rivers m) -> is_Some (Overlay.rivers (write_all m es)).
Proof.
  induction es as [|e es IH]; intros m H; [assumption|].
  apply IH. now apply rivers_write_entry.
Qed.

Lemma write_all_snoc m es e : write_all m (es ++ [e]) = write_entry (write_all m es) e.
Proof. unfold write_all. now rewrite fold_left_app. Qed.

Lemma max_from_snoc start fs f :
  max_from start (fs ++ [f])
  = if num_gt f (max_from start fs) then f else max_from start fs.
Proof. unfold max_from. now rewrite fold_left_app. Qed.

(** One round of the loop moves the cycle from entry [i] to entry [i+1]
    and writes that entry to the map. *)
Lemma loop_body_step m0 es i m c e :
  cycle_at m0 es i m c -> es !! i = Some e ->
  cycle_at m0 es (S i) (Overlay.loop_body (m, c) i).1 (Overlay.loop_body (m, c) i).2 /\
  (Overlay.loop_body (m, c) i).1 = write_entry m e /\
  Overlay.index (Overlay.loop_body (m, c) i).2 = Overlay.index c /\
  Overlay.slices (Overlay.loop_body (m, c) i).2 = Overlay.slices c.
Proof.
  intros (He & Ht & Hc & Hx & Hm) Hlook. destruct e as [id f].
  unfold Overlay.loop_body. rewrite He, Hlook.
  unfold cycle_at.
  rewrite (take_S_r es i (id, f) Hlook).
  rewrite seq_S. unfold write_entry. simpl fst. simpl snd.
  destruct (setFeatureState_returns m id
              {| Overlay.flow := f; Overlay.category := Overlay.getFlowCategory f |})
    as (m' & -> & Hsame & _).
  simpl. rewrite List.map_app. change (map snd [(id, f)]) with [f].
  rewrite max_from_snoc, length_app, <- Hx, Ht, Hc. simpl.
  repeat split; try reflexivity; try assumption; try lia.
  intros id'. now rewrite Hsame.
Qed.

(** The loop over [n] entries from [i]. *)
Lemma loop_steps m0 es n : forall i m c,
  cycle_at m0 es i m c -> (i + n <= length es)%nat ->
  let r := fold_left Overlay.loop_body (seq i n) (m, c) in
  cycle_at m0 es (i + n) r.1 r.2 /\
  r.1 = write_all m (take n (drop i es)) /\
  Overlay.index r.2 = Overlay.index c /\
  Overlay.slices r.2 = Overlay.slices c.
Proof.
  induction n as [|n IH]; intros i m c Hat Hlen; cbv zeta.
  - simpl. rewrite Nat.add_0_r. auto.
  - change (fold_left Overlay.loop_body (seq i (S n)) (m, c))
      with (fold_left Overlay.loop_body (seq (S i) n) (Overlay.loop_body (m, c) i)).
    destruct (lookup_lt_is_Some_2 es i ltac:(lia)) as [e Hlook].
    destruct (loop_body_step m0 es i m c e Hat Hlook) as (Hat' & Hw & Hidx & Hsl).
    destruct (Overlay.loop_body (m, c) i) as [m1 c1]. simpl in Hat', Hw, Hidx, Hsl.
    destruct (IH (S i) m1 c1 Hat' ltac:(lia)) as (Hat'' & Hw' & Hidx' & Hsl').
    replace (i + S n)%nat with (S i + n)%nat by lia.
    split; [exact Hat''|]. split; [|split; congruence].
    rewrite Hw', Hw, (drop_S es e i Hlook). reflexivity.
Qed.

Lemma CHUNK_SIZE_pos : (0 < Overlay.CHUNK_SIZE)%nat.
Proof. unfold Overlay.CHUNK_SIZE. lia. Qed.

Arguments Overlay.CHUNK_SIZE : simpl never.

(** One call of [processChunk] on a cycle standing at entry [i]. *)
Lemma chunk_step m0 es i m c :
  cycle_at m0 es i m c -> Overlay.index c = i -> (i <= length es)%nat ->
  let stop := Nat.min (i + Overlay.CHUNK_SIZE) (length es) in
  let r := Overlay.chunk m c in
  cycle_at m0 es stop r.1.1 r.1.2 /\
  r.1.1 = write_all m (take (stop - i) (drop i es)) /\
  Overlay.index r.1.2 = stop /\
  Overlay.slices r.1.2 = (Overlay.slices c ++ [(stop - i)%nat])%list /\
  r.2 = (stop <? length es)%nat.
Proof.
  intros Hat Hidx Hle. cbv zeta. unfold Overlay.chunk.
  assert (He : Overlay.entries c = es) by apply Hat.
  rewrite He, Hidx.
  set (stop := Nat.min (i + Overlay.CHUNK_SIZE) (length es)).
  assert (Hstop : (i <= stop)%nat) by (unfold stop; lia).
  destruct (loop_steps m0 es (stop - i) i m c Hat ltac:(lia)) as (Hat' & Hw & _ & Hsl).
  replace (i + (stop - i))%nat with stop in Hat' by lia.
  destruct (fold_left Overlay.loop_body (seq i (stop - i)) (m, c)) as [m1 c1].
  simpl in Hat', Hw, Hsl. simpl.
  destruct Hat' as (He' & Ht' & Hc' & Hx' & Hm').
  unfold cycle_at. simpl. rewrite Hsl. auto 10.
Qed.

(** A cycle with [n] entries left, [k] full slices before the last one,
    runs through in [k + 1] turns and writes the entries left. *)
Lemma apply_turns_from m0 es k : forall i m c fuel,
  cycle_at m0 es i m c -> Overlay.index c = i -> (i <= length es)%nat ->
  (length es - i <= Overlay.CHUNK_SIZE * S k)%nat ->
  (k = 0%nat \/ Overlay.CHUNK_SIZE * k < length es - i)%nat ->
  (k < fuel)%nat ->
  exists c',
    Overlay.apply_turns fuel m c = Some (write_all m (drop i es), c') /\
    cycle_at m0 es (length es) (write_all m (drop i es)) c' /\
    Overlay.index c' = length es /\
    Overlay.slices c'
    = (Overlay.slices c ++ repeat Overlay.CHUNK_SIZE k
       ++ [(length es - i - Overlay.CHUNK_SIZE * k)%nat])%list.
Proof.
  pose proof CHUNK_SIZE_pos as Hpos.
  induction k as [|k IH]; intros i m c fuel Hat Hidx Hle Hup Hlow Hfuel;
    (destruct fuel as [|fuel]; [lia|]);
    destruct (chunk_step m0 es i m c Hat Hidx Hle)
      as (Hat' & Hw & Hidx' & Hsl & Hmore);
    simpl Overlay.apply_turns;
    destruct (Overlay.chunk m c) as [[m1 c1] more];
    simpl in Hat', Hw, Hidx', Hsl, Hmore.
  - replace (Nat.min (i + Overlay.CHUNK_SIZE) (length es)) with (length es)
      in * by lia.
    rewrite Hmore, Nat.ltb_irrefl.
    rewrite take_ge in Hw by (rewrite length_drop; lia). subst m1.
    exists c1. repeat split; try apply Hat'; try assumption.
    rewrite Hsl. cbn [repeat app]. do 2 f_equal. lia.
  - destruct Hlow as [Hk|Hlow]; [discriminate|].
    assert (Hlt : (i + Overlay.CHUNK_SIZE < length es)%nat) by lia.
    replace (Nat.min (i + Overlay.CHUNK_SIZE) (length es))
      with (i + Overlay.CHUNK_SIZE)%nat in * by lia.
    rewrite Hmore. destruct (Nat.ltb_spec (i + Overlay.CHUNK_SIZE) (length es)); [|lia].
    destruct (IH (i + Overlay.CHUNK_SIZE)%nat m1 c1 fuel Hat' Hidx'
                ltac:(lia) ltac:(lia)
                ltac:(destruct k; [left; reflexivity|right; lia]) ltac:(lia))
      as (c' & Hrun & Hfin & Hidxf & Hslf).
    assert (Hwrite : write_all m1 (drop (i + Overlay.CHUNK_SIZE) es)
                     = write_all m (drop i es)).
    { rewrite Hw. unfold write_all. rewrite <- fold_left_app.
      replace (i + Overlay.CHUNK_SIZE - i)%nat with Overlay.CHUNK_SIZE by lia.
      rewrite <- drop_drop, take_drop. reflexivity. }
    rewrite Hwrite in *.
    exists c'. repeat split; try apply Hfin; try assumption.
    rewrite Hslf, Hsl. cbn [repeat]. rewrite <- app_assoc. cbn [app].
    replace (i + Overlay.CHUNK_SIZE - i)%nat with Overlay.CHUNK_SIZE by lia.
    do 4 f_equal. lia.
Qed.

(** *** The running maximum of line 83 *)

Lemma num_le_refl a : a <> NaN -> num_le a a = true.
Proof.
  destruct a as [| |q|]; simpl; try congruence. intros _.
  apply Qle_bool_iff, Qle_refl.
Qed.

Lemma num_lt_irrefl a : num_lt a a = false.
Proof.
  destruct a as [| |q|]; simpl; try reflexivity.
  apply negb_false_iff, Qle_bool_iff, Qle_refl.
Qed.

Lemma num_lt_not_NaN a b : num_lt a b = true -> a <> NaN /\ b <> NaN.
Proof. destruct a, b; simpl; intros H; split; congruence. Qed.

Lemma num_lt_le a b : num_lt a b = true -> num_le a b = true.
Proof.
  destruct a as [| |p|], b as [| |q|]; simpl; try congruence.
  rewrite negb_true_iff, <- not_true_iff_false, !Qle_bool_iff.
  intros H. apply Qlt_le_weak, Qnot_le_lt, H.
Qed.

Lemma max_from_not_NaN fs : forall start,
  start <> NaN -> max_from start fs <> NaN.
Proof.
  induction fs as [|f fs IH]; intros start Hs; [assumption|].
  apply IH. unfold num_gt.
  destruct (num_lt start f) eqn:Hlt; [|assumption].
  now apply num_lt_not_NaN in Hlt.
Qed.

Lemma max_from_ge_start fs : forall start,
  start <> NaN -> num_le start (max_from start fs) = true.
Proof.
  induction fs as [|f fs IH]; intros start Hs; [now apply num_le_refl|].
  change (max_from start (f :: fs))
    with (max_from (if num_gt f start then f else start) fs).
  unfold num_gt. destruct (num_lt start f) eqn:Hlt.
  - apply num_le_trans with f; [now apply num_lt_le|].
    apply IH. now apply num_lt_not_NaN in Hlt.
  - now apply IH.
Qed.

(** No flow that went through the loop exceeds the maximum kept. *)
Lemma max_from_upper fs : forall start f,
  start <> NaN -> f ∈ fs -> num_gt f (max_from start fs) = false.
Proof.
  induction fs as [|g fs IH]; intros start f Hs Hin.
  - now apply elem_of_nil in Hin.
  - change (max_from start (g :: fs))
      with (max_from (if num_gt g start then g else start) fs).
    set (s' := if num_gt g start then g else start).
    assert (Hs' : s' <> NaN).
    { unfold s', num_gt. destruct (num_lt start g) eqn:Hlt; [|assumption].
      now apply num_lt_not_NaN in Hlt. }
    apply elem_of_cons in Hin as [-> | Hin]; [|now apply IH].
    unfold num_gt. destruct (num_lt (max_from s' fs) g) eqn:Hlt; [|reflexivity].
    pose proof (num_le_lt_trans _ _ _ (max_from_ge_start fs s' Hs') Hlt) as Hc.
    unfold s', num_gt in Hc. destruct (num_lt start g) eqn:Hsg.
    + now rewrite num_lt_irrefl in Hc.
    + congruence.
Qed.

(** The maximum kept is the start value or one of the flows. *)
Lemma max_from_choice fs : forall start,
  max_from start fs = start \/ max_from start fs ∈ fs.
Proof.
  induction fs as [|g fs IH]; intros start; [now left|].
  change (max_from start (g :: fs))
    with (max_from (if num_gt g start then g else start) fs).
  destruct (IH (if num_gt g start then g else start)) as [-> | Hin].
  - destruct (num_gt g start); [right; apply list_elem_of_here|now left].
  - right. now apply list_elem_of_further.
Qed.

(** Against the spec's wording: when no flow is NaN and some flow is zero
    or more, the value kept from 0 is the maximum of the flows. *)
Lemma max_from_zero_is_maximum fs :
  NaN ∉ fs ->
  (exists f, f ∈ fs /\ num_le (lit 0) f = true) ->
  is_maximum_of (max_from (lit 0) fs) fs.
Proof.
  intros Hnan (f & Hf & Hpos).
  assert (H0 : lit 0 <> NaN) by discriminate.
  pose proof (max_from_not_NaN fs (lit 0) H0) as Hm.
  split.
  - destruct (max_from_choice fs (lit 0)) as [Heq | Hin].
    + exists f. split; [assumption|]. unfold num_eq. rewrite Heq, Hpos. simpl.
      pose proof (max_from_upper fs (lit 0) f H0 Hf) as Hup.
      rewrite Heq in Hup. unfold num_gt in Hup.
      apply num_lt_false_le in Hup; [assumption|discriminate|].
      intros ->. now apply Hnan.
    + exists (max_from (lit 0) fs). split; [assumption|].
      unfold num_eq. now rewrite num_le_refl.
  - intros y Hy. pose proof (max_from_upper fs (lit 0) y H0 Hy) as Hup.
    unfold num_gt in Hup. apply num_lt_false_le in Hup; try assumption.
    intros ->. now apply Hnan.
Qed.

(** *** A cycle alone on the animation frames *)

Lemma with_frames_nil w : Overlay.frames w = [] -> Overlay.with_frames [] w = w.
Proof. destruct w; simpl; intros ->; reflexivity. Qed.

Lemma animation_frame_idle w : Overlay.frames w = [] -> Overlay.animation_frame w = w.
Proof.
  intros H. unfold Overlay.animation_frame. rewrite H. simpl.
  now apply with_frames_nil.
Qed.

Lemma run_frames_idle n : forall w, Overlay.frames w = [] -> run_frames n w = w.
Proof.
  induction n as [|n IH]; intros w H; [reflexivity|].
  simpl. rewrite animation_frame_idle by assumption. now apply IH.
Qed.

(** When no other cycle is waiting, the frames run the cycle exactly as
    [apply_turns] does, and the stats are published after its last slice. *)
Lemma run_frames_cycle fuel : forall c w m' c',
  Overlay.frames w = [] ->
  Overlay.apply_turns (S fuel) (Overlay.engine w) c = Some (m', c') ->
  run_frames fuel (Overlay.processChunk c w)
  = Overlay.with_ui
      (Overlay.setStats {| count := Overlay.successCount c';
                           maxFlow := Overlay.cyc_maxFlow c' |} (Overlay.ui w))
      (Overlay.with_engine m' w).
Proof.
  induction fuel as [|fuel IH]; intros c w m' c' Hfr Hrun;
    simpl in Hrun; unfold Overlay.processChunk;
    destruct (Overlay.chunk (Overlay.engine w) c) as [[m1 c1] more];
    destruct more; try discriminate.
  - inversion Hrun; subst. reflexivity.
  - change (run_frames (S fuel) ?x) with (run_frames fuel (Overlay.animation_frame x)).
    unfold Overlay.animation_frame at 1.
    cbn [Overlay.frames Overlay.with_frames Overlay.with_engine].
    rewrite Hfr. cbn [app fold_left].
    replace (Overlay.with_frames []
               (Overlay.with_frames [c1] (Overlay.with_engine m1 w)))
      with (Overlay.with_engine m1 w)
      by (destruct w; simpl in *; subst; reflexivity).
    rewrite (IH c1 (Overlay.with_engine m1 w) m' c'); [reflexivity|assumption|exact Hrun].
  - inversion Hrun; subst.
    apply run_frames_idle. destruct w; simpl in *. assumption.
Qed.

Lemma full_slices_bounds M :
  (M <= Overlay.CHUNK_SIZE * S (full_slices M))%nat /\
  (full_slices M = 0%nat \/ Overlay.CHUNK_SIZE * full_slices M < M)%nat.
Proof.
  pose proof CHUNK_SIZE_pos as Hpos. unfold full_slices.
  pose proof (Nat.div_mod_eq (M - 1) Overlay.CHUNK_SIZE) as Hdm.
  pose proof (Nat.mod_upper_bound (M - 1) Overlay.CHUNK_SIZE ltac:(lia)) as Hr.
  set (k := ((M - 1) / Overlay.CHUNK_SIZE)%nat) in *.
  split; [nia|].
  destruct k; [now left|right; nia].
Qed.

Lemma cycle_at_start m es : cycle_at m es 0 m (Overlay.new_cycle es).
Proof. unfold cycle_at. simpl. auto. Qed.

(** The whole cycle on the list of entries: every entry is gone through
    and counted. *)
Lemma apply_turns_result m es :
  exists c',
    Overlay.apply_turns (S (full_slices (length es))) m (Overlay.new_cycle es)
      = Some (write_all m es, c') /\
    Overlay.slices c' = slice_sizes (length es) /\
    Overlay.touched c' = seq 0 (length es) /\
    Overlay.successCount c' = Z.of_nat (length es) /\
    Overlay.cyc_maxFlow c' = max_from (lit 0) (map snd es).
Proof.
  destruct (full_slices_bounds (length es)) as [Hup Hlow].
  destruct (apply_turns_from m es (full_slices (length es)) 0 m
              (Overlay.new_cycle es) (S (full_slices (length es)))
              (cycle_at_start m es) eq_refl ltac:(lia) ltac:(lia) ltac:(lia) ltac:(lia))
    as (c' & Hrun & (He & Ht & Hc & Hx & Hm) & Hidx & Hsl).
  rewrite firstn_all in *. rewrite drop_0 in Hrun.
  exists c'. repeat split; try assumption.
  rewrite Hsl. unfold slice_sizes. simpl Overlay.slices. cbn [app].
  now rewrite Nat.sub_0_r.
Qed.

(** What a pass over the entries leaves on a map that has the source: for
    each feature the state of the last entry that names it; features no
    entry names keep the state they had. *)
Lemma write_all_feature_state m id es :
  is_Some (Overlay.rivers m) ->
  feature_state (write_all m es) id
  = match last (entries_for id es) with
    | Some e => Some (state_of e)
    | None => feature_state m id
    end.
Proof.
  intros Hsrc.
  induction es as [|e es IH] using rev_ind; [reflexivity|].
  rewrite write_all_snoc.
  unfold entries_for in *. rewrite List.filter_app.
  destruct (rivers_write_all es m Hsrc) as [s Hs].
  unfold write_entry, Overlay.setFeatureState, feature_state in *.
  rewrite Hs in *. cbn [Overlay.rivers Overlay.fstate List.filter].
  destruct (Z.eqb_spec e.1 id) as [Heq | Hne].
  - rewrite last_snoc. subst id. now rewrite lookup_insert_eq.
  - rewrite app_nil_r. now rewrite lookup_insert_ne.
Qed.

(** C3, as the code has it. A batch of [M] entries applied on a map whose
    source is there, with no other cycle waiting, goes through
    [full_slices M + 1] calls of [processChunk], one per turn: every slice
    but the last has exactly 5000 entries and the last has the rest (at
    most 5000); the loop visits the indices 0..M-1 once each, in order,
    and no entry stops it. After the last slice the counters of the cycle
    are published as the stats, and [count] is at most [M]. When every
    entry's feature is present in the loaded tiles, each feature named
    holds the state of the last entry that names it, [count] is [M], and
    [maxFlow] is the value the loop keeps starting from 0: no flow
    exceeds it, it is 0 or one of the flows, and it is the maximum of the
    flows when one of them is zero or more. *)
Theorem applyFeatureStates_result
    (w : Overlay.World) (data : Overlay.LiveData) (es : list (Z * number)) :
  Overlay.mapRef w = true ->
  is_Some (Overlay.rivers (Overlay.engine w)) ->
  Overlay.frames w = [] ->
  Overlay.sites data = Some es ->
  let M := length es in
  let m := Overlay.engine w in
  let flows := map snd es in
  exists w1 c',
    Overlay.applyFeatureStates data w = inl w1 /\
    Overlay.apply_turns (S (full_slices M)) m (Overlay.new_cycle es)
      = Some (write_all m es, c') /\
    Overlay.slices c' = slice_sizes M /\
    (M - Overlay.CHUNK_SIZE * full_slices M <= Overlay.CHUNK_SIZE)%nat /\
    Overlay.touched c' = seq 0 M /\
    Overlay.frames (run_frames (full_slices M) w1) = [] /\
    Overlay.engine (run_frames (full_slices M) w1) = write_all m es /\
    Overlay.stats (Overlay.ui (run_frames (full_slices M) w1))
      = {| count := Overlay.successCount c'; maxFlow := Overlay.cyc_maxFlow c' |} /\
    (0 <= Overlay.successCount c' <= Z.of_nat M)%Z /\
    ((forall e, e ∈ es -> present m e.1 = true) ->
     (forall id, feature_state (write_all m es) id
                 = match last (entries_for id es) with
                   | Some e => Some (state_of e)
                   | None => feature_state m id
                   end) /\
     Overlay.stats (Overlay.ui (run_frames (full_slices M) w1))
       = {| count := Z.of_nat M; maxFlow := max_from (lit 0) flows |} /\
     (forall f, f ∈ flows -> num_gt f (max_from (lit 0) flows) = false) /\
     (max_from (lit 0) flows = lit 0 \/ max_from (lit 0) flows ∈ flows) /\
     (flows = [] -> max_from (lit 0) flows = lit 0) /\
     (NaN ∉ flows -> (exists f, f ∈ flows /\ num_le (lit 0) f = true) ->
      is_maximum_of (max_from (lit 0) flows) flows)).
Proof.
  intros Href Hsrc Hfr Hsites. cbv zeta.
  destruct (apply_turns_result (Overlay.engine w) es)
    as (c' & Hrun & Hsl & Ht & Hc & Hx).
  pose proof (run_frames_cycle _ _ w _ _ Hfr Hrun) as Hworld.
  exists (Overlay.processChunk (Overlay.new_cycle es) w), c'.
  split.
  { unfold Overlay.applyFeatureStates. destruct Hsrc as [s Hs].
    now rewrite Href, Hs, Hsites. }
  split; [exact Hrun|]. split; [exact Hsl|].
  split; [destruct (full_slices_bounds (length es)); nia|].
  split; [exact Ht|].
  rewrite Hworld.
  split; [destruct w; exact Hfr|].
  split; [reflexivity|].
  split; [reflexivity|].
  split; [rewrite Hc; lia|].
  intros _.
  split; [intros id; now apply write_all_feature_state|].
  split; [cbn; now rewrite Hc, Hx|].
  split; [intros f Hf; apply max_from_upper; [discriminate|assumption]|].
  split; [apply max_from_choice|].
  split; [now intros ->|].
  apply max_from_zero_is_maximum.
Qed.

(** The theorem on the live feed of the spec's scenario, entries for the
    features 101 (flow 0.5) and 103 (flow 1500), on a map that has both. *)
Lemma applyFeatureStates_result_witness :
  let w := ready_world [101; 103] in
  let es := [(101, Fin (1 # 2)); (103, lit 1500)] in
  Overlay.mapRef w = true /\
  is_Some (Overlay.rivers (Overlay.engine w)) /\
  Overlay.frames w = [] /\
  Overlay.sites (live es) = Some es /\
  (forall e, e ∈ es -> present (Overlay.engine w) e.1 = true) /\
  exists w1,
    Overlay.applyFeatureStates (live es) w = inl w1 /\
    Overlay.stats (Overlay.ui w1) = {| count := 2; maxFlow := lit 1500 |} /\
    feature_state (write_all (Overlay.engine w) es) 101
      = Some {| Overlay.flow := Fin (1 # 2); Overlay.category := "very_low" |} /\
    feature_state (write_all (Overlay.engine w) es) 102 = None.
Proof.
  cbv zeta.
  assert (Hsrc : is_Some (Overlay.rivers (Overlay.engine (ready_world [101; 103]))))
    by (eexists; reflexivity).
  assert (Hall : forall e, e ∈ [(101, Fin (1 # 2)); (103, lit 1500)] ->
                   present (Overlay.engine (ready_world [101; 103])) e.1 = true).
  { intros e He. apply elem_of_cons in He as [->|He]; [reflexivity|].
    apply elem_of_cons in He as [->|He]; [reflexivity|].
    now apply elem_of_nil in He. }
  split; [reflexivity|]. split; [exact Hsrc|].
  split; [reflexivity|]. split; [reflexivity|]. split; [exact Hall|].
  destruct (applyFeatureStates_result (ready_world [101; 103])
              (live [(101, Fin (1 # 2)); (103, lit 1500)])
              [(101, Fin (1 # 2)); (103, lit 1500)]
              eq_refl Hsrc eq_refl eq_refl)
    as (w1 & c' & Happ & _ & _ & _ & _ & _ & _ & _ & _ & Hpresent).
  destruct (Hpresent Hall) as (Hstate & Hstats & _).
  exists w1. split; [exact Happ|]. split; [exact Hstats|].
  split; [exact (Hstate 101)|exact (Hstate 102)].
Defined.

(** A batch of 10001 entries, for the features 0..10000: three turns, of
    5000, 5000 and 1 entries; every entry counted. *)
Example three_slices :
  let m := tiles [0; 1; 2; 7000; 10000; 20000] in
  let es := batch 0 (Z.to_nat 10001) (lit 3) in
  exists c,
    Overlay.apply_turns 3 m (Overlay.new_cycle es) = Some (write_all m es, c) /\
    Overlay.slices c = [5000; 5000; 1]%nat /\
    Overlay.successCount c = 10001 /\
    Overlay.cyc_maxFlow c = lit 3.
Proof.
  cbv zeta.
  destruct (apply_turns_result (tiles [0; 1; 2; 7000; 10000; 20000])
              (batch 0 (Z.to_nat 10001) (lit 3))) as (c & Hrun & Hsl & _ & Hc & Hx).
  assert (Hturns : S (full_slices (length (batch 0 (Z.to_nat 10001) (lit 3)))) = 3%nat)
    by by_evaluation.
  rewrite Hturns in Hrun.
  exists c. split; [exact Hrun|].
  split; [rewrite Hsl; by_evaluation|].
  split; [rewrite Hc; by_evaluation|].
  rewrite Hx. by_evaluation.
Qed.

(** C3 fails as stated. One entry, for a feature that is present, with a
    negative flow: the entry is applied and counted, the published
    [maxFlow] is 0, and 0 is not the maximum of the applied flows, which
    is -5. *)
Lemma negative_flow_publishes_zero :
  let w := ready_world [101] in
  let es := [(101, lit (-5))] in
  exists w',
    Overlay.applyFeatureStates (live es) w = inl w' /\
    present (Overlay.engine w) 101 = true /\
    Overlay.stats (Overlay.ui w') = {| count := 1; maxFlow := lit 0 |} /\
    feature_state (Overlay.engine w') 101
      = Some {| Overlay.flow := lit (-5); Overlay.category := "very_low" |} /\
    is_maximum_of (lit (-5)) (map snd es) /\
    ~ is_maximum_of (lit 0) (map snd es).
Proof.
  cbv zeta. eexists. split; [vm_compute; reflexivity|].
  split; [vm_compute; reflexivity|].
  split; [vm_compute; reflexivity|].
  split; [vm_compute; reflexivity|].
  change (map snd [(101, lit (-5))]) with [lit (-5)].
  split.
  - split.
    + exists (lit (-5)). split; [apply list_elem_of_here|reflexivity].
    + intros y Hy. apply list_elem_of_singleton in Hy as ->. reflexivity.
  - intros [(y & Hy & Heq) _].
    apply list_elem_of_singleton in Hy as ->. discriminate.
Qed.

(** ** Two apply cycles at once *)

(** A cycle that finishes publishes its own counters, whatever the stats
    were; one that does not finish leaves them alone and queues itself
    behind the callbacks already waiting. *)
Lemma processChunk_cases c w :
  let r := Overlay.chunk (Overlay.engine w) c in
  Overlay.engine (Overlay.processChunk c w) = r.1.1 /\
  if r.2
  then Overlay.frames (Overlay.processChunk c w) = (Overlay.frames w ++ [r.1.2])%list /\
       Overlay.ui (Overlay.processChunk c w) = Overlay.ui w
  else Overlay.frames (Overlay.processChunk c w) = Overlay.frames w /\
       Overlay.stats (Overlay.ui (Overlay.processChunk c w))
       = {| count := Overlay.successCount r.1.2; maxFlow := Overlay.cyc_maxFlow r.1.2 |}.
Proof.
  cbv zeta. unfold Overlay.processChunk.
  destruct (Overlay.chunk (Overlay.engine w) c) as [[m1 c1] more].
  destruct more; simpl; auto.
Qed.

(** Starting a cycle never takes a waiting callback off the queue. *)
Lemma applyFeatureStates_keeps_frames data w w' :
  Overlay.applyFeatureStates data w = inl w' ->
  exists later, Overlay.frames w' = (Overlay.frames w ++ later)%list.
Proof.
  unfold Overlay.applyFeatureStates.
  destruct (Overlay.mapRef w); simpl;
    [|intros H; inversion H; subst; exists []; now rewrite app_nil_r].
  destruct (Overlay.rivers (Overlay.engine w));
    [|intros H; inversion H; subst; exists []; now rewrite app_nil_r].
  destruct (Overlay.sites data) as [es|]; [|discriminate].
  intros H. inversion H; subst. clear H.
  pose proof (processChunk_cases (Overlay.new_cycle es) w) as [_ Hc].
  destruct (Overlay.chunk (Overlay.engine w) (Overlay.new_cycle es)).2.
  - destruct Hc as [-> _]. eauto.
  - destruct Hc as [-> _]. exists []. now rewrite app_nil_r.
Qed.

(** A batch [A] of more than 5000 entries has run its first slice, and a
    batch [B] of at most 5000 entries is applied before the next animation
    frame: what the queue, the map and the stats are after [B], and after
    the frames [A] still needs. *)
Lemma second_cycle_overlaps
    (w : Overlay.World) (dataA dataB : Overlay.LiveData)
    (esA esB : list (Z * number)) :
  Overlay.mapRef w = true ->
  is_Some (Overlay.rivers (Overlay.engine w)) ->
  Overlay.frames w = [] ->
  Overlay.sites dataA = Some esA ->
  Overlay.sites dataB = Some esB ->
  (Overlay.CHUNK_SIZE < length esA)%nat ->
  (length esB <= Overlay.CHUNK_SIZE)%nat ->
  let m := Overlay.engine w in
  exists w1 w2 cA,
    Overlay.applyFeatureStates dataA w = inl w1 /\
    Overlay.frames w1 = [cA] /\
    Overlay.index cA = Overlay.CHUNK_SIZE /\
    Overlay.applyFeatureStates dataB w1 = inl w2 /\
    Overlay.frames w2 = [cA] /\
    Overlay.engine w2
      = write_all (write_all m (take Overlay.CHUNK_SIZE esA)) esB /\
    Overlay.stats (Overlay.ui w2)
      = {| count := Z.of_nat (length esB);
           maxFlow := max_from (lit 0) (map snd esB) |} /\
    Overlay.frames (run_frames (full_slices (length esA)) w2) = [] /\
    Overlay.engine (run_frames (full_slices (length esA)) w2)
      = write_all (write_all (write_all m (take Overlay.CHUNK_SIZE esA)) esB)
          (drop Overlay.CHUNK_SIZE esA) /\
    Overlay.stats (Overlay.ui (run_frames (full_slices (length esA)) w2))
      = {| count := Z.of_nat (length esA);
           maxFlow := max_from (lit 0) (map snd esA) |} /\
    (forall id,
       feature_state (Overlay.engine w2) id
       = match last (entries_for id esB) with
         | Some e => Some (state_of e)
         | None => feature_state (write_all m (take Overlay.CHUNK_SIZE esA)) id
         end) /\
    (forall id,
       feature_state (Overlay.engine (run_frames (full_slices (length esA)) w2)) id
       = match last (entries_for id (drop Overlay.CHUNK_SIZE esA)) with
         | Some e => Some (state_of e)
         | None => feature_state (Overlay.engine w2) id
         end).
Proof.
  intros Href Hsrc Hfr HA HB HlenA HlenB. cbv zeta.
  pose proof CHUNK_SIZE_pos as Hpos.
  set (m := Overlay.engine w).
  (* the first slice of A *)
  destruct (chunk_step m esA 0 m (Overlay.new_cycle esA)
              (cycle_at_start m esA) eq_refl ltac:(lia))
    as (HatA & HwA & HidxA & _ & HmoreA).
  replace (Nat.min (0 + Overlay.CHUNK_SIZE) (length esA))
    with Overlay.CHUNK_SIZE in * by lia.
  rewrite Nat.sub_0_r, drop_0 in HwA.
  destruct (Overlay.chunk m (Overlay.new_cycle esA)) as [[mA cA] moreA] eqn:HchunkA.
  simpl in HatA, HwA, HidxA, HmoreA.
  destruct (Nat.ltb_spec Overlay.CHUNK_SIZE (length esA)); [|lia]. subst moreA.
  set (w1 := Overlay.with_frames [cA] (Overlay.with_engine mA w)).
  assert (H1 : Overlay.applyFeatureStates dataA w = inl w1).
  { unfold Overlay.applyFeatureStates. rewrite Href. simpl negb. cbv iota.
    destruct Hsrc as [s Hs]. rewrite Hs, HA.
    unfold Overlay.processChunk. fold m. rewrite HchunkA.
    cbn [Overlay.frames Overlay.with_engine]. now rewrite Hfr. }
  (* B, in one slice, on the map A has written to *)
  assert (HsrcA : is_Some (Overlay.rivers mA))
    by (rewrite HwA; now apply rivers_write_all).
  assert (HpA : forall id, present mA id = present m id) by apply HatA.
  destruct (chunk_step mA esB 0 mA (Overlay.new_cycle esB)
              (cycle_at_start mA esB) eq_refl ltac:(lia))
    as (HatB & HwB & _ & _ & HmoreB).
  replace (Nat.min (0 + Overlay.CHUNK_SIZE) (length esB))
    with (length esB) in * by lia.
  rewrite Nat.sub_0_r, drop_0, firstn_all in HwB.
  destruct (Overlay.chunk mA (Overlay.new_cycle esB)) as [[mB cB] moreB] eqn:HchunkB.
  simpl in HatB, HwB, HmoreB.
  rewrite Nat.ltb_irrefl in HmoreB. subst moreB.
  destruct HatB as (_ & _ & HcB & HxB & HpB).
  rewrite firstn_all in HcB, HxB.
  set (w2 := Overlay.with_ui
               (Overlay.setStats {| count := Overlay.successCount cB;
                                    maxFlow := Overlay.cyc_maxFlow cB |}
                  (Overlay.ui w1))
               (Overlay.with_engine mB w1)).
  assert (H2 : Overlay.applyFeatureStates dataB w1 = inl w2).
  { unfold Overlay.applyFeatureStates.
    change (Overlay.mapRef w1) with (Overlay.mapRef w). rewrite Href.
    simpl negb. cbv iota.
    change (Overlay.engine w1) with mA.
    destruct HsrcA as [s Hs]. rewrite Hs, HB.
    unfold Overlay.processChunk.
    change (Overlay.engine w1) with mA. now rewrite HchunkB. }
  (* the rest of A, on the frames that follow *)
  destruct (full_slices_bounds (length esA)) as [Hup Hlow].
  destruct (full_slices (length esA)) as [|k] eqn:Hk; [nia|].
  destruct Hlow as [Hlow|Hlow]; [discriminate|].
  assert (HatA' : cycle_at m esA Overlay.CHUNK_SIZE mB cA).
  { destruct HatA as (He & Ht & Hc & Hx & _).
    repeat split; try assumption.
    intros id. now rewrite HpB, HpA. }
  destruct (apply_turns_from m esA k Overlay.CHUNK_SIZE mB cA (S k)
              HatA' HidxA ltac:(lia) ltac:(nia)
              ltac:(destruct k; [left; reflexivity|right; nia]) ltac:(lia))
    as (c' & Hrun & (_ & _ & Hc' & Hx' & _) & _ & _).
  rewrite firstn_all in Hc', Hx'.
  pose proof (run_frames_cycle k cA (Overlay.with_frames [] w2) _ _ eq_refl Hrun)
    as Hworld.
  assert (Hframe : run_frames (S k) w2
                   = run_frames k (Overlay.processChunk cA (Overlay.with_frames [] w2)))
    by reflexivity.
  exists w1, w2, cA.
  split; [exact H1|]. split; [reflexivity|]. split; [exact HidxA|].
  split; [exact H2|]. split; [reflexivity|].
  split; [cbn; now rewrite HwB, HwA|].
  split; [cbn; now rewrite HcB, HxB|].
  rewrite Hframe, Hworld.
  split; [reflexivity|].
  split; [cbn; now rewrite HwB, HwA|].
  split; [cbn; now rewrite Hc', Hx'|].
  assert (HsrcB : is_Some (Overlay.rivers mB))
    by (rewrite HwB; now apply rivers_write_all).
  split.
  - intros id. cbn. rewrite HwB, (write_all_feature_state mA id esB HsrcA).
    now rewrite HwA.
  - intros id. cbn.
    now rewrite (write_all_feature_state mB id (drop Overlay.CHUNK_SIZE esA) HsrcB).
Qed.

(** C4, as the code has it. Nothing supersedes a cycle: starting a cycle
    never takes a waiting callback off the queue. When a batch [A] of more
    than 5000 entries has run its first slice and a batch [B] of at most
    5000 entries is applied before the next animation frame, [A] stays on
    the queue while [B] runs and publishes its stats; on the following
    frames [A] goes through its remaining slices, writes them to the map
    (over what [B] wrote, for a feature both name), and publishes its own
    stats, which are the ones left at the end. The stats of a cycle are
    the number of its entries and the greatest of 0 and their flows. *)
Theorem overlapping_cycles_both_run
    (w : Overlay.World) (dataA dataB : Overlay.LiveData)
    (esA esB : list (Z * number)) :
  Overlay.mapRef w = true ->
  is_Some (Overlay.rivers (Overlay.engine w)) ->
  Overlay.frames w = [] ->
  Overlay.sites dataA = Some esA ->
  Overlay.sites dataB = Some esB ->
  (Overlay.CHUNK_SIZE < length esA)%nat ->
  (length esB <= Overlay.CHUNK_SIZE)%nat ->
  let m := Overlay.engine w in
  let statsA := {| count := Z.of_nat (length esA);
                   maxFlow := max_from (lit 0) (map snd esA) |} in
  let statsB := {| count := Z.of_nat (length esB);
                   maxFlow := max_from (lit 0) (map snd esB) |} in
  (forall data w0 w0',
     Overlay.applyFeatureStates data w0 = inl w0' ->
     exists later, Overlay.frames w0' = (Overlay.frames w0 ++ later)%list) /\
  exists w1 w2 cA,
    Overlay.applyFeatureStates dataA w = inl w1 /\
    Overlay.frames w1 = [cA] /\
    Overlay.applyFeatureStates dataB w1 = inl w2 /\
    Overlay.frames w2 = [cA] /\
    Overlay.stats (Overlay.ui w2) = statsB /\
    Overlay.frames (run_frames (full_slices (length esA)) w2) = [] /\
    Overlay.engine (run_frames (full_slices (length esA)) w2)
      = write_all (write_all (write_all m (take Overlay.CHUNK_SIZE esA)) esB)
          (drop Overlay.CHUNK_SIZE esA) /\
    Overlay.stats (Overlay.ui (run_frames (full_slices (length esA)) w2)) = statsA /\
    (forall id,
       feature_state (Overlay.engine (run_frames (full_slices (length esA)) w2)) id
       = match last (entries_for id (drop Overlay.CHUNK_SIZE esA)) with
         | Some e => Some (state_of e)
         | None => feature_state (Overlay.engine w2) id
         end).
Proof.
  intros Href Hsrc Hfr HA HB HlenA HlenB. cbv zeta.
  split.
  - intros data w0 w0'. apply applyFeatureStates_keeps_frames.
  - destruct (second_cycle_overlaps w dataA dataB esA esB
                Href Hsrc Hfr HA HB HlenA HlenB)
      as (w1 & w2 & cA & H1 & Hf1 & _ & H2 & Hf2 & _ & HstB & Hf3 & He3 & HstA
          & _ & Hlater).
    exists w1, w2, cA. auto 12.
Qed.

(** The theorem on the batches [batch_a] and [batch_b]. *)
Lemma overlapping_cycles_both_run_witness :
  let w := ready_world [0; 1; 5000] in
  Overlay.mapRef w = true /\
  is_Some (Overlay.rivers (Overlay.engine w)) /\
  Overlay.frames w = [] /\
  (Overlay.CHUNK_SIZE < length batch_a)%nat /\
  (length batch_b <= Overlay.CHUNK_SIZE)%nat /\
  exists w1 w2,
    Overlay.applyFeatureStates (live batch_a) w = inl w1 /\
    Overlay.applyFeatureStates (live batch_b) w1 = inl w2 /\
    length (Overlay.frames w2) = 1%nat /\
    Overlay.stats (Overlay.ui w2) = {| count := 1; maxFlow := lit 900 |} /\
    Overlay.stats (Overlay.ui (run_frames (full_slices (length batch_a)) w2))
      = {| count := 5001; maxFlow := lit 3 |}.
Proof.
  cbv zeta.
  assert (Hsrc : is_Some (Overlay.rivers (Overlay.engine (ready_world [0; 1; 5000]))))
    by (eexists; reflexivity).
  assert (HlenA : (Overlay.CHUNK_SIZE < length batch_a)%nat)
    by (apply Nat.ltb_lt; vm_compute; reflexivity).
  assert (HlenB : (length batch_b <= Overlay.CHUNK_SIZE)%nat)
    by (apply Nat.leb_le; vm_compute; reflexivity).
  split; [reflexivity|]. split; [exact Hsrc|]. split; [reflexivity|].
  split; [exact HlenA|]. split; [exact HlenB|].
  destruct (overlapping_cycles_both_run (ready_world [0; 1; 5000])
              (live batch_a) (live batch_b) batch_a batch_b
              eq_refl Hsrc eq_refl eq_refl eq_refl HlenA HlenB)
    as (_ & w1 & w2 & cA & H1 & _ & H2 & Hfr & HstB & _ & _ & HstA & _).
  exists w1, w2.
  split; [exact H1|]. split; [exact H2|].
  split; [rewrite Hfr; reflexivity|].
  split; [rewrite HstB; vm_compute; reflexivity|].
  rewrite HstA. vm_compute. reflexivity.
Defined.

(** Two fetches are in flight at once as soon as the map reports its
    source twice: [handleMapLoad] finds it loaded, and a "sourcedata" event
    follows. *)
Example two_fetches_in_flight :
  let w := Overlay.run
             [ (0, Overlay.Mount);
               (10, Overlay.Engine (tiles [0; 1; 5000]));
               (20, Overlay.MapLoad);
               (30, Overlay.SourceData "rivers" true) ]
             Overlay.initial_world in
  Overlay.fetches w = [20; 30] /\ Overlay.inflight w = [0; 1]%nat.
Proof. cbv zeta. split; by_evaluation. Qed.

(** C4 fails as stated. On a map with the features 0, 1 and 5000, a first
    cycle of 5001 entries of flow 3 (for the features 0..5000) has a slice
    to go when a second cycle, one entry of flow 900 for the feature 5000,
    starts. The first is not abandoned: after the second has published its
    stats (one stream, 900) and set the feature 5000 to 900, the next frame
    runs the rest of the first cycle, which sets the feature 5000 back to 3
    and publishes the stats of the first cycle (5001 streams, 3). *)
Lemma older_cycle_not_superseded :
  let w := ready_world [0; 1; 5000] in
  exists w1 w2,
    Overlay.applyFeatureStates (live batch_a) w = inl w1 /\
    Overlay.applyFeatureStates (live batch_b) w1 = inl w2 /\
    length (Overlay.frames w2) = 1%nat /\
    Overlay.stats (Overlay.ui w2) = {| count := 1; maxFlow := lit 900 |} /\
    feature_state (Overlay.engine w2) 5000
      = Some {| Overlay.flow := lit 900; Overlay.category := "very_high" |} /\
    Overlay.frames (Overlay.animation_frame w2) = [] /\
    Overlay.stats (Overlay.ui (Overlay.animation_frame w2))
      = {| count := 5001; maxFlow := lit 3 |} /\
    Overlay.stats (Overlay.ui (Overlay.animation_frame w2))
      <> Overlay.stats (Overlay.ui w2) /\
    feature_state (Overlay.engine (Overlay.animation_frame w2)) 5000
      = Some {| Overlay.flow := lit 3; Overlay.category := "low" |}.
Proof.
  cbv zeta. set (w := ready_world [0; 1; 5000]).
  assert (Hsrc : is_Some (Overlay.rivers (Overlay.engine w)))
    by (eexists; reflexivity).
  assert (HlenA : (Overlay.CHUNK_SIZE < length batch_a)%nat)
    by (apply Nat.ltb_lt; by_evaluation).
  assert (HlenB : (length batch_b <= Overlay.CHUNK_SIZE)%nat)
    by (apply Nat.leb_le; by_evaluation).
  destruct (second_cycle_overlaps w (live batch_a) (live batch_b) batch_a batch_b
              eq_refl Hsrc eq_refl eq_refl eq_refl HlenA HlenB)
    as (w1 & w2 & cA & H1 & _ & _ & H2 & Hf2 & _ & HstB & Hf3 & _ & HstA
        & Hfs2 & Hfs3).
  assert (Hone : full_slices (length batch_a) = 1%nat) by by_evaluation.
  rewrite Hone in Hf3, HstA, Hfs3.
  change (run_frames 1 w2) with (Overlay.animation_frame w2) in Hf3, HstA, Hfs3.
  assert (HA : {| count := Z.of_nat (length batch_a);
                  maxFlow := max_from (lit 0) (map snd batch_a) |}
               = {| count := 5001; maxFlow := lit 3 |}) by by_evaluation.
  assert (HB : {| count := Z.of_nat (length batch_b);
                  maxFlow := max_from (lit 0) (map snd batch_b) |}
               = {| count := 1; maxFlow := lit 900 |}) by by_evaluation.
  assert (HlastB : last (entries_for 5000 batch_b) = Some (5000, lit 900))
    by by_evaluation.
  assert (HlastA : last (entries_for 5000 (drop Overlay.CHUNK_SIZE batch_a))
                   = Some (5000, lit 3)) by by_evaluation.
  rewrite HA in HstA. rewrite HB in HstB.
  exists w1, w2.
  split; [exact H1|]. split; [exact H2|].
  split; [now rewrite Hf2|]. split; [exact HstB|].
  split; [rewrite Hfs2, HlastB; reflexivity|].
  split; [exact Hf3|]. split; [exact HstA|].
  split; [rewrite HstA, HstB; discriminate|].
  rewrite Hfs3, HlastA. reflexivity.
Qed.

(** ** The refresh interval *)

Lemma tick_times_S x n :
  tick_times x (S n) = x :: tick_times (x + Overlay.REFRESH_INTERVAL) n.
Proof.
  unfold tick_times. simpl seq. cbn [map]. f_equal; [lia|].
  rewrite <- seq_shift, List.map_map. apply List.map_ext. intros k. lia.
Qed.

Lemma tick_times_app x a b :
  (tick_times x a ++ tick_times (x + Z.of_nat a * Overlay.REFRESH_INTERVAL) b)%list
  = tick_times x (a + b).
Proof.
  revert x. induction a as [|a IH]; intros x.
  - simpl. f_equal. lia.
  - change (S a + b)%nat with (S (a + b)). rewrite !tick_times_S.
    cbn [app]. f_equal. rewrite <- IH. do 2 f_equal. lia.
Qed.

Lemma ticks_due_0 x t : (t < x)%Z -> ticks_due x t = 0%nat.
Proof.
  intros H. unfold ticks_due, Overlay.REFRESH_INTERVAL.
  assert ((t - x) / (15 * 60 * 1000) < 0)%Z by (apply Z.div_lt_upper_bound; lia).
  lia.
Qed.

Lemma ticks_due_S x t :
  (x <= t)%Z -> ticks_due x t = S (ticks_due (x + Overlay.REFRESH_INTERVAL) t).
Proof.
  intros H. unfold ticks_due, Overlay.REFRESH_INTERVAL.
  replace (t - (x + 15 * 60 * 1000))%Z with ((t - x) + (-1) * (15 * 60 * 1000))%Z by lia.
  rewrite Z.div_add by lia.
  assert (0 <= (t - x) / (15 * 60 * 1000))%Z by (apply Z.div_pos; lia).
  lia.
Qed.

(** The ticks due by [t] fire at their own times, one interval apart, and
    touch neither the map nor the listeners. *)
Lemma tick_due_fires n : forall w x t,
  Overlay.next_tick w = Some x -> ticks_due x t = n ->
  let w' := Overlay.tick_due n t w in
  Overlay.fetches w' = (Overlay.fetches w ++ tick_times x n)%list /\
  Overlay.next_tick w' = Some (x + Z.of_nat n * Overlay.REFRESH_INTERVAL)%Z /\
  Overlay.listeners w' = Overlay.listeners w /\
  Overlay.mapRef w' = Overlay.mapRef w /\
  Overlay.engine w' = Overlay.engine w.
Proof.
  induction n as [|n IH]; intros w x t Hx Hn; cbv zeta.
  - simpl. rewrite app_nil_r, Hx. repeat split. f_equal. lia.
  - cbn [Overlay.tick_due]. rewrite Hx.
    destruct (Z.leb_spec x t) as [Hle|Hgt];
      [|rewrite ticks_due_0 in Hn by lia; discriminate].
    rewrite ticks_due_S in Hn by assumption. injection Hn as Hn.
    destruct (IH (Overlay.tick x w) (x + Overlay.REFRESH_INTERVAL)%Z t
                eq_refl Hn) as (Hf & Hnext & Hl & Hr & He).
    rewrite Hf, Hnext, Hl, Hr, He, tick_times_S.
    cbn. rewrite <- app_assoc. cbn [app].
    repeat split. f_equal. lia.
Qed.

Lemma advance_to_fires w x t :
  Overlay.next_tick w = Some x ->
  let w' := Overlay.advance_to t w in
  Overlay.fetches w' = (Overlay.fetches w ++ tick_times x (ticks_due x t))%list /\
  Overlay.next_tick w'
    = Some (x + Z.of_nat (ticks_due x t) * Overlay.REFRESH_INTERVAL)%Z /\
  Overlay.listeners w' = Overlay.listeners w /\
  Overlay.mapRef w' = Overlay.mapRef w /\
  Overlay.engine w' = Overlay.engine w.
Proof.
  intros Hx. cbv zeta. unfold Overlay.advance_to. rewrite Hx.
  now apply tick_due_fires.
Qed.

(** The fuel of [advance_to] is the number of ticks due: none is left due
    afterwards. *)
Lemma advance_to_no_tick_left w x t :
  Overlay.next_tick w = Some x ->
  exists x', Overlay.next_tick (Overlay.advance_to t w) = Some x' /\ (t < x')%Z.
Proof.
  intros Hx. destruct (advance_to_fires w x t Hx) as (_ & Hnext & _).
  eexists. split; [exact Hnext|].
  unfold ticks_due, Overlay.REFRESH_INTERVAL.
  pose proof (Z.div_mod (t - x) (15 * 60 * 1000) ltac:(lia)) as Hdm.
  pose proof (Z.mod_pos_bound (t - x) (15 * 60 * 1000) ltac:(lia)) as Hr.
  lia.
Qed.

Lemma ticks_due_split x t1 t2 :
  (t1 <= t2)%Z ->
  ticks_due x t2
  = (ticks_due x t1
     + ticks_due (x + Z.of_nat (ticks_due x t1) * Overlay.REFRESH_INTERVAL) t2)%nat.
Proof.
  intros Ht. remember (ticks_due x t1) as n eqn:Hn. revert x Hn.
  induction n as [|n IH]; intros x Hn.
  - simpl. f_equal. lia.
  - destruct (Z.le_gt_cases x t1) as [Hle|Hgt];
      [|rewrite ticks_due_0 in Hn by lia; discriminate].
    rewrite ticks_due_S in Hn by assumption. injection Hn as Hn.
    rewrite (ticks_due_S x t2) by lia.
    rewrite (IH (x + Overlay.REFRESH_INTERVAL)%Z Hn).
    simpl. do 3 f_equal. lia.
Qed.

(** C5, as the code has it. The interval is armed when the component
    mounts, at [Tm], not when the source becomes ready: its ticks fetch at
    [Tm + 15 min], [Tm + 30 min], ... whether or not the source is loaded.
    The "sourcedata" event that reports the source loaded, at [T0], fetches
    at once. So the fetches up to a time [T] are the ticks due by [T0], the
    fetch at [T0], and the ticks due after it; when the source is ready
    within the first interval the first fetch is the one at [T0]. *)
Theorem refresh_ticks_from_mount (Tm Tl T0 T : Z) :
  (Tm <= Tl)%Z -> (Tl <= T0)%Z -> (T0 <= T)%Z ->
  let first := (Tm + Overlay.REFRESH_INTERVAL)%Z in
  let w := Overlay.advance_to T
             (Overlay.run (becomes_ready Tm Tl T0) Overlay.initial_world) in
  let early := ticks_due first T0 in
  Overlay.fetches w
    = (tick_times first early ++ [T0]
       ++ tick_times (first + Z.of_nat early * Overlay.REFRESH_INTERVAL)
            (ticks_due (first + Z.of_nat early * Overlay.REFRESH_INTERVAL) T))%list /\
  ((T0 < first)%Z ->
   Overlay.fetches w = T0 :: tick_times first (ticks_due first T)).
Proof.
  intros Hml Hl0 H0T. cbv zeta.
  set (x := (Tm + Overlay.REFRESH_INTERVAL)%Z).
  assert (Hmain :
    Overlay.fetches
      (Overlay.advance_to T
         (Overlay.run (becomes_ready Tm Tl T0) Overlay.initial_world))
    = (tick_times x (ticks_due x T0) ++ [T0]
       ++ tick_times (x + Z.of_nat (ticks_due x T0) * Overlay.REFRESH_INTERVAL)
            (ticks_due (x + Z.of_nat (ticks_due x T0) * Overlay.REFRESH_INTERVAL) T))%list).
  { unfold becomes_ready. cbn [Overlay.run Overlay.handle].
    change (Overlay.advance_to Tm Overlay.initial_world) with Overlay.initial_world.
    set (w1 := Overlay.mount Tm Overlay.initial_world).
    destruct (advance_to_fires w1 x Tl eq_refl) as (Hf2 & Hn2 & Hl2 & Hr2 & He2).
    set (w2 := Overlay.advance_to Tl w1) in *. clearbody w2.
    cbn in Hf2, Hl2, Hr2, He2.
    (* [onLoad]: the source is not there, one listener is registered *)
    set (w3 := Overlay.handleMapLoad Tl w2).
    assert (H3 : Overlay.fetches w3 = Overlay.fetches w2 /\
                 Overlay.next_tick w3 = Overlay.next_tick w2 /\
                 Overlay.listeners w3 = 1%nat).
    { unfold w3, Overlay.handleMapLoad. rewrite Hr2. cbn. rewrite He2, Hl2. cbn. auto. }
    destruct H3 as (Hf3 & Hn3 & Hl3). clearbody w3. rewrite Hn2 in Hn3.
    destruct (advance_to_fires w3 _ T0 Hn3) as (Hf4 & Hn4 & Hl4 & _ & _).
    set (w4 := Overlay.advance_to T0 w3) in *. clearbody w4.
    (* "sourcedata": the listener fetches *)
    set (w5 := Overlay.on_sourcedata T0 "rivers" true w4).
    assert (H5 : Overlay.fetches w5 = (Overlay.fetches w4 ++ [T0])%list /\
                 Overlay.next_tick w5 = Overlay.next_tick w4).
    { unfold w5, Overlay.on_sourcedata. rewrite Hl4, Hl3. cbn. auto. }
    destruct H5 as (Hf5 & Hn5). clearbody w5. rewrite Hn4 in Hn5.
    destruct (advance_to_fires w5 _ T Hn5) as (Hf6 & _).
    rewrite Hf6, Hf5, Hf4, Hf3, Hf2.
    rewrite tick_times_app, <- (ticks_due_split x Tl T0 Hl0).
    replace (x + Z.of_nat (ticks_due x Tl) * Overlay.REFRESH_INTERVAL
             + Z.of_nat (ticks_due (x + Z.of_nat (ticks_due x Tl)
                                        * Overlay.REFRESH_INTERVAL) T0)
               * Overlay.REFRESH_INTERVAL)%Z
      with (x + Z.of_nat (ticks_due x T0) * Overlay.REFRESH_INTERVAL)%Z
      by (rewrite (ticks_due_split x Tl T0 Hl0); lia).
    rewrite <- !app_assoc. reflexivity. }
  split; [exact Hmain|].
  intros Hready. rewrite Hmain, (ticks_due_0 x T0 Hready).
  change (tick_times x 0) with (@nil Z).
  replace (x + Z.of_nat 0 * Overlay.REFRESH_INTERVAL)%Z with x by lia.
  reflexivity.
Qed.

(** The theorem with the mount at 0, [onLoad] after half a second and the
    source ready after one second, looked at after 31 min 40 s. *)
Lemma refresh_ticks_from_mount_witness :
  (0 <= 500)%Z /\ (500 <= 1000)%Z /\ (1000 <= 1900000)%Z /\
  (1000 < 0 + Overlay.REFRESH_INTERVAL)%Z /\
  Overlay.fetches
    (Overlay.advance_to 1900000
       (Overlay.run (becomes_ready 0 500 1000) Overlay.initial_world))
  = [1000; 900000; 1800000].
Proof.
  assert (H1 : (0 <= 500)%Z) by lia.
  assert (H2 : (500 <= 1000)%Z) by lia.
  assert (H3 : (1000 <= 1900000)%Z) by lia.
  assert (H4 : (1000 < 0 + Overlay.REFRESH_INTERVAL)%Z) by (vm_compute; reflexivity).
  split; [exact H1|]. split; [exact H2|]. split; [exact H3|]. split; [exact H4|].
  rewrite (proj2 (refresh_ticks_from_mount 0 500 1000 1900000 H1 H2 H3) H4).
  vm_compute. reflexivity.
Defined.

(** C5 fails as stated. With the mount at 0 and the source ready at
    [T0] = 1 s, the fetches of the first 31 min 40 s are at 1 s, 15 min and
    30 min: the scheduler's fetches are 15 and 30 minutes after the mount,
    not after [T0]. And when the source is ready only after 16 min 40 s,
    the tick at 15 min has already fetched, before the source is ready. *)
Lemma ticks_count_from_mount_not_readiness :
  let T0 := 1000%Z in
  Overlay.fetches
    (Overlay.advance_to 1900000
       (Overlay.run (becomes_ready 0 500 T0) Overlay.initial_world))
  = [T0; 900000; 1800000] /\
  [T0; 900000; 1800000]
  <> [T0; (T0 + Overlay.REFRESH_INTERVAL)%Z; (T0 + 2 * Overlay.REFRESH_INTERVAL)%Z] /\
  Overlay.fetches
    (Overlay.run (becomes_ready 0 500 1000000) Overlay.initial_world)
  = [900000; 1000000].
Proof.
  cbv zeta. split_and!; by_evaluation.
Qed.

(** * Further properties of the code *)

(** ** The endpoint *)

Lemma get_first name v before after :
  (forall k' v', In (k', v') before -> k' <> name) ->
  Route.get name (before ++ (name, v) :: after) = Some v.
Proof.
  induction before as [|[k' v'] before IH]; intros Hnot; simpl.
  - now rewrite String.eqb_refl.
  - destruct (String.eqb_spec k' name) as [Heq|Hne].
    + exfalso. apply (Hnot k' v'); [now left|assumption].
    + apply IH. intros k'' v'' Hin. apply (Hnot k'' v''). now right.
Qed.

(** X1. A parameter given in the request is read from its first occurrence:
    its text goes to [parseFloat] (to [parseInt] for the limit) whatever it
    is; only an empty text is replaced by the default, as an absent
    parameter is. Later occurrences of the same name are ignored. *)
Theorem query_args_first_given
    (parseFloat parseInt : string -> number)
    (i : nat) (name d v : string) (before after : list (string * string)) :
  In (i, name, d) parameters ->
  (forall k' v', In (k', v') before -> k' <> name) ->
  Route.query_args parseFloat parseInt (before ++ (name, v) :: after) !! i
  = Some ((if (i =? 4)%nat then parseInt else parseFloat)
            (match v with EmptyString => d | _ => v end)).
Proof.
  intros Hin Hnot. unfold Route.query_args.
  pose proof (get_first name v before after Hnot) as Hget.
  unfold parameters in Hin. simpl in Hin.
  destruct Hin as [H|[H|[H|[H|[H|[]]]]]]; inversion H; subst; clear H;
    rewrite Hget; destruct v; reflexivity.
Qed.

(** The theorem on a request that gives [limit] twice and an empty [west]. *)
Lemma query_args_first_given_witness :
  let sp := [("east", "-70"); ("limit", "10"); ("west", EmptyString); ("limit", "99")] in
  Route.query_args Route.read_integer Route.read_integer sp !! 4%nat = Some (lit 10) /\
  Route.query_args Route.read_integer Route.read_integer sp !! 0%nat = Some (lit (-180)).
Proof.
  cbv zeta. split.
  - refine (query_args_first_given Route.read_integer Route.read_integer
              4 "limit" "5000" "10" [("east", "-70")]
              [("west", EmptyString); ("limit", "99")] _ _).
    + simpl. tauto.
    + intros k' v' [H|[]]. inversion H. discriminate.
  - refine (query_args_first_given Route.read_integer Route.read_integer
              0 "west" "-180" EmptyString [("east", "-70"); ("limit", "10")]
              [("limit", "99")] _ _).
    + simpl. tauto.
    + intros k' v' [H|[H|[]]]; inversion H; discriminate.
Defined.

(** ** What the layers paint *)

Lemma Direct_color_is_FLOW_COLORS f c :
  flow_category f = category_name c ->
  Paint.first_label (flow_category f) DirectLayer.FLOW_COLORS
  = Some (Paint.color DirectLayer.line_color (DirectLayer.drawn f)) /\
  Paint.color DirectLayer.line_color (DirectLayer.drawn f) <> "#3b82f6".
Proof.
  intros Hc. unfold Paint.color, DirectLayer.line_color.
  change (Paint.read (Paint.Get "flow_category") (DirectLayer.drawn f))
    with (Paint.VString (flow_category f)).
  rewrite Hc. destruct c; split; by_evaluation.
Qed.

(** X2. Every feature the endpoint sends is painted by the GeoJSON layer
    with the [FLOW_COLORS] entry of its own flow band, never with the
    layer's default blue: when the query returns rows, the answer has one
    feature per row, in the order of the rows, each tagged with the
    category of its flow, and the layer's colour for it is
    [FLOW_COLORS[category]]. *)
Theorem endpoint_features_painted
    (parseFloat parseInt : string -> number)
    (pool_query : list number -> option (list Route.Row))
    (searchParams : list (string * string)) (rows : list Route.Row) :
  pool_query (Route.query_args parseFloat parseInt searchParams) = Some rows ->
  exists fs,
    Route.GET parseFloat parseInt pool_query searchParams
      = {| status := 200; body := FeatureCollection fs |} /\
    map comid fs = map Route.row_comid rows /\
    map streamflow_cms fs = map Route.row_streamflow_cms rows /\
    forall f, In f fs ->
      flow_category f = Route.getFlowCategory (streamflow_cms f) /\
      Paint.first_label (flow_category f) DirectLayer.FLOW_COLORS
      = Some (Paint.color DirectLayer.line_color (DirectLayer.drawn f)) /\
      Paint.color DirectLayer.line_color (DirectLayer.drawn f) <> "#3b82f6".
Proof.
  intros Hq. exists (map Route.feature_of_row rows).
  split; [unfold Route.GET; now rewrite Hq|].
  split; [rewrite List.map_map; reflexivity|].
  split; [rewrite List.map_map; reflexivity|].
  intros f Hin. apply List.in_map_iff in Hin as (row & <- & _).
  split; [reflexivity|].
  destruct (getFlowCategory_names (Route.row_streamflow_cms row)) as [c Hc].
  now apply (Direct_color_is_FLOW_COLORS _ c).
Qed.

(** The theorem on a result set of two rows, with flows 150 and 0.5. *)
Lemma endpoint_features_painted_witness :
  let row id f := {| Route.row_comid := id; Route.row_streamflow_cms := f;
                     Route.row_velocity_ms := lit 1; Route.row_gnis_name := None;
                     Route.row_stream_order := 2; Route.row_geometry := "{}" |} in
  let rows := [row 101 (lit 150); row 102 (Fin (1 # 2))] in
  exists fs,
    Route.GET Route.read_integer Route.read_integer (fun _ => Some rows) []
      = {| status := 200; body := FeatureCollection fs |} /\
    map (fun f => Paint.color DirectLayer.line_color (DirectLayer.drawn f)) fs
      = ["#f97316"; "#22c55e"].
Proof.
  cbv zeta.
  destruct (endpoint_features_painted Route.read_integer Route.read_integer
              (fun _ => Some [ {| Route.row_comid := 101;
                                  Route.row_streamflow_cms := lit 150;
                                  Route.row_velocity_ms := lit 1;
                                  Route.row_gnis_name := None;
                                  Route.row_stream_order := 2;
                                  Route.row_geometry := "{}" |};
                               {| Route.row_comid := 102;
                                  Route.row_streamflow_cms := Fin (1 # 2);
                                  Route.row_velocity_ms := lit 1;
                                  Route.row_gnis_name := None;
                                  Route.row_stream_order := 2;
                                  Route.row_geometry := "{}" |} ])
              [] _ eq_refl) as (fs & Hget & _).
  exists fs. split; [exact Hget|].
  injection Hget as <-. reflexivity.
Defined.

Lemma Overlay_color_of_state e :
  Paint.color OverlayLayer.line_color (OverlayLayer.drawn (Some (state_of e)))
  = DirectLayer.color_at (Overlay.getFlowCategory e.2) /\
  Paint.color OverlayLayer.line_color (OverlayLayer.drawn (Some (state_of e)))
  <> "#64748b".
Proof.
  destruct (getFlowCategory_names e.2) as [c Hc].
  rewrite <- getFlowCategory_same in Hc.
  unfold Paint.color, OverlayLayer.line_color, Paint.first_case, Paint.equals.
  change (Paint.read (Paint.FeatureState "category")
            (OverlayLayer.drawn (Some (state_of e))))
    with (Paint.VString (Overlay.getFlowCategory e.2)).
  rewrite Hc. destruct c; split; by_evaluation.
Qed.

(** X3. After an apply cycle on a map that has the source, the overlay
    layer paints each feature with the colour of the band of the last
    entry that names it, the same colour [FLOW_COLORS] gives that band in
    the GeoJSON component, and never the "no data" gray; this holds for a
    feature of the loaded tiles and equally for one that no loaded tile
    has yet, whose state is kept for it. A feature no entry names keeps
    the colour it had, and a feature without any feature state is gray. *)
Theorem overlay_paint_after_cycle (m : Overlay.MapHandle) (es : list (Z * number)) :
  is_Some (Overlay.rivers m) ->
  exists m' c,
    Overlay.apply_turns (S (full_slices (length es))) m (Overlay.new_cycle es)
      = Some (m', c) /\
    (forall id,
       let painted m := Paint.color OverlayLayer.line_color
                          (OverlayLayer.drawn (feature_state m id)) in
       match last (entries_for id es) with
       | Some e => painted m' = DirectLayer.color_at (Overlay.getFlowCategory e.2)
                   /\ painted m' <> "#64748b"
       | None => painted m' = painted m
       end) /\
    Paint.color OverlayLayer.line_color (OverlayLayer.drawn None) = "#64748b".
Proof.
  intros Hsrc.
  destruct (apply_turns_result m es) as (c & Hrun & _).
  exists (write_all m es), c. split; [exact Hrun|]. split; [|reflexivity].
  intros id. cbv zeta beta. rewrite (write_all_feature_state m id es Hsrc).
  destruct (last (entries_for id es)) as [e|]; [|reflexivity].
  apply Overlay_color_of_state.
Qed.

(** The theorem on a document that names the feature 101 twice and the
    feature 102, which no loaded tile has: 101 is drawn in the colour of
    its last entry, 102 holds the colour of its flow, 103 stays gray. *)
Lemma overlay_paint_after_cycle_witness :
  let m := tiles [101; 103] in
  let es := [(101, lit 1500); (102, lit 1500); (101, Fin (1 # 2))] in
  exists m' c,
    Overlay.apply_turns (S (full_slices (length es))) m (Overlay.new_cycle es)
      = Some (m', c) /\
    map (fun id => Paint.color OverlayLayer.line_color
                     (OverlayLayer.drawn (feature_state m' id))) [101; 102; 103]
    = ["#22c55e"; "#dc2626"; "#64748b"].
Proof.
  cbv zeta.
  destruct (overlay_paint_after_cycle (tiles [101; 103])
              [(101, lit 1500); (102, lit 1500); (101, Fin (1 # 2))]
              ltac:(eexists; reflexivity))
    as (m' & c & Hrun & Hpaint & _).
  exists m', c. split; [exact Hrun|].
  pose proof (Hpaint 101) as [H101 _].
  pose proof (Hpaint 102) as [H102 _].
  pose proof (Hpaint 103) as H103.
  cbn [map]. cbv zeta beta in H101, H102, H103.
  rewrite H101, H102, H103. reflexivity.
Defined.

(** X4. The two components agree on colour: a feature of the endpoint with
    flow [f] and a tileset feature whose state a cycle wrote from flow [f]
    are painted the same colour, whatever [f] is. *)
Theorem layers_agree_on_color (row : Route.Row) (id : Z) :
  Paint.color DirectLayer.line_color (DirectLayer.drawn (Route.feature_of_row row))
  = Paint.color OverlayLayer.line_color
      (OverlayLayer.drawn (Some (state_of (id, Route.row_streamflow_cms row)))).
Proof.
  destruct (Overlay_color_of_state (id, Route.row_streamflow_cms row)) as [-> _].
  destruct (getFlowCategory_names (Route.row_streamflow_cms row)) as [c Hc].
  destruct (Direct_color_is_FLOW_COLORS (Route.feature_of_row row) c Hc) as [Hcol _].
  change (flow_category (Route.feature_of_row row))
    with (Route.getFlowCategory (Route.row_streamflow_cms row)) in Hcol.
  unfold DirectLayer.color_at. cbn [snd].
  now rewrite getFlowCategory_same, Hcol.
Qed.

(** Case analysis on where a flow lies among the stops of the width
    expression, each case with its order facts. *)
Ltac among_stops x :=
  repeat match goal with
  | |- context [Qle_bool x ?k] =>
      let H := fresh "H" in
      destruct (Qle_bool x k) eqn:H;
      [ apply Qle_bool_iff in H
      | apply not_true_iff_false in H; rewrite Qle_bool_iff in H;
        apply Qnot_le_lt in H ]
  end.

(** The slopes between stops, brought to constants. *)
Ltac slopes :=
  unfold Qdiv, inject_Z in *;
  repeat match goal with
  | |- context [Qmake (?a - ?b) 1] =>
      let d := eval vm_compute in (a - b)%Z in change (a - b)%Z with d
  end;
  cbn [Qinv Qnum Qden] in *.

Lemma piecewise_width x :
  exists w, Paint.piecewise x (Paint.stops DirectLayer.line_width) = Some w /\
            (1 <= w)%Q /\ (w <= 8)%Q /\
            ((x <= 0)%Q -> w = 1%Q) /\ ((10000 <= x)%Q -> (w == 8)%Q).
Proof.
  eexists. split; [reflexivity|].
  cbn [Paint.along]. among_stops x; slopes;
    split_and!; intros; first [reflexivity | lra | exfalso; lra].
Qed.

Lemma piecewise_monotone x y wx wy :
  Paint.piecewise x (Paint.stops DirectLayer.line_width) = Some wx ->
  Paint.piecewise y (Paint.stops DirectLayer.line_width) = Some wy ->
  (x <= y)%Q -> (wx <= wy)%Q.
Proof.
  intros Hx Hy Hxy. injection Hx as <-. injection Hy as <-.
  cbn [Paint.along]. among_stops x; among_stops y; slopes; lra.
Qed.

(** X5. The line width is the same function of the flow in both layers. For
    a finite flow it lies between 1 and 8, is 1 for a flow of zero or less
    and 8 from 10000 on, and never shrinks when the flow grows; a tileset
    feature without feature state is drawn with width 1. *)
Theorem line_width_bounded_monotone (f g : FlowFeature) (x y : Q) :
  streamflow_cms f = Fin x ->
  streamflow_cms g = Fin y ->
  exists wx wy,
    Paint.width DirectLayer.line_width (DirectLayer.drawn f) = Some wx /\
    Paint.width DirectLayer.line_width (DirectLayer.drawn g) = Some wy /\
    (1 <= wx)%Q /\ (wx <= 8)%Q /\
    ((x <= 0)%Q -> wx = 1%Q) /\ ((10000 <= x)%Q -> (wx == 8)%Q) /\
    ((x <= y)%Q -> (wx <= wy)%Q) /\
    (forall st, Overlay.flow st = Fin x ->
       Paint.width OverlayLayer.line_width (OverlayLayer.drawn (Some st)) = Some wx) /\
    Paint.width OverlayLayer.line_width (OverlayLayer.drawn None) = Some 1%Q.
Proof.
  intros Hf Hg.
  destruct (piecewise_width x) as (wx & Hwx & Hlo & Hhi & Hzero & Htop).
  destruct (piecewise_width y) as (wy & Hwy & _).
  exists wx, wy.
  assert (Hdf : Paint.width DirectLayer.line_width (DirectLayer.drawn f) = Some wx).
  { unfold Paint.width.
    change (Paint.read (Paint.input DirectLayer.line_width) (DirectLayer.drawn f))
      with (Paint.VNumber (streamflow_cms f)).
    now rewrite Hf. }
  assert (Hdg : Paint.width DirectLayer.line_width (DirectLayer.drawn g) = Some wy).
  { unfold Paint.width.
    change (Paint.read (Paint.input DirectLayer.line_width) (DirectLayer.drawn g))
      with (Paint.VNumber (streamflow_cms g)).
    now rewrite Hg. }
  split; [exact Hdf|]. split; [exact Hdg|].
  split; [exact Hlo|]. split; [exact Hhi|].
  split; [exact Hzero|]. split; [exact Htop|].
  split; [now apply (piecewise_monotone x y)|].
  split; [|reflexivity].
  intros st Hst. unfold Paint.width.
  change (Paint.read (Paint.input OverlayLayer.line_width)
            (OverlayLayer.drawn (Some st)))
    with (Paint.VNumber (Overlay.flow st)).
  now rewrite Hst.
Qed.

(** The theorem on the flows 5 and 550: widths 1.5 and 4. *)
Lemma line_width_bounded_monotone_witness :
  exists wx wy,
    Paint.width DirectLayer.line_width (DirectLayer.drawn (feature 1 (lit 5))) = Some wx /\
    Paint.width DirectLayer.line_width (DirectLayer.drawn (feature 2 (lit 550))) = Some wy /\
    (wx == 3 # 2)%Q /\ (wy == 4)%Q /\ (wx <= wy)%Q.
Proof.
  destruct (line_width_bounded_monotone (feature 1 (lit 5)) (feature 2 (lit 550))
              (inject_Z 5) (inject_Z 550) eq_refl eq_refl)
    as (wx & wy & Hx & Hy & _ & _ & _ & _ & Hmono & _).
  exists wx, wy. split; [exact Hx|]. split; [exact Hy|].
  injection Hx as <-. injection Hy as <-.
  split; [reflexivity|]. split; [reflexivity|].
  apply Hmono. apply Qle_bool_iff. reflexivity.
Defined.

(** The tests of [getFlowCategory] on a finite flow, each with its order
    fact. *)
Ltac thresholds q :=
  repeat match goal with
  | |- context [Qle_bool ?k q] =>
      let H := fresh "H" in
      destruct (Qle_bool k q) eqn:H;
      [ apply Qle_bool_iff in H
      | apply not_true_iff_false in H; rewrite Qle_bool_iff in H;
        apply Qnot_le_lt in H ]
  end.

(** X6. The six categories split the numbers into bands, and each name is
    returned on its band only: below 1, from 1 to below 10, from 10 to
    below 50, from 50 to below 200, from 200 to below 1000, and the rest,
    which is 1000 and more and also NaN. *)
Theorem getFlowCategory_bands (f : number) :
  (Route.getFlowCategory f = "very_low" <-> num_lt f (lit 1) = true) /\
  (Route.getFlowCategory f = "low"
   <-> num_le (lit 1) f = true /\ num_lt f (lit 10) = true) /\
  (Route.getFlowCategory f = "moderate"
   <-> num_le (lit 10) f = true /\ num_lt f (lit 50) = true) /\
  (Route.getFlowCategory f = "high"
   <-> num_le (lit 50) f = true /\ num_lt f (lit 200) = true) /\
  (Route.getFlowCategory f = "very_high"
   <-> num_le (lit 200) f = true /\ num_lt f (lit 1000) = true) /\
  (Route.getFlowCategory f = "extreme"
   <-> f = NaN \/ num_le (lit 1000) f = true) /\
  Overlay.getFlowCategory f = Route.getFlowCategory f.
Proof.
  split_and!; [ .. | apply getFlowCategory_same ];
    unfold Route.getFlowCategory;
    destruct f as [| |q|]; cbn [num_lt num_le lit];
    thresholds q; cbn [negb];
    (split; intros E);
    try match type of E with
        | _ /\ _ => destruct E as [E E']
        | _ \/ _ => destruct E as [E | E]
        end;
    first [ reflexivity | discriminate
          | (split; first [reflexivity | discriminate])
          | (left; reflexivity) | (right; reflexivity)
          | (exfalso; unfold inject_Z in *; lra) ].
Qed.

(** X7. Zooming in never lowers the row limit of the query, and the limit
    asked for is never below 1000 nor above 8000, whatever the zoom
    (infinite or NaN included). *)
Theorem query_limit_monotone (z1 z2 : number) :
  num_le z1 z2 = true ->
  (Direct.query_limit z1 <= Direct.query_limit z2)%Z /\
  (1000 <= Direct.query_limit z1)%Z /\ (Direct.query_limit z2 <= 8000)%Z.
Proof.
  intros Hle. unfold Direct.query_limit, num_ge.
  destruct z1 as [| |p|], z2 as [| |q|]; cbn [num_lt num_le lit] in *;
    try discriminate Hle;
    try apply Qle_bool_iff in Hle;
    thresholds p; thresholds q; cbn [negb];
    first [ lia | (exfalso; unfold inject_Z in *; lra) ].
Qed.

(** The theorem on the zooms 7.5 and 9. *)
Lemma query_limit_monotone_witness :
  num_le (Fin (15 # 2)) (lit 9) = true /\
  Direct.query_limit (Fin (15 # 2)) = 2000 /\
  Direct.query_limit (lit 9) = 5000 /\
  (Direct.query_limit (Fin (15 # 2)) <= Direct.query_limit (lit 9))%Z.
Proof.
  split; [reflexivity|]. split; [reflexivity|]. split; [reflexivity|].
  apply (query_limit_monotone (Fin (15 # 2)) (lit 9)). reflexivity.
Defined.

(** ** The requests of the GeoJSON component over any timeline *)

(** A world extends another when it has the same requests and possibly
    more, and the new ones are paid for: [n] bounds the new requests plus
    the timeouts still pending. *)
Lemma Direct_fire_next_budget t w w' :
  Direct.fire_next t w = Some w' ->
  exists later,
    Direct.issued w' = (Direct.issued w ++ later)%list /\
    (length later + pending w' <= pending w)%nat.
Proof.
  intros Hnext.
  assert (Hdeb : forall d, Direct.timer w = Some d ->
            exists later,
              Direct.issued (Direct.fire_debounce d w)
                = (Direct.issued w ++ later)%list /\
              (length later + pending (Direct.fire_debounce d w) <= pending w)%nat).
  { intros d Hd.
    unfold Direct.fire_debounce, Direct.fetchFlowDataInner_call, pending.
    cbn. rewrite Hd. destruct (Direct.map w) as [v|]; cbn.
    - eexists [_]. split; [reflexivity | cbn; lia].
    - exists []. rewrite app_nil_r. split; [reflexivity | cbn; lia]. }
  assert (Hini : forall i, Direct.initial_fetch w = Some i ->
            exists later,
              Direct.issued (Direct.fire_initial i w)
                = (Direct.issued w ++ later)%list /\
              (length later + pending (Direct.fire_initial i w) <= pending w)%nat).
  { intros i Hi. unfold Direct.fire_initial, Direct.fetchFlowData, pending.
    cbn. rewrite Hi. exists []. rewrite app_nil_r.
    split; [reflexivity | destruct (Direct.timer w); cbn; lia]. }
  unfold Direct.fire_next in Hnext.
  destruct (Direct.initial_fetch w) as [i|] eqn:Hi,
           (Direct.timer w) as [d|] eqn:Hd;
    repeat case_match; try discriminate Hnext;
    injection Hnext as <-; eauto.
Qed.

Lemma Direct_fire_due_budget fuel : forall t w,
  exists later,
    Direct.issued (Direct.fire_due fuel t w) = (Direct.issued w ++ later)%list /\
    (length later + pending (Direct.fire_due fuel t w) <= pending w)%nat.
Proof.
  induction fuel as [|fuel IH]; intros t w; cbn [Direct.fire_due].
  - exists []. rewrite app_nil_r. split; [reflexivity | cbn; lia].
  - destruct (Direct.fire_next t w) as [w'|] eqn:Hn.
    + destruct (Direct_fire_next_budget _ _ _ Hn) as (l1 & E1 & B1).
      destruct (IH t w') as (l2 & E2 & B2).
      exists (l1 ++ l2)%list. rewrite E2, E1, <- app_assoc. split; [reflexivity|].
      rewrite length_app. lia.
    + exists []. rewrite app_nil_r. split; [reflexivity | cbn; lia].
Qed.

Lemma Direct_handle_budget t e w :
  Direct.issued (Direct.handle t e w) = Direct.issued w /\
  (pending (Direct.handle t e w)
   <= pending w + (if arms_timeout e then 1 else 0))%nat.
Proof.
  unfold pending. destruct e as [|v|v|g o]; cbn.
  - split; [reflexivity|]. destruct (Direct.timer w), (Direct.initial_fetch w); cbn; lia.
  - split; [reflexivity|]. lia.
  - split; [reflexivity|]. destruct (Direct.timer w), (Direct.initial_fetch w); cbn; lia.
  - unfold Direct.settle. case_bool_decide; [|split; [reflexivity | lia]].
    destruct (Direct.fetchFlowDataInner_settle t o (Direct.ui w)) as [st errors].
    cbn. split; [reflexivity | lia].
Qed.

(** X8. Over any timeline and from any state, the component never drops or
    rewrites a request it has sent, and it sends at most one request for
    each mount and each settle event it has received and each timeout that
    was pending at the start: the new requests, plus the timeouts still
    pending at the end, are no more than that. Views and answers cause no
    request. *)
Theorem requests_bounded_by_events
    (evs : list (Z * Direct.Event)) (w : Direct.World) (T : Z) :
  let w' := Direct.advance_to T (Direct.run evs w) in
  exists later,
    Direct.issued w' = (Direct.issued w ++ later)%list /\
    (length later + pending w'
     <= pending w + length (List.filter arms_timeout (map snd evs)))%nat.
Proof.
  cbv zeta. revert w. induction evs as [|[t e] evs IH]; intros w.
  - cbn [Direct.run map List.filter length]. unfold Direct.advance_to.
    destruct (Direct_fire_due_budget 3 T w) as (l & E & B).
    exists l. split; [exact E | lia].
  - cbn [Direct.run map snd List.filter].
    destruct (Direct_fire_due_budget 3 t w) as (l0 & E0 & B0).
    fold (Direct.advance_to t w) in E0, B0.
    set (w1 := Direct.advance_to t w) in *.
    destruct (Direct_handle_budget t e w1) as (E1 & B1).
    destruct (IH (Direct.handle t e w1)) as (l2 & E2 & B2).
    exists (l0 ++ l2)%list. split.
    + rewrite E2, E1, E0. now rewrite app_assoc.
    + rewrite length_app.
      destruct (arms_timeout e); cbn [length]; lia.
Qed.

(** ** Settle events at any pace *)

Lemma quiet_after_tail more : forall w t v T,
  Direct.initial_fetch w = None ->
  Direct.timer w = Some (t + Direct.DEBOUNCE_MS)%Z ->
  Direct.map w = Some v ->
  ordered_from t more = true ->
  ((List.last more (t, v)).1 + Direct.DEBOUNCE_MS <= T)%Z ->
  Direct.issued (Direct.advance_to T (Direct.run (settle_events more) w))
    = (Direct.issued w ++ map request_for (quiet_after ((t, v) :: more)))%list.
Proof.
  induction more as [|[t' v'] rest IH]; intros w t v T Hi Ht Hm Hord HT.
  - simpl in HT. unfold Direct.advance_to. cbn [settle_events map Direct.run].
    rewrite (Direct_fire_due_debounce _ _ _ w Hi Ht HT).
    unfold Direct.fire_debounce, Direct.fetchFlowDataInner_call. simpl.
    now rewrite Hm.
  - cbn [ordered_from] in Hord. apply andb_prop in Hord as [Hle Hord].
    apply Z.leb_le in Hle.
    change (settle_events ((t', v') :: rest))
      with ((t', Direct.MoveEnd v') :: settle_events rest).
    cbn [Direct.run Direct.handle].
    assert (Hlast : List.last ((t', v') :: rest) (t, v) = List.last rest (t', v'))
      by apply last_cons_default.
    rewrite Hlast in HT.
    change (quiet_after ((t, v) :: (t', v') :: rest))
      with (if (t + Direct.DEBOUNCE_MS <=? t')%Z
            then (t, v) :: quiet_after ((t', v') :: rest)
            else quiet_after ((t', v') :: rest)).
    destruct (Z.leb_spec (t + Direct.DEBOUNCE_MS) t') as [Hgap|Hgap].
    + unfold Direct.advance_to at 2.
      rewrite (Direct_fire_due_debounce _ _ _ w Hi Ht Hgap).
      rewrite (IH (Direct.handleMoveEnd t' v' (Direct.fire_debounce _ w)) t' v' T);
        try assumption.
      * unfold Direct.fire_debounce, Direct.fetchFlowDataInner_call. simpl.
        rewrite Hm. simpl. now rewrite <- app_assoc.
      * unfold Direct.fire_debounce, Direct.fetchFlowDataInner_call. simpl.
        rewrite Hm. simpl. exact Hi.
      * reflexivity.
      * reflexivity.
    + unfold Direct.advance_to at 2.
      rewrite (Direct_fire_due_not_yet _ _ _ w Hi Ht Hgap).
      rewrite (IH (Direct.handleMoveEnd t' v' w) t' v' T); try assumption;
        reflexivity || (simpl; assumption).
Qed.

(** X9. Settle events at any pace, times not going back, on a component
    whose initial timeout is no longer pending: the requests sent are
    exactly one for each settle event that is followed by 300 ms without
    another one, sent 300 ms after that event with its view, in order. An
    event overtaken within 300 ms sends nothing. *)
Theorem one_request_per_quiet_settle
    (w : Direct.World) (t0 : Z) (v0 : Direct.Viewport)
    (more : list (Z * Direct.Viewport)) (T : Z) :
  Direct.initial_fetch (Direct.advance_to t0 w) = None ->
  ordered_from t0 more = true ->
  ((List.last more (t0, v0)).1 + Direct.DEBOUNCE_MS <= T)%Z ->
  Direct.issued
    (Direct.advance_to T (Direct.run (settle_events ((t0, v0) :: more)) w))
  = (Direct.issued (Direct.advance_to t0 w)
     ++ map request_for (quiet_after ((t0, v0) :: more)))%list.
Proof.
  intros Hi Hord HT.
  change (settle_events ((t0, v0) :: more))
    with ((t0, Direct.MoveEnd v0) :: settle_events more).
  cbn [Direct.run Direct.handle].
  rewrite (quiet_after_tail more
             (Direct.handleMoveEnd t0 v0 (Direct.advance_to t0 w)) t0 v0 T);
    try assumption; reflexivity.
Qed.

(** The theorem on settle events at 1000, 1100, 2000 and 2400 ms: the
    first is overtaken, the other three are each followed by 300 ms of
    quiet. *)
Lemma one_request_per_quiet_settle_witness :
  let evs := [ (1100, view_b); (2000, view_a); (2400, view_b) ] in
  Direct.issued
    (Direct.advance_to 3000
       (Direct.run (settle_events ((1000, view_a) :: evs)) Direct.initial_world))
  = [ (1400, Direct.query_params view_b);
      (2300, Direct.query_params view_a);
      (2700, Direct.query_params view_b) ].
Proof.
  cbv zeta.
  exact (one_request_per_quiet_settle Direct.initial_world 1000 view_a
           [ (1100, view_b); (2000, view_a); (2400, view_b) ] 3000
           eq_refl eq_refl ltac:(vm_compute; discriminate)).
Defined.

(** X10. The initial fetch. A component that mounts with no timeout
    pending sends one request 800 ms later (the 500 ms of the effect, then
    the 300 ms of the debounce) with the view the map shows, and none if
    there is no map; either way no timeout is left, so without a settle
    event nothing more is sent however long one waits: a missing map is
    not retried. *)
Theorem initial_fetch_once (w : Direct.World) (t0 T : Z) :
  Direct.timer w = None ->
  Direct.initial_fetch w = None ->
  (t0 + Direct.INITIAL_DELAY + Direct.DEBOUNCE_MS <= T)%Z ->
  let w' := Direct.advance_to T (Direct.mount t0 w) in
  Direct.issued w'
  = (Direct.issued w
     ++ match Direct.map w with
        | Some v => [((t0 + Direct.INITIAL_DELAY + Direct.DEBOUNCE_MS)%Z,
                      Direct.query_params v)]
        | None => []
        end)%list /\
  Direct.loading (Direct.ui w')
  = match Direct.map w with
    | Some _ => true
    | None => Direct.loading (Direct.ui w)
    end /\
  (forall T', Direct.advance_to T' w' = w') /\
  (forall t, (t < t0 + Direct.INITIAL_DELAY + Direct.DEBOUNCE_MS)%Z ->
     Direct.issued (Direct.advance_to t (Direct.mount t0 w)) = Direct.issued w).
Proof.
  intros Ht Hi HT. cbv zeta.
  assert (Hfire : Direct.advance_to T (Direct.mount t0 w)
                  = Direct.fire_debounce (t0 + Direct.INITIAL_DELAY + Direct.DEBOUNCE_MS)
                      (Direct.fire_initial (t0 + Direct.INITIAL_DELAY)
                         (Direct.mount t0 w))).
  { unfold Direct.advance_to. cbn [Direct.fire_due].
    unfold Direct.fire_next at 1. cbn [Direct.mount Direct.initial_fetch Direct.timer].
    rewrite Ht. unfold Direct.DEBOUNCE_MS in HT.
    destruct (Z.leb_spec (t0 + Direct.INITIAL_DELAY) T); [|lia].
    apply (Direct_fire_due_debounce 1); [reflexivity | reflexivity | exact HT]. }
  rewrite Hfire.
  unfold Direct.fire_debounce, Direct.fire_initial, Direct.fetchFlowData,
    Direct.fetchFlowDataInner_call, Direct.mount.
  cbn [Direct.map Direct.ui Direct.timer Direct.initial_fetch Direct.issued
       Direct.inflight Direct.logged].
  split_and!.
  - destruct (Direct.map w); cbn; [reflexivity | now rewrite app_nil_r].
  - destruct (Direct.map w); reflexivity.
  - intros T'. apply Direct_fire_due_no_timer; destruct (Direct.map w); reflexivity.
  - intros t Hlt. unfold Direct.advance_to.
    match goal with
    | |- context [Direct.fire_due 3 t ?x] =>
        change (Direct.fire_due 3 t x)
          with (match Direct.fire_next t x with
                | Some w' => Direct.fire_due 2 t w'
                | None => x
                end)
    end.
    unfold Direct.fire_next. cbn [Direct.initial_fetch Direct.timer].
    rewrite Ht.
    destruct (Z.leb_spec (t0 + Direct.INITIAL_DELAY) t); [|reflexivity].
    rewrite Direct_fire_due_not_yet
      with (d := (t0 + Direct.INITIAL_DELAY + Direct.DEBOUNCE_MS)%Z);
      [reflexivity | reflexivity | reflexivity | exact Hlt].
Qed.

(** The theorem on a component that mounts at time 100 on a map showing
    [view_a], and on one that mounts with no map. *)
Lemma initial_fetch_once_witness :
  let w := Direct.show view_a Direct.initial_world in
  Direct.issued (Direct.advance_to 5000 (Direct.mount 100 w))
    = [(900, Direct.query_params view_a)] /\
  Direct.issued (Direct.advance_to 5000 (Direct.mount 100 Direct.initial_world)) = [].
Proof.
  split.
  - exact (proj1 (initial_fetch_once (Direct.show view_a Direct.initial_world)
                    100 5000 eq_refl eq_refl ltac:(vm_compute; discriminate))).
  - exact (proj1 (initial_fetch_once Direct.initial_world
                    100 5000 eq_refl eq_refl ltac:(vm_compute; discriminate))).
Defined.

(** ** The loading flag *)

Lemma Overlay_settle_inflight now g g' o w :
  g <> g' -> g ∈ Overlay.inflight w ->
  g ∈ Overlay.inflight (Overlay.settle now g' o w).
Proof.
  intros Hne Hin. unfold Overlay.settle. case_bool_decide; [|exact Hin].
  cbn [Overlay.inflight]. apply list_elem_of_filter. split; [exact Hne|].
  unfold Overlay.fetchLiveData_settle.
  destruct o as [msg|code [msg|data]]; cbn; try exact Hin;
    destruct (Overlay.ok code); cbn; try exact Hin.
  unfold Overlay.applyFeatureStates. cbn.
  destruct (Overlay.mapRef w); cbn; [|exact Hin].
  destruct (Overlay.rivers (Overlay.engine w)); cbn; [|exact Hin].
  destruct (Overlay.sites data) as [es|]; cbn; [|exact Hin].
  unfold Overlay.processChunk.
  destruct (Overlay.chunk _ _) as [[m c'] more]. destruct more; exact Hin.
Qed.

(** X11. [loading] is one flag, not a count of requests: in both
    components the first answer to arrive, whatever it is, takes the
    loading text off the header although another request is still
    unanswered. *)
Theorem loading_cleared_while_pending
    (d : Direct.World) (dn : Z) (dg dg' : nat) (dout : Direct.Outcome)
    (o : Overlay.World) (on : Z) (og og' : nat) (oout : Overlay.Outcome) :
  dg ∈ Direct.inflight d -> dg' ∈ Direct.inflight d -> dg <> dg' ->
  og ∈ Overlay.inflight o -> og' ∈ Overlay.inflight o -> og <> og' ->
  let d' := Direct.settle dn dg dout d in
  let o' := Overlay.settle on og oout o in
  (Direct.loading (Direct.ui d') = false /\
   Direct.header (Direct.ui d') <> LoadingText /\
   dg' ∈ Direct.inflight d') /\
  (Overlay.loading (Overlay.ui o') = false /\
   Overlay.header (Overlay.ui o') <> LoadingText /\
   og' ∈ Overlay.inflight o').
Proof.
  intros Hd Hd' Hdne Ho Ho' Hone. cbv zeta.
  assert (Hdl : Direct.loading (Direct.ui (Direct.settle dn dg dout d)) = false).
  { unfold Direct.settle. rewrite bool_decide_eq_true_2 by exact Hd.
    pose proof (Direct_settle_clears_loading dn dout (Direct.ui d)) as Hl.
    destruct (Direct.fetchFlowDataInner_settle dn dout (Direct.ui d)). exact Hl. }
  assert (Hol : Overlay.loading (Overlay.ui (Overlay.settle on og oout o)) = false).
  { unfold Overlay.settle. rewrite bool_decide_eq_true_2 by exact Ho. reflexivity. }
  split; split_and!.
  - exact Hdl.
  - unfold Direct.header. rewrite Hdl. discriminate.
  - apply Direct_settle_inflight; [congruence | exact Hd'].
  - exact Hol.
  - unfold Overlay.header. rewrite Hol.
    destruct (Overlay.error _) as [[|? ?]|]; discriminate.
  - apply Overlay_settle_inflight; [congruence | exact Ho'].
Qed.

(** The theorem on two requests of each component, the older one answered
    first. *)
Lemma loading_cleared_while_pending_witness :
  let d := Direct.run [ (0, Direct.MoveEnd view_a); (1000, Direct.MoveEnd view_b);
                        (1350, Direct.View view_b) ]
             Direct.initial_world in
  let o := Overlay.run [ (0, Overlay.Mount); (10, Overlay.Engine (tiles [7]));
                         (20, Overlay.MapLoad);
                         (30, Overlay.SourceData "rivers" true) ]
             Overlay.initial_world in
  Direct.inflight d = [0; 1]%nat /\
  Overlay.inflight o = [0; 1]%nat /\
  Direct.loading (Direct.ui (Direct.settle 1400 0 Direct.FetchRejected d)) = false /\
  Overlay.loading
    (Overlay.ui (Overlay.settle 40 0 (Overlay.Answered 200 (inr (live [(7, lit 3)]))) o))
  = false.
Proof.
  cbv zeta. split; [reflexivity|]. split; [reflexivity|].
  pose proof (loading_cleared_while_pending
           (Direct.run [ (0, Direct.MoveEnd view_a); (1000, Direct.MoveEnd view_b);
                         (1350, Direct.View view_b) ] Direct.initial_world)
           1400 0 1 Direct.FetchRejected
           (Overlay.run [ (0, Overlay.Mount); (10, Overlay.Engine (tiles [7]));
                          (20, Overlay.MapLoad);
                          (30, Overlay.SourceData "rivers" true) ]
              Overlay.initial_world)
           40 0 1 (Overlay.Answered 200 (inr (live [(7, lit 3)])))
           ltac:(vm_compute; apply list_elem_of_here)
           ltac:(vm_compute; apply list_elem_of_further, list_elem_of_here)
           ltac:(discriminate)
           ltac:(vm_compute; apply list_elem_of_here)
           ltac:(vm_compute; apply list_elem_of_further, list_elem_of_here)
           ltac:(discriminate)) as [(Hd & _) (Ho & _)].
  split; [exact Hd | exact Ho].
Defined.

(** ** The greatest flow shown by the GeoJSON component *)

Lemma fold_max2_NaN xs : fold_left max2 xs NaN = NaN.
Proof. induction xs as [|x xs IH]; [reflexivity | exact IH]. Qed.

Lemma fold_max2_poisoned xs : forall a, NaN ∈ xs -> fold_left max2 xs a = NaN.
Proof.
  induction xs as [|x xs IH]; intros a Hin; [now apply elem_of_nil in Hin|].
  apply elem_of_cons in Hin as [<-|Hin]; cbn [fold_left].
  - replace (max2 a NaN) with NaN by (now destruct a). apply fold_max2_NaN.
  - now apply IH.
Qed.

Lemma max2_bounds a b :
  a <> NaN -> b <> NaN ->
  max2 a b <> NaN /\ num_le a (max2 a b) = true /\ num_le b (max2 a b) = true /\
  (max2 a b = a \/ max2 a b = b).
Proof.
  intros Ha Hb.
  assert (E : max2 a b = if num_lt a b then b else a)
    by (destruct a, b; try reflexivity; congruence).
  rewrite E. destruct (num_lt a b) eqn:Hlt.
  - split_and!; [exact Hb | now apply num_lt_le | now apply num_le_refl | now right].
  - split_and!; [exact Ha | now apply num_le_refl
                | now apply num_lt_false_le | now left].
Qed.

Lemma fold_max2_spec xs : forall a,
  a <> NaN -> NaN ∉ xs ->
  fold_left max2 xs a <> NaN /\
  num_le a (fold_left max2 xs a) = true /\
  (forall y, y ∈ xs -> num_le y (fold_left max2 xs a) = true) /\
  (fold_left max2 xs a = a \/ fold_left max2 xs a ∈ xs).
Proof.
  induction xs as [|x xs IH]; intros a Ha Hxs; cbn [fold_left].
  - split_and!; [exact Ha | now apply num_le_refl | | now left].
    intros y Hy. now apply elem_of_nil in Hy.
  - apply not_elem_of_cons in Hxs as [Hx Hxs].
    destruct (max2_bounds a x Ha (not_eq_sym Hx)) as (Hn & Hla & Hlx & Hch).
    destruct (IH (max2 a x) Hn Hxs) as (Hr & Hle & Hall & Hcho).
    split_and!.
    + exact Hr.
    + eapply num_le_trans; eassumption.
    + intros y Hy. apply elem_of_cons in Hy as [->|Hy].
      * eapply num_le_trans; eassumption.
      * now apply Hall.
    + destruct Hcho as [E|Hin].
      * destruct Hch as [E'|E']; rewrite E, E';
          [now left | right; apply list_elem_of_here].
      * right. now apply list_elem_of_further.
Qed.

(** X12. The greatest flow the GeoJSON component keeps after an answer
    with at least one feature: NaN as soon as one flow of the answer is
    NaN; otherwise the maximum of the answer's flows, one of them and not
    below any of them, also when all of them are negative or infinite. *)
Theorem direct_maxFlow_is_maximum
    (now code : Z) (features : list FlowFeature) (st : Direct.State) :
  features <> [] ->
  let answer := Direct.Replied {| status := code;
                                  body := FeatureCollection features |} in
  let shown := maxFlow (Direct.stats (Direct.fetchFlowDataInner_settle now answer st).1) in
  let flows := map streamflow_cms features in
  (NaN ∈ flows -> shown = NaN) /\
  (NaN ∉ flows -> is_maximum_of shown flows).
Proof.
  intros Hne. cbv zeta.
  assert (E : maxFlow (Direct.stats
                (Direct.fetchFlowDataInner_settle now
                   (Direct.Replied {| status := code;
                                      body := FeatureCollection features |}) st).1)
              = Math_max (map streamflow_cms features)).
  { destruct features as [|f fs]; [congruence | reflexivity]. }
  rewrite E. unfold Math_max. split.
  - apply fold_max2_poisoned.
  - intros Hnan.
    destruct (fold_max2_spec (map streamflow_cms features) NegInf
                ltac:(discriminate) Hnan) as (Hr & _ & Hall & Hch).
    split; [|exact Hall].
    destruct Hch as [Eq|Hin].
    + destruct features as [|f fs]; [congruence|].
      exists (streamflow_cms f). split; [apply list_elem_of_here|].
      pose proof (Hall (streamflow_cms f) ltac:(apply list_elem_of_here)) as Hle.
      rewrite Eq in *. unfold num_eq. rewrite Hle.
      destruct (streamflow_cms f); try discriminate Hle; reflexivity.
    + eexists. split; [exact Hin|]. unfold num_eq.
      now rewrite num_le_refl.
Qed.

(** The theorem on an answer whose flows are all negative, and on one with
    a NaN flow. *)
Lemma direct_maxFlow_is_maximum_witness :
  let shown fs :=
    maxFlow (Direct.stats
      (Direct.fetchFlowDataInner_settle 0
         (Direct.Replied {| status := 200; body := FeatureCollection fs |})
         Direct.initial_state).1) in
  shown [feature 1 (lit (-5)); feature 2 (lit (-2))] = lit (-2) /\
  is_maximum_of (shown [feature 1 (lit (-5)); feature 2 (lit (-2))])
    [lit (-5); lit (-2)] /\
  shown [feature 1 (lit 4); feature 2 NaN; feature 3 (lit 9)] = NaN.
Proof.
  cbv zeta. split; [reflexivity|]. split.
  - apply (direct_maxFlow_is_maximum 0 200
             [feature 1 (lit (-5)); feature 2 (lit (-2))] Direct.initial_state
             ltac:(discriminate)).
    intros Hin. repeat (apply elem_of_cons in Hin as [Hin|Hin]; [discriminate Hin|]).
    now apply elem_of_nil in Hin.
  - apply (direct_maxFlow_is_maximum 0 200
             [feature 1 (lit 4); feature 2 NaN; feature 3 (lit 9)]
             Direct.initial_state ltac:(discriminate)).
    apply list_elem_of_further, list_elem_of_here.
Defined.

(** ** A refresh that brings the same document *)

(** A pass over the entries changes nothing of the map but the feature
    state of its source. *)
Lemma write_entry_shape m e :
  match Overlay.rivers m with
  | None => write_entry m e = m
  | Some s =>
      exists F, write_entry m e
                = {| Overlay.rivers := Some {| Overlay.features := Overlay.features s;
                                               Overlay.fstate := F |};
                     Overlay.rivers_loaded := Overlay.rivers_loaded m |}
  end.
Proof.
  unfold write_entry, Overlay.setFeatureState.
  destruct m as [[[fs F]|] l]; cbn; [|reflexivity].
  eexists; reflexivity.
Qed.

Lemma write_all_shape es : forall m,
  match Overlay.rivers m with
  | None => write_all m es = m
  | Some s =>
      exists F, write_all m es
                = {| Overlay.rivers := Some {| Overlay.features := Overlay.features s;
                                               Overlay.fstate := F |};
                     Overlay.rivers_loaded := Overlay.rivers_loaded m |}
  end.
Proof.
  induction es as [|e es IH]; intros m.
  - destruct m as [[[fs F]|] l]; cbn; [eexists|]; reflexivity.
  - change (write_all m (e :: es)) with (write_all (write_entry m e) es).
    pose proof (write_entry_shape m e) as He.
    destruct (Overlay.rivers m) as [s|] eqn:Hr.
    + destruct He as [F He]. rewrite He.
      specialize (IH {| Overlay.rivers := Some {| Overlay.features := Overlay.features s;
                                                  Overlay.fstate := F |};
                        Overlay.rivers_loaded := Overlay.rivers_loaded m |}).
      exact IH.
    + rewrite He. specialize (IH m). now rewrite Hr in IH.
Qed.

Lemma write_all_twice m es : write_all (write_all m es) es = write_all m es.
Proof.
  assert (Hstate : forall id,
            feature_state (write_all (write_all m es) es) id
            = feature_state (write_all m es) id).
  { intros id. destruct (Overlay.rivers m) as [s|] eqn:Hr.
    - assert (Hsrc : is_Some (Overlay.rivers m)) by (rewrite Hr; eauto).
      rewrite (write_all_feature_state (write_all m es) id es)
        by now apply rivers_write_all.
      rewrite (write_all_feature_state m id es Hsrc).
      now destruct (last (entries_for id es)).
    - pose proof (write_all_shape es m) as H0. rewrite Hr in H0.
      now rewrite H0, H0. }
  pose proof (write_all_shape es m) as H1.
  destruct (Overlay.rivers m) as [s|] eqn:Hr.
  - destruct H1 as [F1 H1].
    pose proof (write_all_shape es (write_all m es)) as H2.
    rewrite H1 in H2. cbn in H2. destruct H2 as [F2 H2].
    rewrite H1 in Hstate |- *. rewrite H2 in Hstate |- *.
    do 3 f_equal. apply map_eq. intros id. exact (Hstate id).
  - now rewrite H1, H1.
Qed.

(** X13. A refresh that brings the same entries again changes nothing: run
    to its end on the map the first cycle left, the second cycle leaves
    the map as it was and publishes the same count and the same greatest
    flow. *)
Theorem same_document_again_changes_nothing
    (m : Overlay.MapHandle) (es : list (Z * number)) :
  let turns := S (full_slices (length es)) in
  exists m1 c1 c2,
    Overlay.apply_turns turns m (Overlay.new_cycle es) = Some (m1, c1) /\
    Overlay.apply_turns turns m1 (Overlay.new_cycle es) = Some (m1, c2) /\
    Overlay.successCount c2 = Overlay.successCount c1 /\
    Overlay.cyc_maxFlow c2 = Overlay.cyc_maxFlow c1 /\
    (forall id, present m1 id = present m id).
Proof.
  cbv zeta.
  destruct (apply_turns_result m es) as (c1 & E1 & _ & _ & Hn1 & Hx1).
  destruct (apply_turns_result (write_all m es) es) as (c2 & E2 & _ & _ & Hn2 & Hx2).
  rewrite write_all_twice in E2.
  exists (write_all m es), c1, c2.
  split_and!; [exact E1 | exact E2 | congruence | congruence | apply present_write_all].
Qed.

(** ** A live document that arrives before the source *)

(** X14. A good answer that arrives while the map has no source "rivers"
    (or no map object) is dropped without a trace: no feature state is
    written, nothing is handed to the animation frames, the stats and the
    error stay as they were, and yet the time of the last update and the
    reference time are those of the dropped document. This holds for any
    document, also one without [sites]. *)
Theorem answer_dropped_when_source_missing
    (w : Overlay.World) (now code : Z) (data : Overlay.LiveData) :
  Overlay.ok code = true ->
  Overlay.mapRef w = false \/ Overlay.rivers (Overlay.engine w) = None ->
  let w' := Overlay.fetchLiveData_settle now (Overlay.Answered code (inr data)) w in
  Overlay.engine w' = Overlay.engine w /\
  Overlay.frames w' = Overlay.frames w /\
  Overlay.stats (Overlay.ui w') = Overlay.stats (Overlay.ui w) /\
  Overlay.error (Overlay.ui w') = Overlay.error (Overlay.ui w) /\
  Overlay.loading (Overlay.ui w') = false /\
  Overlay.lastUpdate (Overlay.ui w') = Some now /\
  Overlay.referenceTime (Overlay.ui w') = Some (Overlay.reference_time data) /\
  (Overlay.error (Overlay.ui w) = None ->
   Overlay.header (Overlay.ui w') = StreamCount (count (Overlay.stats (Overlay.ui w)))).
Proof.
  intros Hok Hmissing. cbv zeta.
  unfold Overlay.fetchLiveData_settle. rewrite Hok. cbn [negb].
  assert (E : Overlay.applyFeatureStates data
                (Overlay.with_ui
                   (Overlay.setReferenceTime (Overlay.reference_time data)
                      (Overlay.setLastUpdate now (Overlay.ui w))) w)
              = inl (Overlay.with_ui
                       (Overlay.setReferenceTime (Overlay.reference_time data)
                          (Overlay.setLastUpdate now (Overlay.ui w))) w)).
  { unfold Overlay.applyFeatureStates. cbn [Overlay.with_ui Overlay.mapRef Overlay.engine].
    destruct Hmissing as [-> | Hr]; [reflexivity|].
    rewrite Hr. now destruct (Overlay.mapRef w). }
  rewrite E. cbn.
  split_and!; try reflexivity.
  intros Herr. unfold Overlay.header. cbn. now rewrite Herr.
Qed.

(** The theorem on the first tick of the interval, answered while the map
    still has no source. *)
Lemma answer_dropped_when_source_missing_witness :
  let w := Overlay.advance_to 900000 (Overlay.mount 0 Overlay.initial_world) in
  let w' := Overlay.fetchLiveData_settle 900400
              (Overlay.Answered 200 (inr (live [(7, lit 3)]))) w in
  Overlay.fetches w = [900000] /\
  Overlay.rivers (Overlay.engine w) = None /\
  Overlay.header (Overlay.ui w') = StreamCount 0 /\
  Overlay.lastUpdate (Overlay.ui w') = Some 900400.
Proof.
  cbv zeta. split; [reflexivity|]. split; [reflexivity|].
  pose proof (answer_dropped_when_source_missing
                (Overlay.advance_to 900000 (Overlay.mount 0 Overlay.initial_world))
                900400 200 (live [(7, lit 3)]) eq_refl (or_intror eq_refl))
    as (_ & _ & _ & _ & _ & Hlast & _ & Hhead).
  split; [exact (Hhead eq_refl) | exact Hlast].
Defined.

(** ** "sourcedata" events *)

Lemma Overlay_advance_before_tick w k t :
  Overlay.next_tick w = Some k -> (t < k)%Z -> Overlay.advance_to t w = w.
Proof.
  intros Hk Hlt. unfold Overlay.advance_to. rewrite Hk.
  destruct (Z.to_nat _) as [|fuel]; [reflexivity|].
  cbn [Overlay.tick_due]. rewrite Hk.
  destruct (Z.leb_spec k t); [lia | reflexivity].
Qed.

Lemma fetchLiveData_calls n now : forall w,
  let w' := Nat.iter n (Overlay.fetchLiveData_call now) w in
  Overlay.fetches w' = (Overlay.fetches w ++ repeat now n)%list /\
  Overlay.next_tick w' = Overlay.next_tick w /\
  Overlay.listeners w' = Overlay.listeners w /\
  Overlay.engine w' = Overlay.engine w /\
  Overlay.frames w' = Overlay.frames w /\
  Overlay.stats (Overlay.ui w') = Overlay.stats (Overlay.ui w).
Proof.
  induction n as [|n IH]; intros w; cbv zeta.
  - cbn. now rewrite app_nil_r.
  - rewrite !Nat.iter_succ. destruct (IH w) as (Ef & En & El & Ee & Efr & Es).
    set (w0 := Nat.iter n (Overlay.fetchLiveData_call now) w) in *. clearbody w0.
    unfold Overlay.fetchLiveData_call.
    cbn [Overlay.fetches Overlay.next_tick Overlay.listeners Overlay.engine
         Overlay.frames Overlay.ui Overlay.stats Overlay.setError Overlay.setLoading].
    rewrite Ef, En, El, Ee, Efr, Es. split_and!; try reflexivity.
    rewrite <- app_assoc. f_equal.
    symmetry. apply repeat_cons.
Qed.

(** X15. The listener of [handleMapLoad] has no memory: every "sourcedata"
    event that names the source "rivers" as loaded starts a request at
    once, one for each listener registered, however many such events
    came before and whether or not requests are still unanswered; events
    of other sources, or of a source still loading, start none. By
    themselves these calls leave the map, the frames and the stats
    alone. *)
Theorem every_loaded_sourcedata_fetches
    (evs : list (Z * (string * bool))) (w : Overlay.World) (k : Z) :
  Overlay.next_tick w = Some k ->
  forallb (fun e => (e.1 <? k)%Z) evs = true ->
  let w' := Overlay.run (sourcedata_events evs) w in
  Overlay.fetches w'
  = (Overlay.fetches w ++ flat_map (fetches_for (Overlay.listeners w)) evs)%list /\
  Overlay.engine w' = Overlay.engine w /\
  Overlay.frames w' = Overlay.frames w /\
  Overlay.stats (Overlay.ui w') = Overlay.stats (Overlay.ui w).
Proof.
  revert w. induction evs as [|[t [id loaded]] evs IH]; intros w Hk Hbefore; cbv zeta.
  - cbn. now rewrite app_nil_r.
  - cbn [forallb fst] in Hbefore. apply andb_prop in Hbefore as [Ht Hbefore].
    apply Z.ltb_lt in Ht.
    change (sourcedata_events ((t, (id, loaded)) :: evs))
      with ((t, Overlay.SourceData id loaded) :: sourcedata_events evs).
    cbn [Overlay.run Overlay.handle flat_map].
    rewrite (Overlay_advance_before_tick w k t Hk Ht).
    unfold fetches_for at 1. cbn [fst snd]. unfold Overlay.on_sourcedata.
    destruct (String.eqb id "rivers" && loaded).
    + destruct (fetchLiveData_calls (Overlay.listeners w) t w)
        as (Ef & En & El & Ee & Efr & Es).
      destruct (IH (Nat.iter (Overlay.listeners w) (Overlay.fetchLiveData_call t) w))
        as (Ef' & Ee' & Efr' & Es'); [now rewrite En | exact Hbefore |].
      rewrite Ef', Ee', Efr', Es', Ef, El, Ee, Efr, Es.
      split_and!; try reflexivity. now rewrite <- app_assoc.
    + destruct (IH w Hk Hbefore) as (Ef' & Ee' & Efr' & Es').
      rewrite Ef', Ee', Efr', Es'. split_and!; reflexivity.
Qed.

(** The theorem on a map whose load handler has run once: of four events
    the two that name "rivers" as loaded each start a request. *)
Lemma every_loaded_sourcedata_fetches_witness :
  let w := Overlay.run [ (0, Overlay.Mount); (20, Overlay.MapLoad) ]
             Overlay.initial_world in
  Overlay.listeners w = 1%nat /\
  Overlay.fetches
    (Overlay.run (sourcedata_events
                    [ (30, ("rivers", false)); (40, ("rivers", true));
                      (50, ("composite", true)); (60, ("rivers", true)) ]) w)
  = [40; 60].
Proof.
  cbv zeta. split; [reflexivity|].
  exact (proj1 (every_loaded_sourcedata_fetches
                  [ (30, ("rivers", false)); (40, ("rivers", true));
                    (50, ("composite", true)); (60, ("rivers", true)) ]
                  (Overlay.run [ (0, Overlay.Mount); (20, Overlay.MapLoad) ]
                     Overlay.initial_world)
                  900000 eq_refl eq_refl)).
Defined.

(** ** The refresh interval over any timeline *)

(** What a call of [processChunk] leaves alone. *)
Lemma processChunk_frame c w :
  let w' := Overlay.processChunk c w in
  Overlay.next_tick w' = Overlay.next_tick w /\
  Overlay.listeners w' = Overlay.listeners w /\
  Overlay.fetches w' = Overlay.fetches w /\
  Overlay.inflight w' = Overlay.inflight w /\
  Overlay.mapRef w' = Overlay.mapRef w /\
  Overlay.error (Overlay.ui w') = Overlay.error (Overlay.ui w) /\
  Overlay.loading (Overlay.ui w') = Overlay.loading (Overlay.ui w) /\
  Overlay.lastUpdate (Overlay.ui w') = Overlay.lastUpdate (Overlay.ui w) /\
  Overlay.referenceTime (Overlay.ui w') = Overlay.referenceTime (Overlay.ui w).
Proof.
  cbv zeta. unfold Overlay.processChunk.
  destruct (Overlay.chunk (Overlay.engine w) c) as [[m c'] more].
  destruct more; cbn; split_and!; reflexivity.
Qed.

Lemma animation_frame_next_tick w :
  Overlay.next_tick (Overlay.animation_frame w) = Overlay.next_tick w.
Proof.
  unfold Overlay.animation_frame.
  change (Overlay.next_tick w) with (Overlay.next_tick (Overlay.with_frames [] w)).
  generalize (Overlay.with_frames [] w). generalize (Overlay.frames w).
  intros cs. induction cs as [|c cs IH]; intros w0; cbn [fold_left]; [reflexivity|].
  rewrite IH. apply processChunk_frame.
Qed.

Lemma fetchLiveData_settle_next_tick now o w :
  Overlay.next_tick (Overlay.fetchLiveData_settle now o w) = Overlay.next_tick w.
Proof.
  unfold Overlay.fetchLiveData_settle.
  destruct o as [msg|code [msg|data]]; cbn; try reflexivity;
    destruct (Overlay.ok code); cbn; try reflexivity.
  unfold Overlay.applyFeatureStates. cbn.
  destruct (Overlay.mapRef w); cbn; [|reflexivity].
  destruct (Overlay.rivers (Overlay.engine w)); cbn; [|reflexivity].
  destruct (Overlay.sites data) as [es|]; cbn; [|reflexivity].
  match goal with
  | |- context [Overlay.processChunk ?c ?w0] =>
      exact (proj1 (processChunk_frame c w0))
  end.
Qed.

Lemma handle_keeps_schedule t e w :
  e <> Overlay.Mount ->
  Overlay.next_tick (Overlay.handle t e w) = Overlay.next_tick w.
Proof.
  intros Hne. destruct e as [|m| |id loaded| |g o]; cbn [Overlay.handle].
  - congruence.
  - reflexivity.
  - unfold Overlay.handleMapLoad.
    destruct (Overlay.mapRef w); cbn; [|reflexivity].
    destruct (Overlay.rivers (Overlay.engine w)); [|reflexivity].
    destruct (Overlay.rivers_loaded (Overlay.engine w)); reflexivity.
  - unfold Overlay.on_sourcedata.
    destruct (String.eqb id "rivers" && loaded); [|reflexivity].
    apply fetchLiveData_calls.
  - apply animation_frame_next_tick.
  - unfold Overlay.settle. case_bool_decide; [|reflexivity].
    cbn [Overlay.next_tick]. apply fetchLiveData_settle_next_tick.
Qed.

(** X16. The interval keeps to the grid set at mount. Whatever a mounted
    component receives up to time [T] (map loads, source events, animation
    frames, answers good or bad and in any order), the next tick after [T]
    is the one it would have been with no event at all: the first tick
    plus a whole number of periods, the number of ticks due by [T]. No
    answer, failure or source event postpones or resets the interval. *)
Theorem interval_keeps_to_grid
    (evs : list (Z * Overlay.Event)) (w : Overlay.World) (x T : Z) :
  Overlay.next_tick w = Some x ->
  forallb (after_mount T) evs = true ->
  Overlay.next_tick (Overlay.advance_to T (Overlay.run evs w))
  = Some (x + Z.of_nat (ticks_due x T) * Overlay.REFRESH_INTERVAL)%Z /\
  Overlay.next_tick (Overlay.advance_to T (Overlay.run evs w))
  = Overlay.next_tick (Overlay.advance_to T w).
Proof.
  intros Hx Hevs.
  assert (Hgrid : forall evs w x,
            Overlay.next_tick w = Some x ->
            forallb (after_mount T) evs = true ->
            Overlay.next_tick (Overlay.advance_to T (Overlay.run evs w))
            = Some (x + Z.of_nat (ticks_due x T) * Overlay.REFRESH_INTERVAL)%Z).
  { clear. induction evs as [|[t e] evs IH]; intros w x Hx Hevs.
    - cbn [Overlay.run]. apply advance_to_fires. exact Hx.
    - cbn [forallb] in Hevs. apply andb_prop in Hevs as [He Hevs].
      unfold after_mount in He. cbn [fst snd] in He.
      assert (Hne : e <> Overlay.Mount) by (intros ->; discriminate He).
      assert (Ht : (t <= T)%Z) by (destruct e; try discriminate He; now apply Z.leb_le).
      cbn [Overlay.run].
      destruct (advance_to_fires w x t Hx) as (_ & Hnext & _).
      rewrite (IH (Overlay.handle t e (Overlay.advance_to t w))
                  (x + Z.of_nat (ticks_due x t) * Overlay.REFRESH_INTERVAL)%Z);
        [| rewrite handle_keeps_schedule by exact Hne; exact Hnext | exact Hevs].
      f_equal. rewrite (ticks_due_split x t T Ht). lia. }
  split; [now apply Hgrid|].
  rewrite (Hgrid evs w x Hx Hevs).
  symmetry. apply advance_to_fires. exact Hx.
Qed.

(** The theorem on a component mounted at time 0 that is answered, failed
    and redrawn between its first two ticks. *)
Lemma interval_keeps_to_grid_witness :
  let w := Overlay.mount 0 Overlay.initial_world in
  let evs := [ (10, Overlay.Engine (tiles [7]));
               (20, Overlay.MapLoad);
               (500, Overlay.Settled 0 (Overlay.Answered 200 (inr (live [(7, lit 3)]))));
               (900100, Overlay.Settled 1 (Overlay.FetchRejected "offline"));
               (900200, Overlay.Frame) ] in
  Overlay.next_tick (Overlay.advance_to 1000000 (Overlay.run evs w)) = Some 1800000.
Proof.
  cbv zeta.
  exact (proj1 (interval_keeps_to_grid
           [ (10, Overlay.Engine (tiles [7]));
             (20, Overlay.MapLoad);
             (500, Overlay.Settled 0 (Overlay.Answered 200 (inr (live [(7, lit 3)]))));
             (900100, Overlay.Settled 1 (Overlay.FetchRejected "offline"));
             (900200, Overlay.Frame) ]
           (Overlay.mount 0 Overlay.initial_world) 900000 1000000
           eq_refl eq_refl)).
Defined.

(** ** The error text *)

(** X17. Only the start of a request clears the error; a good answer does
    not. A good answer with a [sites] object leaves the error as it finds
    it, so after two overlapping requests of which one has failed the
    header keeps the failure's text although the other's data has been
    applied; the next call of [fetchLiveData] takes it away. *)
Theorem good_answer_keeps_error
    (w : Overlay.World) (now code : Z) (data : Overlay.LiveData)
    (es : list (Z * number)) :
  Overlay.ok code = true ->
  Overlay.sites data = Some es ->
  let w' := Overlay.fetchLiveData_settle now (Overlay.Answered code (inr data)) w in
  Overlay.error (Overlay.ui w') = Overlay.error (Overlay.ui w) /\
  Overlay.loading (Overlay.ui w') = false /\
  Overlay.lastUpdate (Overlay.ui w') = Some now /\
  Overlay.referenceTime (Overlay.ui w') = Some (Overlay.reference_time data) /\
  (forall msg, Overlay.error (Overlay.ui w) = Some msg -> msg <> EmptyString ->
     Overlay.header (Overlay.ui w') = ErrorText msg) /\
  (forall t, Overlay.error (Overlay.ui (Overlay.fetchLiveData_call t w')) = None).
Proof.
  intros Hok Hsites. cbv zeta.
  unfold Overlay.fetchLiveData_settle. rewrite Hok. cbn [negb].
  set (w0 := Overlay.with_ui
               (Overlay.setReferenceTime (Overlay.reference_time data)
                  (Overlay.setLastUpdate now (Overlay.ui w))) w).
  assert (H0 : exists w1,
            Overlay.applyFeatureStates data w0 = inl w1 /\
            Overlay.error (Overlay.ui w1) = Overlay.error (Overlay.ui w) /\
            Overlay.lastUpdate (Overlay.ui w1) = Some now /\
            Overlay.referenceTime (Overlay.ui w1) = Some (Overlay.reference_time data)).
  { unfold Overlay.applyFeatureStates. rewrite Hsites.
    destruct (negb (Overlay.mapRef w0)); [exists w0; now split_and!|].
    destruct (Overlay.rivers (Overlay.engine w0)); [|exists w0; now split_and!].
    eexists. split; [reflexivity|].
    destruct (processChunk_frame (Overlay.new_cycle es) w0)
      as (_ & _ & _ & _ & _ & He & _ & Hl & Hr).
    rewrite He, Hl, Hr. now split_and!. }
  destruct H0 as (w1 & E & He & Hl & Hr). rewrite E.
  cbn [Overlay.with_ui Overlay.ui Overlay.setLoading Overlay.error Overlay.loading
       Overlay.lastUpdate Overlay.referenceTime].
  split_and!; try assumption; try reflexivity.
  intros msg Hmsg Hne. unfold Overlay.header. cbn. rewrite He, Hmsg.
  destruct msg; [congruence | reflexivity].
Qed.

(** The theorem on two overlapping requests: the first fails, the second
    brings a document; the count is the new one and the header still
    shows the failure. *)
Lemma good_answer_keeps_error_witness :
  let w := Overlay.run [ (0, Overlay.Mount); (10, Overlay.Engine (tiles [7]));
                         (20, Overlay.MapLoad);
                         (30, Overlay.SourceData "rivers" true);
                         (40, Overlay.Settled 0 (Overlay.FetchRejected "offline")) ]
             Overlay.initial_world in
  let w' := Overlay.fetchLiveData_settle 50
              (Overlay.Answered 200 (inr (live [(7, lit 3)]))) w in
  Overlay.stats (Overlay.ui w') = {| count := 1; maxFlow := lit 3 |} /\
  Overlay.header (Overlay.ui w') = ErrorText "offline".
Proof.
  cbv zeta. split; [reflexivity|].
  pose proof (good_answer_keeps_error
                (Overlay.run [ (0, Overlay.Mount); (10, Overlay.Engine (tiles [7]));
                               (20, Overlay.MapLoad);
                               (30, Overlay.SourceData "rivers" true);
                               (40, Overlay.Settled 0 (Overlay.FetchRejected "offline")) ]
                   Overlay.initial_world)
                50 200 (live [(7, lit 3)]) [(7, lit 3)] eq_refl eq_refl)
    as (_ & _ & _ & _ & Hhead & _).
  apply Hhead; [reflexivity | discriminate].
Defined.

(** ** The view a request describes *)

(** X18. A request describes what the map shows when the debounce timeout
    fires, not what it showed at the settle event that armed it: if the
    view changes in between without a settle event, the one request still
    goes out at the armed time, with the last view shown. *)
Theorem request_uses_view_at_firing
    (vs : list (Z * Direct.Viewport)) (w : Direct.World)
    (d : Z) (v : Direct.Viewport) (T : Z) :
  Direct.initial_fetch w = None ->
  Direct.timer w = Some d ->
  Direct.map w = Some v ->
  forallb (fun e => (e.1 <? d)%Z) vs = true ->
  (d <= T)%Z ->
  Direct.issued (Direct.advance_to T (Direct.run (view_events vs) w))
  = (Direct.issued w ++ [(d, Direct.query_params (List.last vs (d, v)).2)])%list.
Proof.
  revert w v. induction vs as [|[t v'] vs IH]; intros w v Hi Ht Hm Hbefore HT.
  - cbn [view_events map Direct.run List.last snd]. unfold Direct.advance_to.
    rewrite (Direct_fire_due_debounce _ _ _ w Hi Ht HT).
    unfold Direct.fire_debounce, Direct.fetchFlowDataInner_call. simpl.
    now rewrite Hm.
  - cbn [forallb fst] in Hbefore. apply andb_prop in Hbefore as [Hlt Hbefore].
    apply Z.ltb_lt in Hlt.
    change (view_events ((t, v') :: vs))
      with ((t, Direct.View v') :: view_events vs).
    cbn [Direct.run Direct.handle]. unfold Direct.advance_to at 2.
    rewrite (Direct_fire_due_not_yet _ _ _ w Hi Ht Hlt).
    rewrite (IH (Direct.show v' w) v'); try assumption; try reflexivity.
    cbn [Direct.show Direct.issued]. do 3 f_equal.
    rewrite last_cons_default.
    clear. revert t. induction vs as [|[t1 v1] vs IHvs]; intros t; [reflexivity|].
    rewrite !last_cons_default. reflexivity.
Qed.

(** The theorem on a settle event at time 0 on [view_a] followed by a
    change of view at 100 ms: the request of 300 ms is for [view_b]. *)
Lemma request_uses_view_at_firing_witness :
  let w := Direct.handleMoveEnd 0 view_a Direct.initial_world in
  Direct.issued (Direct.advance_to 1000 (Direct.run (view_events [(100, view_b)]) w))
  = [(300, Direct.query_params view_b)].
Proof.
  cbv zeta.
  exact (request_uses_view_at_firing [(100, view_b)]
           (Direct.handleMoveEnd 0 view_a Direct.initial_world) 300 view_a 1000
           eq_refl eq_refl eq_refl eq_refl ltac:(vm_compute; discriminate)).
Defined.

(** ** Category and flow on the map *)

Lemma setFeatureState_consistent m id f m' :
  consistent m ->
  Overlay.setFeatureState m id
    {| Overlay.flow := f; Overlay.category := Overlay.getFlowCategory f |} = Some m' ->
  consistent m'.
Proof.
  intros Hm Hset id' st Hst.
  unfold Overlay.setFeatureState in Hset.
  destruct (Overlay.rivers m) as [s|] eqn:Hr; injection Hset as <-;
    [|now apply (Hm id')].
  unfold feature_state in Hst. cbn in Hst.
  destruct (decide (id' = id)) as [->|Hne].
  - rewrite lookup_insert_eq in Hst. now injection Hst as <-.
  - rewrite lookup_insert_ne in Hst by congruence.
    apply (Hm id'). unfold feature_state. now rewrite Hr.
Qed.

Lemma loop_body_consistent acc i :
  consistent acc.1 -> consistent (Overlay.loop_body acc i).1.
Proof.
  destruct acc as [m c]. cbn [fst]. intros Hm. unfold Overlay.loop_body.
  destruct (Overlay.entries c !! i) as [[comid streamflow]|]; [|exact Hm].
  destruct (Overlay.setFeatureState m comid _) as [m'|] eqn:Hset; [|exact Hm].
  cbn [fst]. eapply setFeatureState_consistent; eassumption.
Qed.

Lemma loop_consistent l : forall acc,
  consistent acc.1 -> consistent (fold_left Overlay.loop_body l acc).1.
Proof.
  induction l as [|i l IH]; intros acc Hacc; [exact Hacc|].
  cbn [fold_left]. apply IH. now apply loop_body_consistent.
Qed.

Lemma processChunk_consistent c w :
  consistent (Overlay.engine w) -> consistent (Overlay.engine (Overlay.processChunk c w)).
Proof.
  intros Hw. rewrite (proj1 (processChunk_cases c w)).
  unfold Overlay.chunk.
  pose proof (loop_consistent
                (seq (Overlay.index c)
                   (Nat.min (Overlay.index c + Overlay.CHUNK_SIZE)
                      (length (Overlay.entries c)) - Overlay.index c))
                (Overlay.engine w, c) Hw) as H.
  destruct (fold_left Overlay.loop_body _ _) as [m' c']. exact H.
Qed.

Lemma animation_frame_consistent w :
  consistent (Overlay.engine w) -> consistent (Overlay.engine (Overlay.animation_frame w)).
Proof.
  unfold Overlay.animation_frame.
  change (Overlay.engine w) with (Overlay.engine (Overlay.with_frames [] w)).
  generalize (Overlay.with_frames [] w). generalize (Overlay.frames w).
  intros cs. induction cs as [|c cs IH]; intros w0 H0; cbn [fold_left]; [exact H0|].
  apply IH. now apply processChunk_consistent.
Qed.

Lemma fetchLiveData_settle_consistent now o w :
  consistent (Overlay.engine w) ->
  consistent (Overlay.engine (Overlay.fetchLiveData_settle now o w)).
Proof.
  intros Hw. unfold Overlay.fetchLiveData_settle.
  destruct o as [msg|code [msg|data]]; cbn; try exact Hw;
    destruct (Overlay.ok code); cbn; try exact Hw.
  unfold Overlay.applyFeatureStates. cbn.
  destruct (Overlay.mapRef w); cbn; [|exact Hw].
  destruct (Overlay.rivers (Overlay.engine w)); cbn; [|exact Hw].
  destruct (Overlay.sites data) as [es|]; cbn; [|exact Hw].
  match goal with
  | |- context [Overlay.processChunk ?c ?w0] =>
      exact (processChunk_consistent c w0 Hw)
  end.
Qed.

Lemma advance_to_engine t w :
  Overlay.engine (Overlay.advance_to t w) = Overlay.engine w.
Proof.
  destruct (Overlay.next_tick w) as [x|] eqn:Hx.
  - apply (advance_to_fires w x t Hx).
  - unfold Overlay.advance_to. now rewrite Hx.
Qed.

Lemma handle_consistent t e w :
  supplies_consistent (t, e) ->
  consistent (Overlay.engine w) -> consistent (Overlay.engine (Overlay.handle t e w)).
Proof.
  intros He Hw. destruct e as [|m| |id loaded| |g o]; cbn [Overlay.handle].
  - exact Hw.
  - exact He.
  - unfold Overlay.handleMapLoad.
    destruct (Overlay.mapRef w); cbn; [|exact Hw].
    destruct (Overlay.rivers (Overlay.engine w)); [|exact Hw].
    destruct (Overlay.rivers_loaded (Overlay.engine w)); exact Hw.
  - unfold Overlay.on_sourcedata.
    destruct (String.eqb id "rivers" && loaded); [|exact Hw].
    destruct (fetchLiveData_calls (Overlay.listeners w) t w) as (_ & _ & _ & Ee & _).
    now rewrite Ee.
  - now apply animation_frame_consistent.
  - unfold Overlay.settle. case_bool_decide; [|exact Hw].
    cbn [Overlay.engine]. now apply fetchLiveData_settle_consistent.
Qed.

(** Maps without feature state are consistent. *)
Lemma tiles_consistent ids : consistent (tiles ids).
Proof. intros i st Hst. unfold feature_state in Hst. cbn in Hst. discriminate Hst. Qed.

Lemma initial_consistent : consistent (Overlay.engine Overlay.initial_world).
Proof. intros i st Hst. discriminate Hst. Qed.

(** X19. Colour and width never disagree. Over any timeline, as long as
    the map objects the environment supplies hold no odd feature state,
    every feature state on the map, whether or not a loaded tile has its
    feature, carries the category of its own flow; so the colour a
    feature is drawn with is always the colour of the flow its width is
    drawn from, and a feature without state is gray. Overlapping cycles,
    failed requests and ticks do not break this. *)
Theorem category_always_matches_flow
    (evs : list (Z * Overlay.Event)) (w : Overlay.World) :
  consistent (Overlay.engine w) ->
  Forall supplies_consistent evs ->
  let m := Overlay.engine (Overlay.run evs w) in
  consistent m /\
  forall id,
    Paint.color OverlayLayer.line_color (OverlayLayer.drawn (feature_state m id))
    = match feature_state m id with
      | Some st => DirectLayer.color_at (Overlay.getFlowCategory (Overlay.flow st))
      | None => "#64748b"
      end.
Proof.
  intros Hw Hevs. cbv zeta.
  assert (Hrun : consistent (Overlay.engine (Overlay.run evs w))).
  { revert w Hw. induction Hevs as [|[t e] evs He _ IH]; intros w Hw; [exact Hw|].
    cbn [Overlay.run]. apply IH. apply handle_consistent; [exact He|].
    now rewrite advance_to_engine. }
  split; [exact Hrun|]. intros id.
  destruct (feature_state (Overlay.engine (Overlay.run evs w)) id) as [st|] eqn:Hst;
    [|reflexivity].
  pose proof (Hrun id st Hst) as Hcat.
  replace st with (state_of (id, Overlay.flow st))
    by (destruct st as [f c]; unfold state_of; cbn in *; now rewrite Hcat).
  apply Overlay_color_of_state.
Qed.

(** The theorem on a mounted component that loads a document twice, the
    second time while the first answer's successor is still unanswered. *)
Lemma category_always_matches_flow_witness :
  let evs := [ (0, Overlay.Mount); (10, Overlay.Engine (tiles [7; 8]));
               (20, Overlay.MapLoad);
               (30, Overlay.SourceData "rivers" true);
               (40, Overlay.Settled 1 (Overlay.Answered 200 (inr (live [(7, lit 30)]))));
               (50, Overlay.Settled 0 (Overlay.Answered 200 (inr (live [(7, lit 3); (9, lit 5)])))) ] in
  let m := Overlay.engine (Overlay.run evs Overlay.initial_world) in
  feature_state m 7 = Some {| Overlay.flow := lit 3; Overlay.category := "low" |} /\
  Paint.color OverlayLayer.line_color (OverlayLayer.drawn (feature_state m 7))
  = "#84cc16" /\
  present m 9 = false /\
  feature_state m 9 = Some {| Overlay.flow := lit 5; Overlay.category := "low" |} /\
  consistent m.
Proof.
  cbv zeta. split; [by_evaluation|]. split; [by_evaluation|].
  split; [by_evaluation|]. split; [by_evaluation|].
  apply (category_always_matches_flow
           [ (0, Overlay.Mount); (10, Overlay.Engine (tiles [7; 8]));
             (20, Overlay.MapLoad);
             (30, Overlay.SourceData "rivers" true);
             (40, Overlay.Settled 1 (Overlay.Answered 200 (inr (live [(7, lit 30)]))));
             (50, Overlay.Settled 0 (Overlay.Answered 200 (inr (live [(7, lit 3); (9, lit 5)])))) ]
           Overlay.initial_world).
  - exact initial_consistent.
  - repeat (apply Forall_cons; split);
      first [exact I | apply tiles_consistent | (apply Forall_nil; exact I)].
Defined.

(** ** Every cycle comes to its end *)

Lemma loop_body_entries acc i :
  Overlay.entries (Overlay.loop_body acc i).2 = Overlay.entries acc.2.
Proof.
  destruct acc as [m c]. unfold Overlay.loop_body.
  destruct (Overlay.entries c !! i) as [[comid streamflow]|]; [|reflexivity].
  destruct (Overlay.setFeatureState m comid _); reflexivity.
Qed.

Lemma loop_entries l : forall acc,
  Overlay.entries (fold_left Overlay.loop_body l acc).2 = Overlay.entries acc.2.
Proof.
  induction l as [|i l IH]; intros acc; [reflexivity|].
  cbn [fold_left]. rewrite IH. apply loop_body_entries.
Qed.

Lemma chunk_shape m c :
  let stop := Nat.min (Overlay.index c + Overlay.CHUNK_SIZE)
                (length (Overlay.entries c)) in
  Overlay.entries (Overlay.chunk m c).1.2 = Overlay.entries c /\
  Overlay.index (Overlay.chunk m c).1.2 = stop /\
  (Overlay.chunk m c).2 = (stop <? length (Overlay.entries c))%nat.
Proof.
  cbv zeta. unfold Overlay.chunk.
  pose proof (loop_entries
                (seq (Overlay.index c)
                   (Nat.min (Overlay.index c + Overlay.CHUNK_SIZE)
                      (length (Overlay.entries c)) - Overlay.index c))
                (m, c)) as He.
  destruct (fold_left Overlay.loop_body _ _) as [m' c'].
  cbn [fst snd Overlay.entries Overlay.index] in *. now split_and!.
Qed.

(** A cycle that asks for another frame has fewer entries left, by one
    full slice, and at least one. *)
Lemma processChunk_remaining c w n :
  (remaining c <= S n * Overlay.CHUNK_SIZE)%nat ->
  Forall (fun c' => remaining c' <= n * Overlay.CHUNK_SIZE /\ 0 < remaining c')%nat
    (Overlay.frames w) ->
  Forall (fun c' => remaining c' <= n * Overlay.CHUNK_SIZE /\ 0 < remaining c')%nat
    (Overlay.frames (Overlay.processChunk c w)).
Proof.
  intros Hc Hw.
  destruct (processChunk_cases c w) as [_ Hcases].
  destruct (chunk_shape (Overlay.engine w) c) as (He & Hi & Hmore).
  destruct (Overlay.chunk (Overlay.engine w) c).2 eqn:Hm.
  - destruct Hcases as [-> _]. apply Forall_app. split; [exact Hw|].
    apply Forall_cons. split; [|apply Forall_nil; exact I].
    symmetry in Hmore. apply Nat.ltb_lt in Hmore.
    unfold remaining in *. rewrite He, Hi. lia.
  - destruct Hcases as [-> _]. exact Hw.
Qed.

Lemma animation_frame_remaining w n :
  Forall (fun c => remaining c <= S n * Overlay.CHUNK_SIZE)%nat (Overlay.frames w) ->
  Forall (fun c' => remaining c' <= n * Overlay.CHUNK_SIZE /\ 0 < remaining c')%nat
    (Overlay.frames (Overlay.animation_frame w)).
Proof.
  unfold Overlay.animation_frame. intros Hw.
  assert (H0 : Forall (fun c' => remaining c' <= n * Overlay.CHUNK_SIZE
                                 /\ 0 < remaining c')%nat
                 (Overlay.frames (Overlay.with_frames [] w)))
    by (apply Forall_nil; exact I).
  revert H0. generalize (Overlay.with_frames [] w).
  induction Hw as [|c cs Hc _ IH]; intros w0 H0; cbn [fold_left]; [exact H0|].
  apply IH. now apply processChunk_remaining.
Qed.

Lemma run_frames_add a : forall b w,
  run_frames (a + b) w = run_frames b (run_frames a w).
Proof. induction a as [|a IH]; intros b w; [reflexivity | apply IH]. Qed.

Lemma run_frames_drain n : forall w,
  Forall (fun c => remaining c <= S n * Overlay.CHUNK_SIZE)%nat (Overlay.frames w) ->
  Overlay.frames (run_frames (S n) w) = [].
Proof.
  induction n as [|n IH]; intros w Hw.
  - apply animation_frame_remaining in Hw. cbn [run_frames].
    destruct (Overlay.frames (Overlay.animation_frame w)) as [|c cs]; [reflexivity|].
    apply Forall_cons in Hw as [[Hle Hpos] _]. lia.
  - change (run_frames (S (S n)) w) with (run_frames (S n) (Overlay.animation_frame w)).
    apply IH. apply animation_frame_remaining in Hw.
    eapply Forall_impl; [exact Hw|]. intros c [Hle _]. exact Hle.
Qed.

(** X20. No cycle is left waiting for ever. Whatever cycles wait for an
    animation frame, overlapping or not, each goes through at most one
    full slice more per frame: when every waiting cycle has at most
    [(n + 1) * 5000] entries left, no cycle waits any more after [n + 1]
    frames, nor after any later frame; and such an [n] always exists. *)
Theorem pending_cycles_all_finish (w : Overlay.World) :
  (exists n,
     Forall (fun c => remaining c <= S n * Overlay.CHUNK_SIZE)%nat (Overlay.frames w)) /\
  (forall n k,
     Forall (fun c => remaining c <= S n * Overlay.CHUNK_SIZE)%nat (Overlay.frames w) ->
     (S n <= k)%nat ->
     Overlay.frames (run_frames k w) = []).
Proof.
  split.
  - induction (Overlay.frames w) as [|c cs [n IH]].
    + exists 0%nat. apply Forall_nil. exact I.
    + exists (Nat.max n (remaining c)). apply Forall_cons. split.
      * pose proof CHUNK_SIZE_pos. nia.
      * eapply Forall_impl; [exact IH|]. intros c' Hc'. cbn beta in *. nia.
  - intros n k Hw Hk.
    replace k with (S n + (k - S n))%nat by lia.
    rewrite run_frames_add. rewrite run_frames_idle; now apply run_frames_drain.
Qed.

(** ** Requests that fail *)

(** X21. Every way a live request can fail ends the same way: [fetch]
    rejects, the status is not 2xx, the body is not JSON, or the document
    has no [sites] object (on a map whose source is there). The header
    shows the message of the failure, the loading flag is down, and the
    map, the waiting cycles and the stats are as before. *)
Theorem live_request_failure_is_shown
    (now : Z) (o : Overlay.Outcome) (msg : string) (w : Overlay.World) :
  Overlay_failed o msg \/
  (exists code data,
     o = Overlay.Answered code (inr data) /\ Overlay.ok code = true /\
     Overlay.sites data = None /\ Overlay.mapRef w = true /\
     is_Some (Overlay.rivers (Overlay.engine w)) /\ msg = Overlay.entries_error) ->
  msg <> EmptyString ->
  let w' := Overlay.fetchLiveData_settle now o w in
  Overlay.header (Overlay.ui w') = ErrorText msg /\
  Overlay.loading (Overlay.ui w') = false /\
  Overlay.engine w' = Overlay.engine w /\
  Overlay.frames w' = Overlay.frames w /\
  Overlay.stats (Overlay.ui w') = Overlay.stats (Overlay.ui w).
Proof.
  intros [Hfail | (code & data & -> & Hok & Hsites & Href & Hriv & ->)] Hne; cbv zeta.
  - destruct (Overlay_failure_keeps_render_state now o msg w Hfail)
      as (Hl & _ & Hh & He & Hf & Hs).
    split_and!; auto.
  - destruct (Overlay_missing_sites_sets_error now code data w Hok Href Hriv Hsites)
      as (Hl & Hh & He & Hf & Hs).
    split_and!; auto.
Qed.

(** The theorem on a status 503 and on a document without [sites]. *)
Lemma live_request_failure_is_shown_witness :
  let w := ready_world [7] in
  let bare := {| Overlay.generated_at := "2026-01-01T00:05:00Z";
                 Overlay.reference_time := "2026-01-01T00:00:00Z";
                 Overlay.site_count := 0; Overlay.sites := None |} in
  Overlay.header
    (Overlay.ui (Overlay.fetchLiveData_settle 5
                   (Overlay.Answered 503 (inr (live [(7, lit 3)]))) w))
  = ErrorText "HTTP 503" /\
  Overlay.header
    (Overlay.ui (Overlay.fetchLiveData_settle 5 (Overlay.Answered 200 (inr bare)) w))
  = ErrorText "Cannot convert undefined or null to object".
Proof.
  cbv zeta. split.
  - apply (live_request_failure_is_shown 5
             (Overlay.Answered 503 (inr (live [(7, lit 3)]))) "HTTP 503"
             (ready_world [7])); [left; reflexivity | discriminate].
  - refine (proj1 (live_request_failure_is_shown 5 _ Overlay.entries_error
                     (ready_world [7]) _ _)); [|discriminate].
    right. do 2 eexists. split_and!; try reflexivity. now eexists.
Defined.

(** X22. A request of the GeoJSON component that ends without a JSON body
    ([fetch] rejects, or the body does not parse) is silent: the data,
    the stats and the time of the last update stay, the header goes back
    to the old count with no error text, one line goes to the console,
    the request is no longer waited for, and nothing is sent again: no
    request and no timeout is added. *)
Theorem rejected_request_is_silent
    (w : Direct.World) (now : Z) (g : nat) (o : Direct.Outcome) :
  g ∈ Direct.inflight w ->
  o = Direct.FetchRejected \/ (exists code, o = Direct.BodyRejected code) ->
  let w' := Direct.settle now g o w in
  Direct.flowData (Direct.ui w') = Direct.flowData (Direct.ui w) /\
  Direct.stats (Direct.ui w') = Direct.stats (Direct.ui w) /\
  Direct.lastUpdate (Direct.ui w') = Direct.lastUpdate (Direct.ui w) /\
  Direct.header (Direct.ui w') = StreamCount (count (Direct.stats (Direct.ui w))) /\
  Direct.logged w' = S (Direct.logged w) /\
  (g ∉ Direct.inflight w') /\
  Direct.issued w' = Direct.issued w /\
  Direct.timer w' = Direct.timer w /\
  Direct.initial_fetch w' = Direct.initial_fetch w.
Proof.
  intros Hg Ho. cbv zeta. unfold Direct.settle.
  rewrite bool_decide_eq_true_2 by exact Hg.
  pose proof (Direct_rejected_keeps_data now o (Direct.ui w) Ho) as H.
  destruct (Direct.fetchFlowDataInner_settle now o (Direct.ui w)) as [st errors].
  destruct H as (Hd & Hs & Hl & Hh & ->).
  cbn [Direct.ui Direct.logged Direct.inflight Direct.issued Direct.timer
       Direct.initial_fetch].
  split_and!; try assumption; try reflexivity; [lia|].
  intros Hin. apply list_elem_of_filter in Hin as [Hne _]. now apply Hne.
Qed.

(** The theorem on the first request of a mounted component, rejected. *)
Lemma rejected_request_is_silent_witness :
  let w := Direct.advance_to 1000
             (Direct.run [ (0, Direct.Mount); (0, Direct.View view_a) ]
                Direct.initial_world) in
  Direct.inflight w = [0%nat] /\
  Direct.header (Direct.ui (Direct.settle 1200 0 Direct.FetchRejected w))
  = StreamCount 0 /\
  Direct.logged (Direct.settle 1200 0 Direct.FetchRejected w) = 1%nat.
Proof.
  cbv zeta. split; [reflexivity|].
  pose proof (rejected_request_is_silent
                (Direct.advance_to 1000
                   (Direct.run [ (0, Direct.Mount); (0, Direct.View view_a) ]
                      Direct.initial_world))
                1200 0 Direct.FetchRejected
                ltac:(vm_compute; apply list_elem_of_here) (or_introl eq_refl))
    as (_ & _ & _ & Hh & Hl & _).
  split; [exact Hh | exact Hl].
Defined.

(** ** Entries for features no loaded tile has *)

(** X23. The [catch] of lines 84-86 never runs: an entry counts as a
    success whether or not the loaded tiles have its feature. A cycle run
    on its own, on a map that has the source, publishes [count] equal to
    the number of entries of the document and [maxFlow] equal to the
    greatest of 0 and all their flows, and every feature named holds the
    state of the last entry that names it, also one absent from the
    loaded tiles; the features of the tiles themselves are not changed. *)
Theorem every_entry_is_counted
    (w : Overlay.World) (data : Overlay.LiveData) (es : list (Z * number)) :
  Overlay.mapRef w = true ->
  is_Some (Overlay.rivers (Overlay.engine w)) ->
  Overlay.frames w = [] ->
  Overlay.sites data = Some es ->
  exists w1,
    Overlay.applyFeatureStates data w = inl w1 /\
    let w' := run_frames (full_slices (length es)) w1 in
    Overlay.frames w' = [] /\
    Overlay.stats (Overlay.ui w')
      = {| count := Z.of_nat (length es);
           maxFlow := max_from (lit 0) (map snd es) |} /\
    (forall id, feature_state (Overlay.engine w') id
                = match last (entries_for id es) with
                  | Some e => Some (state_of e)
                  | None => feature_state (Overlay.engine w) id
                  end) /\
    (forall id, present (Overlay.engine w') id = present (Overlay.engine w) id).
Proof.
  intros Href Hsrc Hfr Hsites.
  destruct (apply_turns_result (Overlay.engine w) es)
    as (c' & Hrun & _ & _ & Hc & Hx).
  pose proof (run_frames_cycle _ _ w _ _ Hfr Hrun) as Hworld.
  exists (Overlay.processChunk (Overlay.new_cycle es) w).
  split.
  { unfold Overlay.applyFeatureStates. destruct Hsrc as [s Hs].
    now rewrite Href, Hs, Hsites. }
  cbv zeta. rewrite Hworld.
  split; [destruct w; exact Hfr|].
  split; [cbn; now rewrite Hc, Hx|].
  split; [intros id; cbn; now apply write_all_feature_state|].
  intros id. cbn. apply present_write_all.
Qed.

(** The theorem on entries for the features 101 and 102 on a map whose
    tiles have 101 and 103: both entries are counted and the greatest
    flow is that of 102, which holds its state. *)
Lemma every_entry_is_counted_witness :
  let w := ready_world [101; 103] in
  let es := [(101, Fin (1 # 2)); (102, lit 1500)] in
  present (Overlay.engine w) 102 = false /\
  exists w1,
    Overlay.applyFeatureStates (live es) w = inl w1 /\
    Overlay.stats (Overlay.ui w1) = {| count := 2; maxFlow := lit 1500 |} /\
    feature_state (Overlay.engine w1) 102
      = Some {| Overlay.flow := lit 1500; Overlay.category := "extreme" |}.
Proof.
  cbv zeta. split; [reflexivity|].
  destruct (every_entry_is_counted (ready_world [101; 103])
              (live [(101, Fin (1 # 2)); (102, lit 1500)])
              [(101, Fin (1 # 2)); (102, lit 1500)]
              eq_refl ltac:(eexists; reflexivity) eq_refl eq_refl)
    as (w1 & Happ & _ & Hstats & Hstate & _).
  exists w1. split; [exact Happ|]. split; [exact Hstats|]. exact (Hstate 102).
Defined.
